(** * Deep Focus: a shallow embedding of the scan engine's core

    The development follows the Python sources of the repository:
    - [execution/probes.py]      the Observation record and the probe set,
    - [execution/fingerprint.py] the weighted fingerprint evaluator,
    - [execution/db_manager.py]  the observation store and the chunk table,
    - [execution/scheduler.py]   chunking, the retry limit and maintenance.

    Part I gives the definitions, Part II the theorems.

    Conventions.  Python [int] is [Z]; [str] is [string]; [None]-able
    values are [option]; a [dict] read with [.get] is a [gmap] or a record
    of optional fields; a table of the SQLite file is the list of its rows
    in rowid order.  Wall-clock readings ([time.time()],
    [datetime.now()]) are integers (seconds) handed to the operation
    that reads the clock; an ISO-8601 rendering of such a reading orders as
    the reading itself.  The floating point field [latency_ms] and the
    never-populated [cert_info] of an Observation are left out. *)

From Stdlib Require Import ZArith Lia List Ascii String DecimalString Sorted.
From stdpp Require Import base gmap strings list.

Import ListNotations.
Local Open Scope string_scope.
Local Open Scope list_scope.
Local Open Scope Z_scope.

(* ===================================================================== *)
(** * Part I: the embedding                                               *)
(* ===================================================================== *)

(** ** Python string helpers *)

Module PyStr.

(** [c.lower()] on one ASCII character. *)
Definition lower_ascii (c : ascii) : ascii :=
  let n := nat_of_ascii c in
  if (Nat.leb 65 n && Nat.leb n 90)%bool then ascii_of_nat (n + 32) else c.

(** [s.lower()] for a string of ASCII characters: the letters [A-Z]
    are lowered and every other character is kept.  It serves the
    constants of the sources (the brand names of the RTSP probe) and the
    examples; [str.lower()] on text that came from a peer, which lowers
    the letters outside ASCII as well, is a parameter ([py_lower]) of the
    sections that call it. *)
Fixpoint lower_ascii_string (s : string) : string :=
  match s with
  | EmptyString => EmptyString
  | String c r => String (lower_ascii c) (lower_ascii_string r)
  end.

(** [s.split(sep)] for a one-character separator. *)
Fixpoint split_aux (sep : ascii) (cur : string) (s : string) : list string :=
  match s with
  | EmptyString => [String.rev cur]
  | String c r =>
      if Ascii.eqb c sep then String.rev cur :: split_aux sep EmptyString r
      else split_aux sep (String c cur) r
  end.

Definition split (sep : ascii) (s : string) : list string :=
  split_aux sep EmptyString s.

(** [s.startswith(p)]. *)
Definition startswith (s p : string) : bool := String.prefix p s.

(** [bool(s)] for a string: non-empty. *)
Definition truthy (s : string) : bool :=
  match s with EmptyString => false | _ => true end.

(** [x or ""] for an optional string. *)
Definition or_empty (x : option string) : string :=
  match x with Some s => s | None => "" end.

(** [sub in s] *)
Definition contains (s sub : string) : bool :=
  match String.index 0 sub s with Some _ => true | None => false end.

(** [s.split(sep)] for a separator of any length (not empty): the
    pieces between the occurrences of [sep], read from the left.  [skip]
    counts the characters of a separator still to be passed over. *)
Fixpoint split_str_aux (sep : string) (skip : nat) (cur : string) (s : string)
  : list string :=
  match s with
  | EmptyString => [String.rev cur]
  | String c r =>
      match skip with
      | S k => split_str_aux sep k cur r
      | O =>
          if String.prefix sep s
          then String.rev cur :: split_str_aux sep (String.length sep - 1) EmptyString r
          else split_str_aux sep O (String c cur) r
      end
  end.

Definition split_str (sep s : string) : list string :=
  split_str_aux sep O EmptyString s.

(** [s.split(sep, 1)]: the part before the first [sep], and the part
    after it when [sep] occurs. *)
Definition split_once (sep s : string) : string * option string :=
  match String.index 0 sep s with
  | Some i =>
      (String.substring 0 i s,
       Some (String.substring (i + String.length sep)
               (String.length s - (i + String.length sep)) s))
  | None => (s, None)
  end.

(** The ASCII characters [str.strip()] removes. *)
Definition is_space (c : ascii) : bool :=
  let n := nat_of_ascii c in
  (Nat.leb 9 n && Nat.leb n 13) || (Nat.leb 28 n && Nat.leb n 32).

Fixpoint lstrip (s : string) : string :=
  match s with
  | EmptyString => EmptyString
  | String c r => if is_space c then lstrip r else s
  end.

(** [s.strip()] *)
Definition strip (s : string) : string :=
  String.rev (lstrip (String.rev (lstrip s))).

(** [s[:n]] *)
Definition take_str (n : nat) (s : string) : string := String.substring 0 n s.

Definition upper_ascii (c : ascii) : ascii :=
  let n := nat_of_ascii c in
  if (Nat.leb 97 n && Nat.leb n 122)%bool then ascii_of_nat (n - 32) else c.

(** [s.capitalize()] for a string of ASCII characters. *)
Definition capitalize (s : string) : string :=
  match s with
  | EmptyString => EmptyString
  | String c r => String (upper_ascii c) (lower_ascii_string r)
  end.

(** [sep.join(l)] *)
Definition join (sep : string) (l : list string) : string := String.concat sep l.

(** A character in the range [\x20-\x7E]. *)
Definition is_printable (c : ascii) : bool :=
  let n := nat_of_ascii c in Nat.leb 32 n && Nat.leb n 126.

(** [re.sub(r'[^\x20-\x7E]', '', s)] *)
Fixpoint keep_printable (s : string) : string :=
  match s with
  | EmptyString => EmptyString
  | String c r => if is_printable c then String c (keep_printable r) else keep_printable r
  end.

(** [sep not in s] for a character. *)
Fixpoint free_of (sep : ascii) (s : string) : bool :=
  match s with
  | EmptyString => true
  | String c r => negb (Ascii.eqb c sep) && free_of sep r
  end.

End PyStr.

(** ** probes.py: the Observation record *)

Record Observation := mkObservation {
  ip : string;
  port : Z;
  protocol : string;
  service : string;
  status : string;
  timestamp : Z;
  error_reason : option string;
  banner : option string;
  headers : gmap string string;
  body : option string;
  response_code : option Z
}.

(** ** fingerprint.py *)

Module Fingerprint.

(** [m.groups()] of a match object: one entry per capture group of the
    pattern, [None] for a group that did not take part in the match. *)
Definition groups := list (option string).

(** One evidence entry [(location, pattern, weight)]. *)
Definition evidence_entry := (string * string * Z)%type.

Record FingerprintRule := mkRule {
  name : string;
  type : string;
  vendor : option string;
  product : option string;
  tags : list string;
  evidence : list evidence_entry;
  last_groups : option groups
}.

(** The analysis dictionary returned by [analyze]. *)
Record Analysis := mkAnalysis {
  a_service_type : string;
  a_vendor : string;
  a_product : string;
  a_version : option string;
  a_tags : list string;
  a_confidence : Z;
  a_evidence : list string
}.

Section Evaluate.

(** [re_search regex text] stands for [re.search(regex, text,
    re.IGNORECASE)]: [None] when there is no match, [Some gs] when there
    is one and [m.groups() = gs]. *)
Variable re_search : string -> string -> option groups.

(** [py_lower s] stands for [s.lower()]. *)
Variable py_lower : string -> string.

(** The local helper [check]: an absent or empty text never matches. *)
Definition check (text : option string) (regex : string) : bool * option groups :=
  match text with
  | None => (false, None)
  | Some t =>
      if PyStr.truthy t then
        match re_search regex t with
        | Some gs => (true, Some gs)
        | None => (false, None)
        end
      else (false, None)
  end.

(** [location.split(":")[1].lower()] *)
Definition header_key (location : string) : string :=
  py_lower (nth 1 (PyStr.split ":"%char location) "").

(** The [if/elif] chain on the location of one evidence entry. *)
Definition match_location (o : Observation) (location pattern : string)
  : bool * option groups :=
  if String.eqb location "banner" then check (banner o) pattern
  else if String.eqb location "body" then check (body o) pattern
  else if PyStr.startswith location "header:" then
    check (headers o !! header_key location) pattern
  else if String.eqb location "title" then
    check (body o) ("<title>.*" +:+ pattern +:+ ".*</title>")
  else (false, None).

(** The body of the [for] loop of [evaluate], on the loop state
    [(total_score, details, self.last_groups)].  A match object is always
    true, so [if groups:] holds exactly when the entry matched. *)
Definition evaluate_step (o : Observation)
  (st : Z * list string * option groups) (e : evidence_entry)
  : Z * list string * option groups :=
  let '(total_score, details, lg) := st in
  let '(location, pattern, weight) := e in
  match match_location o location pattern with
  | (true, Some gs) =>
      (total_score + weight, details ++ ["Matched " +:+ location], Some gs)
  | (true, None) =>
      (total_score + weight, details ++ ["Matched " +:+ location], lg)
  | (false, _) => st
  end.

Definition with_last_groups (r : FingerprintRule) (lg : option groups)
  : FingerprintRule :=
  {| name := name r; type := type r; vendor := vendor r; product := product r;
     tags := tags r; evidence := evidence r; last_groups := lg |}.

(** [rule.evaluate(observation)]: the score, the details, and the rule
    object after the call (its [last_groups] may have been assigned). *)
Definition evaluate (r : FingerprintRule) (o : Observation)
  : Z * list string * FingerprintRule :=
  let '(total_score, details, lg) :=
    fold_left (evaluate_step o) (evidence r) (0, [], last_groups r) in
  (Z.min total_score 100, details, with_last_groups r lg).

(** The loop of [analyze] over [RULES], on the state
    [(best_rule, best_score, best_details)]; the second component of the
    result is the rule list after the loop (every rule has been
    evaluated once). *)
Fixpoint analyze_loop (rules : list FingerprintRule) (o : Observation)
  (best : option FingerprintRule * Z * list string)
  : (option FingerprintRule * Z * list string) * list FingerprintRule :=
  match rules with
  | [] => (best, [])
  | rule :: rest =>
      let '(score, details, rule') := evaluate rule o in
      let '(_, best_score, _) := best in
      let best' := if Z.ltb best_score score
                   then (Some rule', score, details) else best in
      let '(final, rest') := analyze_loop rest o best' in
      (final, rule' :: rest')
  end.

(** [x or "unknown"]: [None] and the empty string are both false. *)
Definition or_unknown (x : option string) : string :=
  match x with
  | Some s => if PyStr.truthy s then s else "unknown"
  | None => "unknown"
  end.

Definition unknown_result : Analysis :=
  {| a_service_type := "unknown"; a_vendor := "unknown";
     a_product := "unknown"; a_version := None; a_tags := [];
     a_confidence := 0; a_evidence := [] |}.

(** [best_rule.last_groups[0]] under the guard
    [best_rule.last_groups] (a non-empty tuple). *)
Definition version_of (lg : option groups) : option string :=
  match lg with
  | Some (g :: _) => g
  | _ => None
  end.

(** [analyze(observation_dict)] against the rule objects [rules]; returns
    the analysis and the rule objects after the call. *)
Definition analyze (rules : list FingerprintRule) (o : Observation)
  : Analysis * list FingerprintRule :=
  let '((best_rule, best_score, best_details), rules') :=
    analyze_loop rules o (None, 0, []) in
  let result :=
    match best_rule with
    | Some r =>
        if Z.ltb 0 best_score then
          {| a_service_type := type r;
             a_vendor := or_unknown (vendor r);
             a_product := or_unknown (product r);
             a_version := version_of (last_groups r);
             a_tags := tags r;
             a_confidence := best_score;
             a_evidence := best_details |}
        else unknown_result
    | None => unknown_result
    end in
  (result, rules').

(** *** The fingerprint algorithm in the words of the specification *)

(** An evidence entry matches the observation. *)
Definition matches (o : Observation) (e : evidence_entry) : bool :=
  fst (match_location o e.1.1 e.1.2).

(** The sum of the weights of all matching evidence entries. *)
Definition weight_sum (o : Observation) (ev : list evidence_entry) : Z :=
  fold_right (fun e acc => if matches o e then e.2 + acc else acc) 0 ev.

(** The total of a rule: the weight sum capped at 100. *)
Definition capped_total (o : Observation) (r : FingerprintRule) : Z :=
  Z.min (weight_sum o (evidence r)) 100.

(** The last matching evidence entry of a rule, if any. *)
Definition last_matching (o : Observation) (r : FingerprintRule)
  : option evidence_entry :=
  last (filter (fun e => matches o e = true) (evidence r)).

(** The first capture of an evidence entry on this observation: [None]
    when the entry does not match, when its pattern has no capture
    group, or when the first group took no part in the match. *)
Definition first_capture (o : Observation) (e : evidence_entry) : option string :=
  match snd (match_location o e.1.1 e.1.2) with
  | Some (g :: _) => g
  | _ => None
  end.

(** The [details] list of a rule: one line per matching entry. *)
Definition details_of (o : Observation) (ev : list evidence_entry) : list string :=
  map (fun e => "Matched " +:+ e.1.1) (filter (fun e => matches o e = true) ev).

(** The analysis that names rule [r], with the version read from the
    last matching evidence entry of [r] on this observation. *)
Definition result_of (o : Observation) (r : FingerprintRule) : Analysis :=
  {| a_service_type := type r;
     a_vendor := or_unknown (vendor r);
     a_product := or_unknown (product r);
     a_version := from_option (first_capture o) None (last_matching o r);
     a_tags := tags r;
     a_confidence := capped_total o r;
     a_evidence := details_of o (evidence r) |}.

(** Rule [r], at position [i] of [rules], has the greatest total, and
    every rule declared before it has a strictly smaller one. *)
Definition wins (o : Observation) (rules : list FingerprintRule)
  (i : nat) (r : FingerprintRule) : Prop :=
  rules !! i = Some r /\
  (forall r', In r' rules -> capped_total o r' <= capped_total o r) /\
  (forall j r', (j < i)%nat -> rules !! j = Some r' ->
                capped_total o r' < capped_total o r).

(** The value of [last_groups] after the evidence loop: the groups of
    the last matching entry, or the value before the call when nothing
    matched. *)
Definition groups_after (o : Observation) (lg0 : option groups)
  (ev : list evidence_entry) : option groups :=
  match last (filter (fun e => matches o e = true) ev) with
  | Some e => snd (match_location o e.1.1 e.1.2)
  | None => lg0
  end.

(** The rule object after [evaluate]. *)
Definition evaluated (o : Observation) (r : FingerprintRule) : FingerprintRule :=
  with_last_groups r (groups_after o (last_groups r) (evidence r)).

(** A rule as declared, whatever an earlier call left in [last_groups]. *)
Definition declared (r : FingerprintRule) : FingerprintRule :=
  with_last_groups r None.

(** The rule objects after a series of earlier [analyze] calls. *)
Definition after_calls (rules : list FingerprintRule) (earlier : list Observation)
  : list FingerprintRule :=
  fold_left (fun rs o => snd (analyze rs o)) earlier rules.

End Evaluate.

(** The module-level constructor calls: [FingerprintRule(...)] followed by
    [add_evidence] calls. *)
Definition new_rule (n t : string) (v p : option string) (tg : list string)
  (ev : list evidence_entry) : FingerprintRule :=
  {| name := n; type := t; vendor := v; product := p; tags := tg;
     evidence := ev; last_groups := None |}.

Definition r_apache := new_rule "Apache" "http" (Some "Apache") (Some "HTTP Server") []
  [("banner", "Apache", 40); ("banner", "Apache/([\d\.]+)", 60);
   ("header:server", "Apache", 30)].

Definition r_nginx := new_rule "Nginx" "http" (Some "Nginx") (Some "Nginx") []
  [("banner", "nginx", 40); ("banner", "nginx/([\d\.]+)", 60);
   ("header:server", "nginx", 30)].

Definition r_hik := new_rule "Hikvision" "camera" (Some "Hikvision") (Some "IP Camera")
  ["iot"; "surveillance"]
  [("banner", "Hikvision", 50); ("body", "<title>Hikvision</title>", 60);
   ("header:server", "Hikvision", 50); ("header:server", "App-webs", 30)].

Definition r_ssh := new_rule "OpenSSH" "ssh" (Some "OpenBSD") (Some "OpenSSH") []
  [("banner", "OpenSSH", 50); ("banner", "OpenSSH_([\w\.]+)", 50)].

Definition r_gen_http := new_rule "Generic HTTP" "http" (Some "unknown") (Some "HTTP Server") []
  [("banner", "HTTP/\d\.\d", 30); ("banner", "Server:", 20); ("body", "<html", 40)].

Definition r_gen_rtsp := new_rule "Generic RTSP" "rtsp" (Some "unknown") (Some "RTSP Server") []
  [("banner", "RTSP/\d\.\d", 50)].

Definition r_vnc := new_rule "VNC" "vnc" (Some "RealVNC") (Some "VNC Server")
  ["remote_desktop"]
  [("banner", "^RFB \d{3}\.\d{3}", 100)].

Definition r_ftp := new_rule "FTP" "ftp" (Some "unknown") (Some "FTP Server")
  ["file_transfer"]
  [("banner", "^220.*FTP", 80); ("banner", "vsftpd", 90); ("banner", "ProFTPD", 90)].

Definition r_caddy := new_rule "Caddy" "http" (Some "Caddy") (Some "Caddy Web Server") []
  [("header:server", "Caddy", 100)].

Definition r_dahua := new_rule "Dahua" "camera" (Some "Dahua") (Some "IP Camera")
  ["iot"; "surveillance"]
  [("banner", "Dahua", 60); ("header:server", "Dahua", 60); ("body", "dahua", 40)].

Definition r_ha := new_rule "Home Assistant" "iot" (Some "Home Assistant")
  (Some "Home Assistant") ["smart_home"]
  [("body", "Home Assistant", 80); ("title", "Home Assistant", 80)].

Definition RULES : list FingerprintRule :=
  [r_apache; r_nginx; r_hik; r_ssh; r_gen_http; r_gen_rtsp; r_vnc; r_ftp;
   r_caddy; r_dahua; r_ha].

(** *** A sample observation: Apache with a Server header *)

(** An observation dictionary whose banner names Apache with its
    version and whose [server] header names Apache. *)
Definition apache_observation : Observation :=
  {| ip := "10.0.0.1"; port := 80; protocol := "tcp"; service := "http";
     status := "open"; timestamp := 100; error_reason := None;
     banner := Some "Apache/2.4.41";
     headers := {["server" := "Apache"]};
     body := None; response_code := Some 200 |}.

(** What [re.search(regex, text, re.IGNORECASE)] answers for the
    patterns of [RULES] on the two texts of [apache_observation]: the
    pattern [Apache] is found in both, with no group; the pattern
    [Apache/([\d\.]+)] is found in the banner, with the group
    [2.4.41]; no other pattern of [RULES] is found in either text. *)
Definition apache_search (regex text : string) : option groups :=
  if String.eqb regex "Apache" then
    if PyStr.contains text "Apache" then Some [] else None
  else if String.eqb regex "Apache/([\d\.]+)" then
    if String.eqb text "Apache/2.4.41" then Some [Some "2.4.41"] else None
  else None.

(** Every evidence weight is positive, as in [RULES]. *)
Definition positive_weights (rules : list FingerprintRule) : bool :=
  forallb (fun r => forallb (fun e : evidence_entry => 0 <? e.2) (evidence r)) rules.

(** An observation with nothing to match against: no banner or an
    empty one, no body or an empty one, and no header with a value. *)
Definition nothing_to_match (o : Observation) : Prop :=
  PyStr.or_empty (banner o) = "" /\ PyStr.or_empty (body o) = "" /\
  forall k v, headers o !! k = Some v -> v = "".

End Fingerprint.

(** ** db_manager.py *)

Module DbManager.

(** *** Rows of the four tables *)

Record Host := mkHost {
  host_ip : string;
  host_first_seen : Z;
  host_last_seen : Z
}.

Record Service := mkService {
  svc_id : Z;
  svc_ip : string;
  svc_port : Z;
  svc_protocol : string;
  svc_state : string;
  svc_service_type : option string;
  svc_vendor : option string;
  svc_product : option string;
  svc_version : option string;
  svc_banner : option string;
  svc_confidence : option Z;
  svc_tags : list string;
  svc_first_seen : Z;
  svc_last_seen : Z
}.

Record HistoryEvent := mkHistoryEvent {
  hist_id : Z;
  hist_service_id : Z;
  hist_timestamp : Z;
  hist_banner : string;
  hist_state : string
}.

Inductive ChunkStatus := QUEUED | SCANNING | RETRYING | COMPLETED | FAILED.

Record ScanChunk := mkScanChunk {
  chunk_id : Z;
  cidr : string;
  chunk_start : string;
  chunk_end : string;
  chunk_status : ChunkStatus;
  priority : Z;
  retry_count : Z;
  last_error : option string;
  created_at : Z;
  updated_at : Z
}.

Definition ChunkStatus_eqb (a b : ChunkStatus) : bool :=
  match a, b with
  | QUEUED, QUEUED | SCANNING, SCANNING | RETRYING, RETRYING
  | COMPLETED, COMPLETED | FAILED, FAILED => true
  | _, _ => false
  end.

(** The database file: each table in rowid order, and the last id handed
    out by each AUTOINCREMENT column. *)
Record Db := mkDb {
  hosts : list Host;
  services : list Service;
  services_seq : Z;
  history : list HistoryEvent;
  history_seq : Z;
  scan_state : list ScanChunk;
  scan_state_seq : Z
}.

(** The schema right after [init_db] on a new file. *)
Definition init_db : Db :=
  {| hosts := []; services := []; services_seq := 0; history := [];
     history_seq := 0; scan_state := []; scan_state_seq := 0 |}.

(** An exception raised by a statement; the transaction is not committed
    and the file stays as it was. *)
Inductive SqlError := IntegrityError (constraint : string).

(** *** Observations as handed to the store

    The dictionary built by the worker: [Observation.to_dict()] with the
    fingerprint stored under ["analysis"]. *)
Record ObsDict := mkObsDict {
  obs :> Observation;
  analysis : option Fingerprint.Analysis
}.

(** [analysis.get(field)] with [analysis = obs.get('analysis', {})]. *)
Definition analysis_get {A} (f : Fingerprint.Analysis -> A) (o : ObsDict) : option A :=
  f <$> analysis o.

(** The key [(ip, port, protocol)] of a service. *)
Definition service_key : Type := string * Z * string.

Definition obs_key (o : ObsDict) : service_key := (ip o, port o, protocol o).
Definition svc_key (s : Service) : service_key :=
  (svc_ip s, svc_port s, svc_protocol s).

(** *** Batched storage *)

(** One row of [INSERT INTO hosts ... ON CONFLICT(ip) DO UPDATE SET
    last_seen = excluded.last_seen]. *)
Fixpoint upsert_host (hs : list Host) (ip0 : string) (ts : Z) : list Host :=
  match hs with
  | [] => [{| host_ip := ip0; host_first_seen := ts; host_last_seen := ts |}]
  | h :: rest =>
      if String.eqb (host_ip h) ip0
      then {| host_ip := host_ip h; host_first_seen := host_first_seen h;
              host_last_seen := ts |} :: rest
      else h :: upsert_host rest ip0 ts
  end.

Definition upsert_host_batch (hs : list Host) (hosts_data : list (string * Z))
  : list Host :=
  fold_left (fun acc d => upsert_host acc d.1 d.2) hosts_data hs.

(** [existing_map]: the rows of [SELECT ip, port, protocol, id, banner,
    state FROM services WHERE ip IN (...)], read in order into a dict. *)
Definition existing_map (svcs : list Service) (ips : list string)
  : gmap service_key (Z * option string * string) :=
  fold_left
    (fun m row =>
       if bool_decide (svc_ip row ∈ ips)
       then <[svc_key row := (svc_id row, svc_banner row, svc_state row)]> m
       else m)
    svcs ∅.

(** The tuples appended to [to_update], [history_inserts] and
    [to_insert]. *)
Record UpdateTuple := mkUpdateTuple {
  u_ts : Z;
  u_banner : string;
  u_service_type : option string;
  u_vendor : option string;
  u_product : option string;
  u_version : option string;
  u_confidence : option Z;
  u_tags : list string;
  u_state : string;
  u_svc_id : Z
}.

Definition HistoryTuple : Type := Z * Z * string * string.

Record InsertTuple := mkInsertTuple {
  i_ip : string;
  i_port : Z;
  i_protocol : string;
  i_state : string;
  i_banner : option string;
  i_service_type : option string;
  i_vendor : option string;
  i_product : option string;
  i_version : option string;
  i_confidence : option Z;
  i_tags : list string;
  i_ts : Z
}.

(** The history check of the update branch:
    [(new_banner and new_banner != old_banner) or (new_state != old_state)]. *)
Definition history_check (new_banner : string) (old_banner : option string)
  (new_state old_state : string) : bool :=
  (PyStr.truthy new_banner && negb (bool_decide (Some new_banner = old_banner)))
  || negb (String.eqb new_state old_state).

(** The loop over the observations of a batch, on the state
    [(to_insert, to_update, history_inserts)]. *)
Definition partition_step
  (existing : gmap service_key (Z * option string * string))
  (acc : list InsertTuple * list UpdateTuple * list HistoryTuple) (o : ObsDict)
  : list InsertTuple * list UpdateTuple * list HistoryTuple :=
  let '(to_insert, to_update, history_inserts) := acc in
  let ts := timestamp o in
  match existing !! obs_key o with
  | Some (sid, old_banner, old_state) =>
      let new_banner := PyStr.or_empty (banner o) in
      let new_state := status o in
      let upd :=
        {| u_ts := ts; u_banner := new_banner;
           u_service_type := analysis_get Fingerprint.a_service_type o;
           u_vendor := analysis_get Fingerprint.a_vendor o;
           u_product := analysis_get Fingerprint.a_product o;
           u_version := analysis o ≫= Fingerprint.a_version;
           u_confidence := analysis_get Fingerprint.a_confidence o;
           u_tags := default [] (analysis_get Fingerprint.a_tags o);
           u_state := new_state; u_svc_id := sid |} in
      (to_insert, to_update ++ [upd],
       if history_check new_banner old_banner new_state old_state
       then history_inserts ++ [(sid, ts, new_banner, new_state)]
       else history_inserts)
  | None =>
      let ins :=
        {| i_ip := ip o; i_port := port o; i_protocol := protocol o;
           i_state := status o; i_banner := banner o;
           i_service_type := analysis_get Fingerprint.a_service_type o;
           i_vendor := analysis_get Fingerprint.a_vendor o;
           i_product := analysis_get Fingerprint.a_product o;
           i_version := analysis o ≫= Fingerprint.a_version;
           i_confidence := Some (default 0 (analysis_get Fingerprint.a_confidence o));
           i_tags := default [] (analysis_get Fingerprint.a_tags o);
           i_ts := ts |} in
      (to_insert ++ [ins], to_update, history_inserts)
  end.

(** One row of the bulk [INSERT INTO services]: refused by
    [UNIQUE(ip, port, protocol)] when a row with the key is there. *)
Definition insert_service (st : list Service * Z) (t : InsertTuple)
  : option (list Service * Z) :=
  let '(svcs, seq) := st in
  if existsb (fun s => bool_decide (svc_key s = (i_ip t, i_port t, i_protocol t))) svcs
  then None
  else
    Some (svcs ++
          [{| svc_id := seq + 1; svc_ip := i_ip t; svc_port := i_port t;
              svc_protocol := i_protocol t; svc_state := i_state t;
              svc_service_type := i_service_type t; svc_vendor := i_vendor t;
              svc_product := i_product t; svc_version := i_version t;
              svc_banner := i_banner t; svc_confidence := i_confidence t;
              svc_tags := i_tags t; svc_first_seen := i_ts t;
              svc_last_seen := i_ts t |}],
          seq + 1).

Fixpoint insert_services (st : list Service * Z) (ts : list InsertTuple)
  : option (list Service * Z) :=
  match ts with
  | [] => Some st
  | t :: rest =>
      match insert_service st t with
      | Some st' => insert_services st' rest
      | None => None
      end
  end.

(** [COALESCE(?, column)] *)
Definition coalesce {A} (new old : option A) : option A :=
  match new with Some _ => new | None => old end.

(** One row of the bulk [UPDATE services ... WHERE id = ?]. *)
Definition update_service (u : UpdateTuple) (s : Service) : Service :=
  if Z.eqb (svc_id s) (u_svc_id u) then
    {| svc_id := svc_id s; svc_ip := svc_ip s; svc_port := svc_port s;
       svc_protocol := svc_protocol s; svc_state := u_state u;
       svc_service_type := coalesce (u_service_type u) (svc_service_type s);
       svc_vendor := coalesce (u_vendor u) (svc_vendor s);
       svc_product := coalesce (u_product u) (svc_product s);
       svc_version := coalesce (u_version u) (svc_version s);
       svc_banner := Some (u_banner u);
       svc_confidence := coalesce (u_confidence u) (svc_confidence s);
       svc_tags := u_tags u;
       svc_first_seen := svc_first_seen s; svc_last_seen := u_ts u |}
  else s.

Definition update_services (svcs : list Service) (us : list UpdateTuple)
  : list Service :=
  fold_left (fun acc u => map (update_service u) acc) us svcs.

(** The bulk [INSERT INTO history]. *)
Definition insert_history (st : list HistoryEvent * Z) (t : HistoryTuple)
  : list HistoryEvent * Z :=
  let '(hs, seq) := st in
  let '(sid, ts, b, s) := t in
  (hs ++ [{| hist_id := seq + 1; hist_service_id := sid; hist_timestamp := ts;
             hist_banner := b; hist_state := s |}], seq + 1).

(** The three lists computed by the loop of [save_observation_batch]. *)
Definition partition_batch (db : Db) (observations : list ObsDict)
  : list InsertTuple * list UpdateTuple * list HistoryTuple :=
  let existing := existing_map (services db) (map (fun o => ip (obs o)) observations) in
  fold_left (partition_step existing) observations ([], [], []).

(** [save_observation_batch(observations)]: [inl db'] when the batch is
    committed, [inr e] when a statement raises [e] (nothing is
    committed, and the exception leaves the function). *)
Definition save_observation_batch (observations : list ObsDict) (db : Db)
  : Db + SqlError :=
  match observations with
  | [] => inl db
  | _ =>
      let hosts' :=
        upsert_host_batch (hosts db)
          (map (fun o => (ip (obs o), timestamp (obs o))) observations) in
      let '(to_insert, to_update, history_inserts) :=
        partition_batch db observations in
      match insert_services (services db, services_seq db) to_insert with
      | None => inr (IntegrityError "services.ip, services.port, services.protocol")
      | Some (svcs1, sseq) =>
          let svcs2 := update_services svcs1 to_update in
          let '(hist, hseq) :=
            fold_left insert_history history_inserts (history db, history_seq db) in
          inl {| hosts := hosts'; services := svcs2; services_seq := sseq;
                 history := hist; history_seq := hseq;
                 scan_state := scan_state db;
                 scan_state_seq := scan_state_seq db |}
      end
  end.

(** The file after a call, whether it committed or raised. *)
Definition db_after (r : Db + SqlError) (before : Db) : Db :=
  match r with inl db' => db' | inr _ => before end.

(** *** Scheduler operations on [scan_state] *)

Definition set_scan_state (db : Db) (chunks : list ScanChunk) (seq : Z) : Db :=
  {| hosts := hosts db; services := services db;
     services_seq := services_seq db; history := history db;
     history_seq := history_seq db; scan_state := chunks;
     scan_state_seq := seq |}.

(** [create_scan_chunk(cidr, start_ip, end_ip, priority)]; [now] is the
    reading of [datetime.now()]. *)
Definition create_scan_chunk (cidr0 start_ip end_ip : string) (priority0 : Z)
  (now : Z) (db : Db) : Db :=
  set_scan_state db
    (scan_state db ++
     [{| chunk_id := scan_state_seq db + 1; cidr := cidr0;
         chunk_start := start_ip; chunk_end := end_ip;
         chunk_status := QUEUED; priority := priority0; retry_count := 0;
         last_error := None; created_at := now; updated_at := now |}])
    (scan_state_seq db + 1).

(** [status IN ('QUEUED', 'RETRYING')] *)
Definition eligible (c : ScanChunk) : bool :=
  match chunk_status c with
  | QUEUED | RETRYING => true
  | _ => false
  end.

(** [a] sorts strictly before [b] under
    [ORDER BY priority DESC, created_at ASC]. *)
Definition sorts_before (a b : ScanChunk) : bool :=
  (priority b <? priority a)
  || ((priority a =? priority b) && (created_at a <? created_at b)).

(** [b] is at least as early as [c] under the order of the queue. *)
Definition not_after (b c : ScanChunk) : Prop :=
  priority c <= priority b /\
  (priority c = priority b -> created_at b <= created_at c).

(** The first row under that order; rows equal in both columns keep
    their rowid order. *)
Fixpoint first_in_order (best : ScanChunk) (l : list ScanChunk) : ScanChunk :=
  match l with
  | [] => best
  | c :: rest => first_in_order (if sorts_before c best then c else best) rest
  end.

(** The row the query of [get_next_chunk] selects. *)
Definition next_row (db : Db) : option ScanChunk :=
  match List.filter eligible (scan_state db) with
  | [] => None
  | c :: rest => Some (first_in_order c rest)
  end.

(** [get_next_chunk()]: [(id, chunk_start, chunk_end, retry_count)] of
    the selected row, or [None]. *)
Definition get_next_chunk (db : Db) : option (Z * string * string * Z) :=
  (fun c => (chunk_id c, chunk_start c, chunk_end c, retry_count c))
    <$> next_row db.

(** [if error:] an error is given and is not the empty string. *)
Definition error_given (error : option string) : bool :=
  match error with Some e => PyStr.truthy e | None => false end.

Definition set_status (c : ScanChunk) (st : ChunkStatus) (now : Z) : ScanChunk :=
  {| chunk_id := chunk_id c; cidr := cidr c; chunk_start := chunk_start c;
     chunk_end := chunk_end c; chunk_status := st; priority := priority c;
     retry_count := retry_count c; last_error := last_error c;
     created_at := created_at c; updated_at := now |}.

Definition set_status_error (c : ScanChunk) (st : ChunkStatus)
  (error : option string) (now : Z) : ScanChunk :=
  {| chunk_id := chunk_id c; cidr := cidr c; chunk_start := chunk_start c;
     chunk_end := chunk_end c; chunk_status := st; priority := priority c;
     retry_count := retry_count c + 1; last_error := error;
     created_at := created_at c; updated_at := now |}.

(** [update_chunk_status(chunk_id, status, error=None)] *)
Definition update_chunk_status (id : Z) (st : ChunkStatus)
  (error : option string) (now : Z) (db : Db) : Db :=
  set_scan_state db
    (map (fun c =>
            if Z.eqb (chunk_id c) id then
              if error_given error then set_status_error c st error now
              else set_status c st now
            else c)
         (scan_state db))
    (scan_state_seq db).

(** *** Maintenance *)

Definition hours (h : Z) : Z := 3600 * h.

(** Stable insertion by [updated_at], for [ORDER BY updated_at ASC]. *)
Fixpoint insert_by_updated_at (c : ScanChunk) (l : list ScanChunk) : list ScanChunk :=
  match l with
  | [] => [c]
  | d :: rest =>
      if updated_at c <? updated_at d then c :: l
      else d :: insert_by_updated_at c rest
  end.

Definition sort_by_updated_at (l : list ScanChunk) : list ScanChunk :=
  fold_left (fun acc c => insert_by_updated_at c acc) l [].

(** [get_stale_chunks(limit, high_priority, min_age_hours)]: rows
    [(id, cidr, priority, created_at)]. *)
Definition get_stale_chunks (limit : Z) (high_priority : bool)
  (min_age_hours : Z) (now : Z) (db : Db) : list (Z * string * Z * Z) :=
  let cutoff := now - hours min_age_hours in
  let sel :=
    List.filter
      (fun c =>
         ChunkStatus_eqb (chunk_status c) COMPLETED
         && (updated_at c <? cutoff)
         && (if high_priority then 5 <=? priority c else priority c <? 5))
      (scan_state db) in
  map (fun c => (chunk_id c, cidr c, priority c, created_at c))
      (take (Z.to_nat limit) (sort_by_updated_at sel)).

(** [reset_stale_chunk(chunk_id)] *)
Definition reset_stale_chunk (id : Z) (now : Z) (db : Db) : Db :=
  set_scan_state db
    (map (fun c =>
            if Z.eqb (chunk_id c) id then
              {| chunk_id := chunk_id c; cidr := cidr c;
                 chunk_start := chunk_start c; chunk_end := chunk_end c;
                 chunk_status := QUEUED; priority := priority c;
                 retry_count := 0; last_error := last_error c;
                 created_at := created_at c; updated_at := now |}
            else c)
         (scan_state db))
    (scan_state_seq db).

(** [promote_ignored_chunks(age_hours)] *)
Definition promote_ignored_chunks (age_hours : Z) (now : Z) (db : Db) : Db :=
  let cutoff := now - hours age_hours in
  set_scan_state db
    (map (fun c =>
            if ChunkStatus_eqb (chunk_status c) QUEUED
               && (created_at c <? cutoff) && (priority c <? 10)
            then
              {| chunk_id := chunk_id c; cidr := cidr c;
                 chunk_start := chunk_start c; chunk_end := chunk_end c;
                 chunk_status := chunk_status c; priority := priority c + 1;
                 retry_count := retry_count c; last_error := last_error c;
                 created_at := created_at c; updated_at := now |}
            else c)
         (scan_state db))
    (scan_state_seq db).

(** *** History on change, in the words of the specification *)

(** The new banner is non-empty. *)
Definition banner_nonempty (b : option string) : bool :=
  match b with Some s => PyStr.truthy s | None => false end.

(** Relative to the stored [(old_banner, old_state)], the new state
    differs, or the new banner is non-empty and differs. *)
Definition change_observed (o : ObsDict) (old_banner : option string)
  (old_state : string) : bool :=
  negb (bool_decide (status o = old_state))
  || (banner_nonempty (banner o)
      && negb (bool_decide (Some (PyStr.or_empty (banner o)) = old_banner))).

(** The history tuples a batch owes: one for each observation whose key
    has a Service row before the batch and that shows a change. *)
Definition history_due (db : Db) (observations : list ObsDict) : list HistoryTuple :=
  let existing := existing_map (services db) (map (fun o => ip (obs o)) observations) in
  flat_map
    (fun o : ObsDict =>
       match existing !! obs_key o with
       | Some (sid, old_banner, old_state) =>
           if change_observed o old_banner old_state
           then [(sid, timestamp o, PyStr.or_empty (banner o), status o)]
           else []
       | None => []
       end)
    observations.

Definition history_tuple (h : HistoryEvent) : HistoryTuple :=
  (hist_service_id h, hist_timestamp h, hist_banner h, hist_state h).

(** Two adjacent observations of one service differ: the status
    differs, or the later banner is non-empty and differs. *)
Definition adjacent_change (prev next : ObsDict) : bool :=
  negb (bool_decide (status next = status prev))
  || (banner_nonempty (banner next)
      && negb (bool_decide (banner next = banner prev))).

Fixpoint count_adjacent_changes (l : list ObsDict) : nat :=
  match l with
  | prev :: (next :: _) as rest =>
      ((if adjacent_change prev next then 1 else 0) + count_adjacent_changes rest)%nat
  | _ => 0%nat
  end.

(** A sequence of single-observation batches, each saved in turn; the
    first exception ends the sequence. *)
Fixpoint save_each (l : list ObsDict) (db : Db) : Db + SqlError :=
  match l with
  | [] => inl db
  | o :: rest =>
      match save_observation_batch [o] db with
      | inl db' => save_each rest db'
      | inr e => inr e
      end
  end.

(** The Service rows with a given key. *)
Definition rows_with_key (k : service_key) (svcs : list Service) : list Service :=
  filter (fun s => svc_key s = k) svcs.

(** *** Statistics and retention *)

(** [get_stats()]: hosts, services, and chunks whose status is not
    COMPLETED. *)
Definition get_stats (db : Db) : Z * Z * Z :=
  (Z.of_nat (length (hosts db)), Z.of_nat (length (services db)),
   Z.of_nat (length (List.filter
                       (fun c => negb (ChunkStatus_eqb (chunk_status c) COMPLETED))
                       (scan_state db)))).

Definition days (d : Z) : Z := 86400 * d.

(** [prune_old_data(history_days, service_days)] *)
Definition prune_old_data (history_days service_days : Z) (now : Z) (db : Db) : Db :=
  let cutoff_history := now - days history_days in
  let cutoff_service := now - days service_days in
  {| hosts := hosts db;
     services :=
       List.filter (fun s => negb (svc_last_seen s <? cutoff_service)) (services db);
     services_seq := services_seq db;
     history :=
       List.filter (fun h => negb (hist_timestamp h <? cutoff_history)) (history db);
     history_seq := history_seq db;
     scan_state := scan_state db;
     scan_state_seq := scan_state_seq db |}.

(** Every history event refers to a Service row that was seen at the
    time of the event or later. *)
Definition history_backed (db : Db) : Prop :=
  forall h, In h (history db) ->
    exists s, In s (services db) /\ svc_id s = hist_service_id h /\
              hist_timestamp h <= svc_last_seen s.

(** The last observation of a sequence. *)
Definition last_obs (first : ObsDict) (rest : list ObsDict) : ObsDict :=
  List.last rest first.

(** The banner column after a sequence of observations of one key: the
    banner as given when the row was only inserted, the banner with
    [None] read as the empty string once the row was updated. *)
Definition stored_banner (first : ObsDict) (rest : list ObsDict) : option string :=
  match rest with
  | [] => banner first
  | _ => Some (PyStr.or_empty (banner (last_obs first rest)))
  end.

(** *** The maintenance statements, row by row *)

(** The [WHERE] clause of [get_stale_chunks]. *)
Definition stale_chunk (high_priority : bool) (cutoff : Z) (c : ScanChunk) : bool :=
  ChunkStatus_eqb (chunk_status c) COMPLETED
  && (updated_at c <? cutoff)
  && (if high_priority then 5 <=? priority c else priority c <? 5).

(** The row the [UPDATE] of [reset_stale_chunk] leaves. *)
Definition requeue (now : Z) (c : ScanChunk) : ScanChunk :=
  {| chunk_id := chunk_id c; cidr := cidr c;
     chunk_start := chunk_start c; chunk_end := chunk_end c;
     chunk_status := QUEUED; priority := priority c;
     retry_count := 0; last_error := last_error c;
     created_at := created_at c; updated_at := now |}.

(** The [WHERE] clause of [promote_ignored_chunks]. *)
Definition starved (cutoff : Z) (c : ScanChunk) : bool :=
  ChunkStatus_eqb (chunk_status c) QUEUED
  && (created_at c <? cutoff) && (priority c <? 10).

(** The columns [(id, cidr, priority, created_at)] of a chunk. *)
Definition stale_row (c : ScanChunk) : Z * string * Z * Z :=
  (chunk_id c, cidr c, priority c, created_at c).

(** Ascending [updated_at]. *)
Definition older_or_same (a b : ScanChunk) : Prop := updated_at a <= updated_at b.

(** *** The batch, tuple by tuple *)

(** The tuple the loop of [save_observation_batch] appends to
    [to_insert] for an observation of a new key. *)
Definition insert_tuple (o : ObsDict) : InsertTuple :=
  {| i_ip := ip o; i_port := port o; i_protocol := protocol o;
     i_state := status o; i_banner := banner o;
     i_service_type := analysis_get Fingerprint.a_service_type o;
     i_vendor := analysis_get Fingerprint.a_vendor o;
     i_product := analysis_get Fingerprint.a_product o;
     i_version := analysis o ≫= Fingerprint.a_version;
     i_confidence := Some (default 0 (analysis_get Fingerprint.a_confidence o));
     i_tags := default [] (analysis_get Fingerprint.a_tags o);
     i_ts := timestamp o |}.

(** The tuple it appends to [to_update] for an observation of the key
    of the row [sid]. *)
Definition update_tuple (sid : Z) (o : ObsDict) : UpdateTuple :=
  {| u_ts := timestamp o; u_banner := PyStr.or_empty (banner o);
     u_service_type := analysis_get Fingerprint.a_service_type o;
     u_vendor := analysis_get Fingerprint.a_vendor o;
     u_product := analysis_get Fingerprint.a_product o;
     u_version := analysis o ≫= Fingerprint.a_version;
     u_confidence := analysis_get Fingerprint.a_confidence o;
     u_tags := default [] (analysis_get Fingerprint.a_tags o);
     u_state := status o; u_svc_id := sid |}.

Definition insert_key (t : InsertTuple) : service_key :=
  (i_ip t, i_port t, i_protocol t).

(** The services table as the schema keeps it: no two rows with the
    same (ip, port, protocol), and ids that are unique and were handed
    out by the AUTOINCREMENT counter. *)
Definition store_ok (db : Db) : Prop :=
  NoDup (map svc_key (services db)) /\
  NoDup (map svc_id (services db)) /\
  Forall (fun s => svc_id s <= services_seq db) (services db).

(** [to_insert] and [to_update] after the loop. *)
Definition batch_inserts (existing : gmap service_key (Z * option string * string))
  (l : list ObsDict) : list InsertTuple :=
  flat_map
    (fun o : ObsDict =>
       match existing !! obs_key o with
       | None => [insert_tuple o]
       | Some _ => []
       end) l.

Definition batch_updates (existing : gmap service_key (Z * option string * string))
  (l : list ObsDict) : list UpdateTuple :=
  flat_map
    (fun o : ObsDict =>
       match existing !! obs_key o with
       | Some (sid, _, _) => [update_tuple sid o]
       | None => []
       end) l.

(** The row the bulk insert writes for a tuple, as far as key, state
    and times go. *)
Definition inserted_as (t : InsertTuple) (r : Service) : Prop :=
  svc_key r = insert_key t /\ svc_state r = i_state t /\
  svc_first_seen r = i_ts t /\ svc_last_seen r = i_ts t.

(** All the updates of a batch, applied to one row. *)
Definition updated_row (us : list UpdateTuple) (r : Service) : Service :=
  fold_left (fun r u => update_service u r) us r.

(** *** History on change, update by update

    The events the specification asks of the updates of a batch, taken
    in order: an observation of a key that has a row is compared with
    that row as the updates before it left it (the pre-update row), and
    its update is applied before the next observation is looked at.  An
    observation of a key without a row is no update and asks for no
    event. *)
Fixpoint history_by_update (svcs : list Service) (l : list ObsDict)
  : list HistoryTuple :=
  match l with
  | [] => []
  | o :: rest =>
      match last (rows_with_key (obs_key o) svcs) with
      | Some r =>
          (if change_observed o (svc_banner r) (svc_state r)
           then [(svc_id r, timestamp o, PyStr.or_empty (banner o), status o)]
           else [])
          ++ history_by_update
               (map (update_service (update_tuple (svc_id r) o)) svcs) rest
      | None => history_by_update svcs rest
      end
  end.

(** The event an observation asks for against the row of its key in
    the table [svcs]. *)
Definition event_against (svcs : list Service) (o : ObsDict)
  : list HistoryTuple :=
  match last (rows_with_key (obs_key o) svcs) with
  | Some r =>
      if change_observed o (svc_banner r) (svc_state r)
      then [(svc_id r, timestamp o, PyStr.or_empty (banner o), status o)]
      else []
  | None => []
  end.

(** *** Sample observations *)

(** An observation of 1.2.3.4:22/tcp with the given status and banner,
    as a worker hands it to the store (no analysis attached). *)
Definition ssh_observation (st : string) (b : option string) (ts : Z) : ObsDict :=
  {| obs := {| ip := "1.2.3.4"; port := 22; protocol := "tcp"; service := "ssh";
               status := st; timestamp := ts; error_reason := None;
               banner := b; headers := ∅; body := None;
               response_code := None |};
     analysis := None |}.

End DbManager.

(** ** scheduler.py *)

Module Scheduler.

Import DbManager.

Definition CHUNK_SIZE : Z := 256.
Definition MAX_RETRIES : Z := 3.

(** *** The IPv4 networks of [ipaddress]

    An [IPv4Network] as [ip_network(target, strict=False)] returns it:
    the network address (host bits cleared) as a 32-bit number, and the
    prefix length. *)
Record IPv4Network := mkIPv4Network {
  network_address : Z;
  prefixlen : Z
}.

(** [network.num_addresses] *)
Definition num_addresses (n : IPv4Network) : Z := 2 ^ (32 - prefixlen n).

(** [network[0]] and [network[-1]] *)
Definition first_address (n : IPv4Network) : Z := network_address n.
Definition last_address (n : IPv4Network) : Z :=
  network_address n + num_addresses n - 1.

(** [str(n)] for a non-negative integer. *)
Definition dec (n : Z) : string := NilZero.string_of_uint (N.to_uint (Z.to_N n)).

(** [str(address)]: the dotted quad. *)
Definition ip_str (a : Z) : string :=
  dec (a / 16777216 mod 256) +:+ "." +:+ dec (a / 65536 mod 256) +:+ "."
  +:+ dec (a / 256 mod 256) +:+ "." +:+ dec (a mod 256).

(** [str(network)] *)
Definition network_str (n : IPv4Network) : string :=
  ip_str (network_address n) +:+ "/" +:+ dec (prefixlen n).

(** [network.subnets(new_prefix=24)] for a prefix shorter than 24, in
    address order. *)
Definition subnets24 (n : IPv4Network) : list IPv4Network :=
  map (fun i => {| network_address := network_address n + 256 * Z.of_nat i;
                   prefixlen := 24 |})
      (seq 0 (Z.to_nat (2 ^ (24 - prefixlen n)))).

(** *** The state of the scheduler process: the module global
    [last_maintenance_ts] and the database file. *)
Record State := mkState {
  last_maintenance_ts : Z;
  db : Db
}.

Definition set_db (st : State) (d : Db) : State :=
  {| last_maintenance_ts := last_maintenance_ts st; db := d |}.

(** The process at start-up, on a new database. *)
Definition initial : State := {| last_maintenance_ts := 0; db := init_db |}.

Section Initialize.

(** [ip_network target] stands for
    [ipaddress.ip_network(target, strict=False)] on IPv4 input: [None]
    when it raises [ValueError]. *)
Variable ip_network : string -> option IPv4Network.

(** [initialize_scan(target_cidr, priority)] *)
Definition initialize_scan (target_cidr : string) (priority0 : Z) (now : Z)
  (st : State) : State :=
  match ip_network target_cidr with
  | None => st
  | Some network =>
      if num_addresses network <=? CHUNK_SIZE then
        set_db st
          (create_scan_chunk (network_str network)
             (ip_str (first_address network)) (ip_str (last_address network))
             priority0 now (db st))
      else if prefixlen network <? 24 then
        set_db st
          (fold_left
             (fun d subnet =>
                create_scan_chunk target_cidr
                  (ip_str (first_address subnet)) (ip_str (last_address subnet))
                  priority0 now d)
             (subnets24 network) (db st))
      else
        set_db st
          (create_scan_chunk (network_str network)
             (ip_str (first_address network)) (ip_str (last_address network))
             priority0 now (db st))
  end.

End Initialize.

(** *** A parser for the plain forms

    [plain_ip_network] reads ["a.b.c.d"] and ["a.b.c.d/p"] as
    [ip_network(_, strict=False)] does, and answers [None] on anything
    else; it is used to run the scheduler on concrete targets. *)

Definition digit (c : ascii) : option Z :=
  let n := Z.of_nat (nat_of_ascii c) in
  if (48 <=? n) && (n <=? 57) then Some (n - 48) else None.

Fixpoint parse_dec_aux (acc : Z) (s : string) : option Z :=
  match s with
  | EmptyString => Some acc
  | String c r =>
      match digit c with
      | Some d => parse_dec_aux (10 * acc + d) r
      | None => None
      end
  end.

Definition parse_dec (s : string) : option Z :=
  match s with
  | EmptyString => None
  | _ => parse_dec_aux 0 s
  end.

Definition parse_octet (s : string) : option Z :=
  match parse_dec s with
  | Some n => if n <=? 255 then Some n else None
  | None => None
  end.

Definition parse_ipv4 (s : string) : option Z :=
  match PyStr.split "."%char s with
  | [a; b; c; d] =>
      match parse_octet a, parse_octet b, parse_octet c, parse_octet d with
      | Some a', Some b', Some c', Some d' =>
          Some (16777216 * a' + 65536 * b' + 256 * c' + d')
      | _, _, _, _ => None
      end
  | _ => None
  end.

Definition plain_ip_network (s : string) : option IPv4Network :=
  match PyStr.split "/"%char s with
  | [a] =>
      match parse_ipv4 a with
      | Some addr => Some {| network_address := addr; prefixlen := 32 |}
      | None => None
      end
  | [a; p] =>
      match parse_ipv4 a, parse_dec p with
      | Some addr, Some p' =>
          if p' <=? 32
          then Some {| network_address := addr - addr mod 2 ^ (32 - p');
                       prefixlen := p' |}
          else None
      | _, _ => None
      end
  | _ => None
  end.

(** *** Maintenance *)

(** The loops [for row in stale: reset_stale_chunk(row[0])]. *)
Definition reset_all (rows : list (Z * string * Z * Z)) (now : Z) (d : Db) : Db :=
  fold_left (fun acc row => reset_stale_chunk row.1.1.1 now acc) rows d.

(** [maintain_queue_health()] *)
Definition maintain_queue_health (now : Z) (st : State) : State :=
  if now - last_maintenance_ts st <? 3600 then st
  else
    let d1 := promote_ignored_chunks 48 now (db st) in
    let d2 := reset_all (get_stale_chunks 50 true 24 now d1) now d1 in
    let d3 := reset_all (get_stale_chunks 50 false 168 now d2) now d2 in
    {| last_maintenance_ts := now; db := d3 |}.

(** *** The chunk lifecycle *)

(** What a call of [get_next_chunk] leaves behind: the value returned,
    the ids named by its "exceeded max retries" warnings in order, and
    the state after the call. *)
Record NextResult := mkNextResult {
  returned : option (Z * string * string);
  warned : list Z;
  after : State
}.

(** [get_next_chunk()]; [fuel] bounds the depth of the recursion,
    [None] stands for a recursion deeper than [fuel]. *)
Fixpoint get_next_chunk (fuel : nat) (now : Z) (st : State) : option NextResult :=
  match fuel with
  | O => None
  | S fuel' =>
      let st1 := maintain_queue_health now st in
      match DbManager.get_next_chunk (db st1) with
      | Some (chunk_id, start_ip, end_ip, retries) =>
          if MAX_RETRIES <=? retries then
            let st2 :=
              set_db st1
                (update_chunk_status chunk_id FAILED
                   (Some "Max Retries Exceeded") now (db st1)) in
            match get_next_chunk fuel' now st2 with
            | Some r =>
                Some {| returned := returned r;
                        warned := chunk_id :: warned r;
                        after := after r |}
            | None => None
            end
          else
            Some {| returned := Some (chunk_id, start_ip, end_ip);
                    warned := [];
                    after :=
                      set_db st1
                        (update_chunk_status chunk_id SCANNING None now (db st1)) |}
      | None => Some {| returned := None; warned := []; after := st1 |}
      end
  end.

(** Enough fuel for any state: one call more than there are chunks. *)
Definition enough_fuel (st : State) : nat := S (length (scan_state (db st))).

(** [complete_chunk(chunk_id)] *)
Definition complete_chunk (chunk_id : Z) (now : Z) (st : State) : State :=
  set_db st (update_chunk_status chunk_id COMPLETED None now (db st)).

(** [fail_chunk(chunk_id, error)] *)
Definition fail_chunk (chunk_id : Z) (error : string) (now : Z) (st : State)
  : State :=
  set_db st (update_chunk_status chunk_id RETRYING (Some error) now (db st)).

(** A chunk as [create_scan_chunk] writes it. *)
Definition fresh_chunk (priority0 : Z) (c : ScanChunk) : Prop :=
  chunk_status c = QUEUED /\ priority c = priority0 /\ retry_count c = 0.

(** The number of chunks the specification asks for. *)
Definition expected_chunks (p : Z) : nat :=
  if p <=? 24 then Z.to_nat (Z.max 1 (2 ^ (24 - p))) else 1%nat.

(** *** Maintenance, row by row *)

(** The columns no maintenance step writes. *)
Definition same_chunk (c c' : ScanChunk) : Prop :=
  chunk_id c' = chunk_id c /\ cidr c' = cidr c /\
  chunk_start c' = chunk_start c /\ chunk_end c' = chunk_end c /\
  created_at c' = created_at c /\ last_error c' = last_error c.

(** A row after one step of [reset_stale_chunk]: as before, or QUEUED
    again with no retries. *)
Definition requeued (c c' : ScanChunk) : Prop :=
  same_chunk c c' /\ priority c' = priority c /\
  (c' = c \/ (chunk_status c' = QUEUED /\ retry_count c' = 0)).

(** A row after [maintain_queue_health]: its priority went up by at
    most one and not beyond 10 (unless it was above), and it kept its
    status and retries or is QUEUED again with no retries. *)
Definition maintained (c c' : ScanChunk) : Prop :=
  same_chunk c c' /\
  priority c <= priority c' <= priority c + 1 /\
  priority c' <= Z.max (priority c) 10 /\
  ((chunk_status c' = chunk_status c /\ retry_count c' = retry_count c) \/
   (chunk_status c' = QUEUED /\ retry_count c' = 0)).

(** *** The retry limit, as properties of the chunk table *)

(** A chunk the queue can still hand out although its retries are used
    up. *)
Definition exhausted (c : ScanChunk) : bool :=
  eligible c && (MAX_RETRIES <=? retry_count c).

Definition count_exhausted (l : list ScanChunk) : nat :=
  length (List.filter exhausted l).

(** The retry limit on one chunk: a chunk handed out for scanning has
    retries left, and a chunk that is not FAILED has at most
    [MAX_RETRIES] behind it. *)
Definition chunk_ok (c : ScanChunk) : Prop :=
  (chunk_status c = SCANNING -> retry_count c < MAX_RETRIES) /\
  (chunk_status c <> FAILED -> retry_count c <= MAX_RETRIES).

(** A chunk table as the database keeps it: ids are unique and were
    handed out by the AUTOINCREMENT counter, and every chunk respects the
    retry limit. *)
Definition well_formed (d : Db) : Prop :=
  NoDup (map chunk_id (scan_state d)) /\
  Forall (fun c => chunk_id c <= scan_state_seq d) (scan_state d) /\
  Forall chunk_ok (scan_state d).

(** Maintenance has run within the hour before [now]. *)
Definition settled (now : Z) (st : State) : Prop :=
  (now - last_maintenance_ts st <? 3600) = true.

(** The rows of a chunk id. *)
Definition rows_of (id : Z) (l : list ScanChunk) : list ScanChunk :=
  List.filter (fun c => Z.eqb (chunk_id c) id) l.

(** What a call that returns has done. *)
Definition next_chunk_post (r : NextResult) : Prop :=
  (forall id s e, returned r = Some (id, s, e) ->
     exists c, In c (scan_state (db (after r))) /\
       chunk_id c = id /\ chunk_start c = s /\ chunk_end c = e /\
       chunk_status c = SCANNING /\ retry_count c < MAX_RETRIES) /\
  (forall id, In id (warned r) ->
     (forall c, In c (scan_state (db (after r))) -> chunk_id c = id ->
        chunk_status c = FAILED) /\
     (exists c, In c (scan_state (db (after r))) /\ chunk_id c = id /\
        MAX_RETRIES < retry_count c)) /\
  (returned r = None ->
     forall c, In c (scan_state (db (after r))) -> eligible c = false).

(** What a call leaves of a row [c] of the table it read the queue
    from: the row FAILED, with one more retry and the error recorded,
    when the call warned about its id; the row SCANNING when its id is
    the one returned; the row as it was otherwise. *)
Definition row_after (now : Z) (r : NextResult) (c : ScanChunk) : ScanChunk :=
  if existsb (Z.eqb (chunk_id c)) (warned r) then
    set_status_error c FAILED (Some "Max Retries Exceeded") now
  else
    match returned r with
    | Some (id, _, _) =>
        if chunk_id c =? id then set_status c SCANNING now else c
    | None => c
    end.

(** The rows of [id] are all in the given status. *)
Definition all_rows_in (st0 : ChunkStatus) (id : Z) (d : Db) : Prop :=
  forall c, In c (scan_state d) -> chunk_id c = id -> chunk_status c = st0.

End Scheduler.

(** ** scanner.py: the main loop, as far as it drives the scheduler *)

Module Engine.

Import DbManager Scheduler.

(** How [scan_chunk] ends: it returns (after [complete_chunk]), it
    raises an exception with message [msg], or the process is
    interrupted while the chunk is being scanned and started again
    later (the module global is then back at 0, the file is kept). *)
Inductive ScanOutcome :=
| ScanReturns
| ScanRaises (msg : string)
| ScanInterrupted.

(** One iteration of [while True] in [main]: [now] is the clock when
    the next chunk is asked for, [later] when the chunk is completed or
    failed. *)
Definition iteration (now : Z) (outcome : ScanOutcome) (later : Z) (st : State)
  : State :=
  match get_next_chunk (enough_fuel st) now st with
  | None => st
  | Some r =>
      match returned r with
      | None => after r
      | Some (chunk_id, start_ip, end_ip) =>
          if negb (PyStr.truthy start_ip) || negb (PyStr.truthy end_ip)
          then fail_chunk chunk_id "Invalid Range" later (after r)
          else
            match outcome with
            | ScanReturns => complete_chunk chunk_id later (after r)
            | ScanRaises msg => fail_chunk chunk_id msg later (after r)
            | ScanInterrupted =>
                {| last_maintenance_ts := 0; db := db (after r) |}
            end
      end
  end.

(** What the engine does to the scheduler state, in order. *)
Inductive Event :=
| Initialize (target_cidr : string) (priority0 : Z) (now : Z)
| Iterate (now : Z) (outcome : ScanOutcome) (later : Z).

Definition step (ip_network : string -> option IPv4Network)
  (st : State) (e : Event) : State :=
  match e with
  | Initialize target p now => initialize_scan ip_network target p now st
  | Iterate now outcome later => iteration now outcome later st
  end.

Definition run (ip_network : string -> option IPv4Network)
  (events : list Event) (st : State) : State :=
  fold_left (step ip_network) events st.

(** A scan that raises does so with an empty message: [str(e)] is the
    empty string, as for an exception raised without arguments. *)
Definition silent (e : Event) : bool :=
  match e with
  | Iterate _ (ScanRaises msg) _ => negb (PyStr.truthy msg)
  | _ => true
  end.

(** A chunk that no failure was counted against: no retries, not
    FAILED, and a range the main loop accepts. *)
Definition uncounted (c : ScanChunk) : Prop :=
  retry_count c = 0 /\ chunk_status c <> FAILED /\
  PyStr.truthy (chunk_start c) = true /\ PyStr.truthy (chunk_end c) = true.

End Engine.

(** ** probes.py: the probe set *)

Module Probes.

(** *** Exceptions and the peer

    The subclasses of [Exception] the probes tell apart, each with its
    message ([str(e)]). *)
Inductive Exn :=
| TimeoutError (msg : string)
| ConnectionRefusedError (msg : string)
| OSError (msg : string)
| NameError (msg : string)
| OtherException (msg : string).

Definition exn_str (e : Exn) : string :=
  match e with
  | TimeoutError m | ConnectionRefusedError m | OSError m
  | NameError m | OtherException m => m
  end.

Inductive Outcome (A : Type) :=
| Returns (a : A)
| Raises (e : Exn).

Arguments Returns {A} a.
Arguments Raises {A} e.

(** The other end of the connection, as a script: what
    [open_connection] does, what each [read] in turn gives (bytes, or
    an exception such as the timeout of [wait_for]), what each [drain]
    and [wait_closed] do; [sent] collects the bytes written. *)
Record World := mkWorld {
  connect_result : option Exn;
  incoming : list (Exn + string);
  drain_results : list (option Exn);
  close_result : option Exn;
  sent : list string
}.

Definition IO (A : Type) : Type := World -> Outcome A * World.

Definition ret {A} (a : A) : IO A := fun w => (Returns a, w).
Definition raise {A} (e : Exn) : IO A := fun w => (Raises e, w).

Definition bind {A B} (m : IO A) (k : A -> IO B) : IO B :=
  fun w =>
    match m w with
    | (Returns a, w') => k a w'
    | (Raises e, w') => (Raises e, w')
    end.

(** [try: m except Exception: h] *)
Definition try_except {A} (m : IO A) (h : Exn -> IO A) : IO A :=
  fun w =>
    match m w with
    | (Returns a, w') => (Returns a, w')
    | (Raises e, w') => h e w'
    end.

#[global] Instance IO_ret : MRet IO := fun A a => ret a.
#[global] Instance IO_bind : MBind IO := fun A B k m => bind m k.

(** [await asyncio.wait_for(asyncio.open_connection(...), timeout)] *)
Definition open_connection : IO unit :=
  fun w =>
    match connect_result w with
    | Some e => (Raises e, w)
    | None => (Returns tt, w)
    end.

Definition set_incoming (w : World) (l : list (Exn + string)) : World :=
  {| connect_result := connect_result w; incoming := l;
     drain_results := drain_results w; close_result := close_result w;
     sent := sent w |}.

(** [await reader.read(n)]: at most [n] bytes of what has come in; the
    rest stays in the buffer; the empty bytes at the end of the stream. *)
Definition read (n : nat) : IO string :=
  fun w =>
    match incoming w with
    | [] => (Returns "", w)
    | inl e :: rest => (Raises e, set_incoming w rest)
    | inr data :: rest =>
        if Nat.leb (String.length data) n
        then (Returns data, set_incoming w rest)
        else (Returns (String.substring 0 n data),
              set_incoming w
                (inr (String.substring n (String.length data - n) data) :: rest))
    end.

(** [writer.write(data); await writer.drain()] *)
Definition write_drain (data : string) : IO unit :=
  fun w =>
    match drain_results w with
    | Some e :: rest =>
        (Raises e,
         {| connect_result := connect_result w; incoming := incoming w;
            drain_results := rest; close_result := close_result w;
            sent := sent w ++ [data] |})
    | None :: rest =>
        (Returns tt,
         {| connect_result := connect_result w; incoming := incoming w;
            drain_results := rest; close_result := close_result w;
            sent := sent w ++ [data] |})
    | [] =>
        (Returns tt,
         {| connect_result := connect_result w; incoming := incoming w;
            drain_results := []; close_result := close_result w;
            sent := sent w ++ [data] |})
    end.

(** [writer.close(); await writer.wait_closed()] *)
Definition close : IO unit :=
  fun w =>
    match close_result w with
    | Some e => (Raises e, w)
    | None => (Returns tt, w)
    end.

(** The names bound at module level by the import statements of
    probes.py. *)
Definition module_globals : list string :=
  ["asyncio"; "time"; "ssl"; "dataclass"; "field"; "Optional"; "Dict"].

(** Reading a global name of the module. *)
Definition load_global (name : string) : IO unit :=
  if bool_decide (name ∈ module_globals) then ret tt
  else raise (NameError ("name '" +:+ name +:+ "' is not defined")).

(** *** Observations *)

Definition CRLF : string := String (ascii_of_nat 13) (String (ascii_of_nat 10) "").

(** [Observation(ip=..., port=..., protocol="tcp", service=..., status=...,
    ...)]; the fields not given take their defaults, [timestamp] the
    clock. *)
Definition observation (ip0 : string) (port0 : Z) (service0 status0 : string)
  (now : Z) (error_reason0 banner0 : option string) : Observation :=
  {| ip := ip0; port := port0; protocol := "tcp"; service := service0;
     status := status0; timestamp := now; error_reason := error_reason0;
     banner := banner0; headers := ∅; body := None; response_code := None |}.

(** The [except Exception as e] clause shared by the protocol probes. *)
Definition closed_on_exception (ip0 : string) (port0 : Z) (service0 : string)
  (now : Z) (e : Exn) : Observation :=
  observation ip0 port0 service0 "closed" now (Some (exn_str e)) None.

Section Run.

(** [decode_ignore b] stands for [b.decode('utf-8', errors='ignore')],
    [decode_strict b] for [b.decode()], which raises on invalid input,
    [py_int s] for [int(s)], [None] when it raises [ValueError], and
    [py_lower s] for [s.lower()]. *)
Variable decode_ignore : string -> string.
Variable decode_strict : string -> Outcome string.
Variable py_int : string -> option Z.
Variable py_lower : string -> string.

Definition decode (b : string) : IO string :=
  fun w => (decode_strict b, w).

(** *** TCPProbe *)

Definition TCPProbe_body : IO string :=
  open_connection;;
  banner ← try_except
              (data ← read 1024; ret (PyStr.strip (decode_ignore data)))
              (fun _ => ret "");
  close;;
  ret banner.

Definition TCPProbe_run (port0 : Z) (ip_address : string) (now : Z) : IO Observation :=
  try_except
    (banner ← TCPProbe_body;
     ret (observation ip_address port0 "tcp" "open" now None (Some banner)))
    (fun e =>
       match e with
       | TimeoutError _ =>
           ret (observation ip_address port0 "tcp" "timeout" now (Some "Timeout") None)
       | ConnectionRefusedError _ =>
           ret (observation ip_address port0 "tcp" "closed" now (Some "Refused") None)
       | OSError m =>
           ret (observation ip_address port0 "tcp" "error" now (Some m) None)
       | _ => raise e
       end).

(** *** HTTPProbe *)

Definition uses_tls (port0 : Z) : bool := (port0 =? 443) || (port0 =? 8443).

Definition http_request (ip_address : string) : string :=
  "GET / HTTP/1.1" +:+ CRLF +:+ "Host: " +:+ ip_address +:+ CRLF
  +:+ "User-Agent: DeepFocus/1.0" +:+ CRLF +:+ "Connection: close" +:+ CRLF +:+ CRLF.

(** The status code of the status line, when there is one to read. *)
Definition parse_status_code (status_line : string) : option Z :=
  if PyStr.contains status_line " "
  then py_int (nth 1 (PyStr.split " "%char status_line) "")
  else None.

(** The loop over [lines[1:]]. *)
Definition parse_headers (lines : list string) : gmap string string :=
  fold_left
    (fun (hs : gmap string string) line =>
       match PyStr.split_once ": " line with
       | (k, Some v) => <[py_lower k := v]> hs
       | (_, None) => hs
       end)
    lines ∅.

Definition parse_response (ip_address : string) (port0 : Z) (now : Z)
  (raw_response : string) : Observation :=
  let '(head_part, body0) := PyStr.split_once (CRLF +:+ CRLF) raw_response in
  let lines := PyStr.split_str CRLF head_part in
  {| ip := ip_address; port := port0; protocol := "tcp";
     service := if uses_tls port0 then "https" else "http";
     status := "open"; timestamp := now; error_reason := None;
     banner := Some head_part;
     headers := parse_headers (tl lines);
     body := body0;
     response_code := parse_status_code (hd "" lines) |}.

Definition HTTPProbe_run (port0 : Z) (ip_address : string) (now : Z) : IO Observation :=
  try_except
    (open_connection;;
     write_drain (http_request ip_address);;
     data ← read 4096;
     close;;
     ret (parse_response ip_address port0 now (decode_ignore data)))
    (fun e => ret (closed_on_exception ip_address port0 "http" now e)).

(** *** VNCProbe *)

Definition security_type (b : ascii) : string :=
  let n := Z.of_nat (nat_of_ascii b) in
  if n =? 1 then "None (OPEN)"
  else if n =? 2 then "VNC Auth"
  else if n =? 16 then "TightVNC"
  else if n =? 19 then "VeNCrypt (TLS)"
  else "Type(" +:+ NilZero.string_of_uint (N.to_uint (Z.to_N n)) +:+ ")".

Definition VNCProbe_run (port0 : Z) (ip_address : string) (now : Z) : IO Observation :=
  try_except
    (open_connection;;
     server_version ← read 12;
     write_drain server_version;;
     sec_types_len_byte ← read 1;
     banner ←
       match sec_types_len_byte with
       | EmptyString => raise (OtherException "Empty security payload")
       | String b _ =>
           if Nat.eqb (nat_of_ascii b) 0 then
             reason ← read 100;
             v ← decode server_version;
             r ← decode reason;
             ret (PyStr.strip v +:+ " (Connect Failed: " +:+ PyStr.strip r +:+ ")")
           else
             sec_types ← read (nat_of_ascii b);
             v ← decode server_version;
             ret (PyStr.strip v +:+ " | Auth: ["
                  +:+ PyStr.join ", " (map security_type (list_ascii_of_string sec_types))
                  +:+ "]")
       end;
     close;;
     ret (observation ip_address port0 "vnc" "open" now None (Some banner)))
    (fun e => ret (closed_on_exception ip_address port0 "vnc" now e)).

(** *** FTPProbe *)

Definition FTPProbe_auth : string -> IO string := fun banner_str =>
  if PyStr.startswith banner_str "220" then
    write_drain ("USER anonymous" +:+ CRLF);;
    resp_user ← read 1024;
    let resp_user_str := PyStr.strip (decode_ignore resp_user) in
    if PyStr.startswith resp_user_str "331" then
      write_drain ("PASS anonymous@" +:+ CRLF);;
      resp_pass ← read 1024;
      let resp_pass_str := PyStr.strip (decode_ignore resp_pass) in
      if PyStr.startswith resp_pass_str "230" then ret "Anonymous Access ALLOWED"
      else if PyStr.startswith resp_pass_str "530" then ret "Anonymous Access DENIED (530)"
      else ret ("Login Failed Code: " +:+ PyStr.take_str 3 resp_pass_str)
    else if PyStr.startswith resp_user_str "230" then
      ret "Anonymous Access ALLOWED (No Pass)"
    else if PyStr.startswith resp_user_str "530" then ret "Anonymous User Rejected"
    else if PyStr.startswith resp_user_str "500"
            || PyStr.contains (py_lower resp_user_str) "auth"
    then ret "Encryption Required (AUTH TLS)"
    else ret ("Handshake Error: " +:+ PyStr.take_str 3 resp_user_str)
  else ret "Unknown".

Definition FTPProbe_run (port0 : Z) (ip_address : string) (now : Z) : IO Observation :=
  try_except
    (open_connection;;
     banner0 ← read 1024;
     let banner_str := PyStr.strip (decode_ignore banner0) in
     auth_status ← FTPProbe_auth banner_str;
     close;;
     ret (observation ip_address port0 "ftp" "open" now None
            (Some (banner_str +:+ " | Auth: [" +:+ auth_status +:+ "]"))))
    (fun e => ret (closed_on_exception ip_address port0 "ftp" now e)).

(** *** SSHProbe *)

Definition ssh_device_info (banner_str : string) : string :=
  let banner_lower := py_lower banner_str in
  if PyStr.contains banner_lower "dropbear" then "Dropbear (Embedded/IoT)"
  else if PyStr.contains banner_lower "cisco" then "Cisco IOS"
  else if PyStr.contains banner_lower "mikrotik" then "MikroTik Router"
  else if PyStr.contains banner_lower "openssh" then "OpenSSH"
  else "SSH Service".

Definition SSHProbe_run (port0 : Z) (ip_address : string) (now : Z) : IO Observation :=
  try_except
    (open_connection;;
     server_banner ← read 256;
     let banner_str := PyStr.strip (decode_ignore server_banner) in
     close;;
     ret (observation ip_address port0 "ssh" "open" now None
            (Some (banner_str +:+ " | Device: [" +:+ ssh_device_info banner_str +:+ "]"))))
    (fun e => ret (closed_on_exception ip_address port0 "ssh" now e)).

(** *** RTSPProbe *)

Definition rtsp_request (ip_address : string) (port0 : Z) : string :=
  "OPTIONS rtsp://" +:+ ip_address +:+ ":"
  +:+ NilZero.string_of_uint (N.to_uint (Z.to_N port0)) +:+ "/ RTSP/1.0" +:+ CRLF
  +:+ "CSeq: 1" +:+ CRLF +:+ "User-Agent: DeepFocus" +:+ CRLF +:+ CRLF.

Definition rtsp_auth_status (response_str : string) : string :=
  if PyStr.contains response_str "RTSP/1.0 200" then "No Auth Required (OPEN)"
  else if PyStr.contains response_str "RTSP/1.0 401" then "Auth Required"
  else if PyStr.contains response_str "RTSP/1.0 403" then "Forbidden"
  else "Unknown".

Definition rtsp_brands : list string :=
  ["hikvision"; "dahua"; "axis"; "foscam"; "amcrest"; "reolink"; "ubiquiti"].

(** The loop over [brands], with its [break]. *)
Fixpoint rtsp_camera_brand (brands : list string) (resp_lower : string) : string :=
  match brands with
  | [] => "RTSP Camera"
  | brand :: rest =>
      if PyStr.contains resp_lower brand then PyStr.capitalize brand
      else rtsp_camera_brand rest resp_lower
  end.

Definition RTSPProbe_run (port0 : Z) (ip_address : string) (now : Z) : IO Observation :=
  try_except
    (open_connection;;
     write_drain (rtsp_request ip_address port0);;
     response ← read 1024;
     let response_str := decode_ignore response in
     close;;
     ret (observation ip_address port0 "rtsp" "open" now None
            (Some (rtsp_camera_brand rtsp_brands (py_lower response_str)
                   +:+ " | Auth: [" +:+ rtsp_auth_status response_str +:+ "]"))))
    (fun e => ret (closed_on_exception ip_address port0 "rtsp" now e)).

(** *** TelnetProbe *)

Definition TelnetProbe_run (port0 : Z) (ip_address : string) (now : Z) : IO Observation :=
  try_except
    (open_connection;;
     banner0 ← read 1024;
     let banner_str := PyStr.strip (decode_ignore banner0) in
     load_global "re";;
     let banner_str := PyStr.keep_printable banner_str in
     close;;
     ret (observation ip_address port0 "telnet" "open" now None (Some banner_str)))
    (fun e => ret (closed_on_exception ip_address port0 "telnet" now e)).

(** *** MQTTProbe *)

(** [bytes.fromhex("101000044D5154540402003C000474657374")] *)
Definition connect_packet : string :=
  string_of_list_ascii
    (map ascii_of_nat
       [16; 16; 0; 4; 77; 81; 84; 84; 4; 2; 0; 60; 0; 4; 116; 101; 115; 116]%nat).

Definition mqtt_status_msg (response : string) : string :=
  match list_ascii_of_string response with
  | b0 :: _ :: _ :: b3 :: _ =>
      if Nat.eqb (nat_of_ascii b0) 32 then
        let return_code := Z.of_nat (nat_of_ascii b3) in
        if return_code =? 0 then "Access ALLOWED (No Auth)"
        else if return_code =? 1 then "Refused: Protocol Version"
        else if return_code =? 2 then "Refused: ID Rejected"
        else if return_code =? 3 then "Refused: Server Unavailable"
        else if return_code =? 4 then "Refused: Bad User/Pass"
        else if return_code =? 5 then "Refused: Not Authorized"
        else "Refused: Code "
             +:+ NilZero.string_of_uint (N.to_uint (Z.to_N return_code))
      else "Unknown"
  | _ => "Unknown"
  end.

Definition MQTTProbe_run (port0 : Z) (ip_address : string) (now : Z) : IO Observation :=
  try_except
    (open_connection;;
     write_drain connect_packet;;
     response ← read 4;
     close;;
     ret (observation ip_address port0 "mqtt" "open" now None
            (Some (mqtt_status_msg response))))
    (fun e => ret (closed_on_exception ip_address port0 "mqtt" now e)).

(** *** The factory *)

Inductive ProbeClass :=
| HTTPProbe | VNCProbe | FTPProbe | SSHProbe | RTSPProbe | TelnetProbe
| MQTTProbe | TCPProbe.

(** A probe object: its class and [self.port]. *)
Record Probe := mkProbe {
  probe_class : ProbeClass;
  probe_port : Z
}.

End Run.

(** [get_probe(port)] *)
Definition get_probe (port0 : Z) : Probe :=
  if bool_decide (port0 ∈ [80; 8080; 8000; 443; 8443]) then mkProbe HTTPProbe port0
  else if port0 =? 5900 then mkProbe VNCProbe port0
  else if port0 =? 21 then mkProbe FTPProbe port0
  else if port0 =? 22 then mkProbe SSHProbe port0
  else if port0 =? 554 then mkProbe RTSPProbe port0
  else if port0 =? 23 then mkProbe TelnetProbe port0
  else if port0 =? 1883 then mkProbe MQTTProbe port0
  else mkProbe TCPProbe port0.

(** [probe.run(ip_address)] *)
Definition run (decode_ignore : string -> string)
  (decode_strict : string -> Outcome string) (py_int : string -> option Z)
  (py_lower : string -> string)
  (p : Probe) (ip_address : string) (now : Z) : IO Observation :=
  match probe_class p with
  | HTTPProbe => HTTPProbe_run decode_ignore py_int py_lower (probe_port p) ip_address now
  | VNCProbe => VNCProbe_run decode_strict (probe_port p) ip_address now
  | FTPProbe => FTPProbe_run decode_ignore py_lower (probe_port p) ip_address now
  | SSHProbe => SSHProbe_run decode_ignore py_lower (probe_port p) ip_address now
  | RTSPProbe => RTSPProbe_run decode_ignore py_lower (probe_port p) ip_address now
  | TelnetProbe => TelnetProbe_run decode_ignore (probe_port p) ip_address now
  | MQTTProbe => MQTTProbe_run (probe_port p) ip_address now
  | TCPProbe => TCPProbe_run decode_ignore (probe_port p) ip_address now
  end.

(** The service name a class reports when it catches an exception. *)
Definition failure_service (c : ProbeClass) : string :=
  match c with
  | HTTPProbe => "http" | VNCProbe => "vnc" | FTPProbe => "ftp"
  | SSHProbe => "ssh" | RTSPProbe => "rtsp" | TelnetProbe => "telnet"
  | MQTTProbe => "mqtt" | TCPProbe => "tcp"
  end.

(** A peer that fails the connection with [e]. *)
Definition failing_peer (e : Exn) : World :=
  {| connect_result := Some e; incoming := []; drain_results := [];
     close_result := None; sent := [] |}.

(** A peer that accepts the connection and sends the given chunks. *)
Definition sending_peer (chunks : list string) : World :=
  {| connect_result := None; incoming := map inr chunks; drain_results := [];
     close_result := None; sent := [] |}.

(** *** The lines of a header block

    A line as a peer writes it: a header [name: value], or any other
    text. *)
Inductive HeaderLine :=
| Header (name value : string)
| Other (text : string).

Definition render_line (l : HeaderLine) : string :=
  match l with
  | Header name value => name +:+ ": " +:+ value
  | Other text => text
  end.

(** A header whose name holds no colon (as the field names of HTTP),
    or a text in which [": "] does not occur. *)
Definition plain_line (l : HeaderLine) : bool :=
  match l with
  | Header name _ => PyStr.free_of ":"%char name
  | Other text => negb (PyStr.contains text ": ")
  end.

(** The value a line gives to the key [k]: the value of a header whose
    name is [k] in lower case. *)
Definition value_for (py_lower : string -> string) (k : string) (l : HeaderLine)
  : option string :=
  match l with
  | Header name value => if decide (py_lower name = k) then Some value else None
  | Other _ => None
  end.

(** *** What a run returns and what it writes *)






End Probes.

(** ** scanner.py: the scan of one chunk *)

Module Scanner.

Import DbManager Scheduler.

(** [long2ip(l)]: the dotted quad of a 32-bit number. *)
Definition long2ip (l : Z) : string := ip_str l.

(** [ip2long(ip)] on the dotted quads that [str(address)] writes, which
    are the strings [initialize_scan] stores; [None] stands for every
    other string: there [socket.inet_aton] raises or reads one of its
    other notations (fewer parts, octal, hexadecimal), which are left
    out here. *)
Definition ip2long (ip0 : string) : option Z :=
  match parse_ipv4 ip0 with
  | Some a => if String.eqb (ip_str a) ip0 then Some a else None
  | None => None
  end.

(** The queue after "Populate Queue with Targets":
    [for l in range(start_long, end_long + 1): for port in ports]. *)
Definition targets (start_long end_long : Z) (ports : list Z) : list (string * Z) :=
  flat_map (fun l => map (fun port => (long2ip l, port)) ports)
           (seqZ start_long (end_long + 1 - start_long)).

(** The targets of a chunk as stored. *)
Definition chunk_targets (start_ip end_ip : string) (ports : list Z)
  : option (list (string * Z)) :=
  match ip2long start_ip, ip2long end_ip with
  | Some start_long, Some end_long => Some (targets start_long end_long ports)
  | _, _ => None
  end.

(** A chunk enumerates the targets of the addresses from [se.1] to
    [se.2], at most 256 of them. *)
Definition spans (ports : list Z) (c : ScanChunk) (se : Z * Z) : Prop :=
  chunk_targets (chunk_start c) (chunk_end c) ports
  = Some (targets se.1 se.2 ports) /\
  0 <= se.2 - se.1 < 256.

(** The target an observation was made for. *)
Definition target_of (o : ObsDict) : string * Z := (ip o, port o).

Section Worker.

Variable re_search : string -> string -> option Fingerprint.groups.
Variable py_lower : string -> string.

(** [obs_dict = observation.to_dict()] with
    [obs_dict['analysis'] = fingerprint.analyze(obs_dict)]; the rule
    objects after the call come second. *)
Definition analysed (rules : list Fingerprint.FingerprintRule) (o : Observation)
  : ObsDict * list Fingerprint.FingerprintRule :=
  let '(a, rules') := Fingerprint.analyze re_search py_lower rules o in
  ({| obs := o; analysis := Some a |}, rules').

End Worker.

Definition batch_size : nat := 50.

(** What a worker does with a result under [buffer_lock], on the state
    (buffer, database): append, and flush the buffer when it has
    [batch_size] results.  When the flush raises, [clear()] is not
    reached; the worker logs the exception and goes on. *)
Definition buffer_result (st : list ObsDict * Db) (o : ObsDict)
  : list ObsDict * Db :=
  let buffer := st.1 ++ [o] in
  if (batch_size <=? length buffer)%nat then
    match save_observation_batch buffer st.2 with
    | inl db' => ([], db')
    | inr _ => (buffer, st.2)
    end
  else (buffer, st.2).

(** "Flush remaining buffer data": an exception here leaves
    [scan_chunk]. *)
Definition flush_remaining (st : list ObsDict * Db) : Db + SqlError :=
  match st.1 with
  | [] => inl st.2
  | _ => save_observation_batch st.1 st.2
  end.

(** [scan_chunk] up to the call of [complete_chunk], as far as the
    database goes: [results] are the dictionaries the workers append to
    the buffer, in the order they append them. *)
Definition scan_chunk_from (st : list ObsDict * Db) (results : list ObsDict)
  : Db + SqlError :=
  flush_remaining (fold_left buffer_result results st).

Definition scan_chunk (results : list ObsDict) (db : Db) : Db + SqlError :=
  scan_chunk_from ([], db) results.

(** A result has its row: the one Service row of its key carries its
    status and its time. *)
Definition stored (o : ObsDict) (db : Db) : Prop :=
  exists r, rows_with_key (obs_key o) (services db) = [r] /\
            svc_state r = status o /\ svc_last_seen r = timestamp o.

End Scanner.

(* ===================================================================== *)
(** * Part II: the theorems                                               *)
(* ===================================================================== *)

(** ** The fingerprint evaluator *)

Section FingerprintFacts.

Import Fingerprint.

Variable re_search : string -> string -> option groups.
Variable py_lower : string -> string.
Variable o : Observation.

Local Abbreviation score := (capped_total re_search py_lower o).

(** [check] answers [(true, Some gs)] or [(false, None)]. *)
Lemma check_shape text regex :
  (exists gs, check re_search text regex = (true, Some gs)) \/
  check re_search text regex = (false, None).
Proof.
  unfold check. destruct text as [t|]; [|by right].
  destruct (PyStr.truthy t); [|by right].
  destruct (re_search regex t) as [gs|]; [left; by exists gs | by right].
Qed.

Lemma match_location_shape location pattern :
  (exists gs, match_location re_search py_lower o location pattern = (true, Some gs)) \/
  match_location re_search py_lower o location pattern = (false, None).
Proof.
  unfold match_location.
  repeat (match goal with |- context [if ?b then _ else _] => destruct b end);
    try apply check_shape; by right.
Qed.

Lemma groups_after_cons lg0 e ev :
  groups_after re_search py_lower o lg0 (e :: ev) =
  groups_after re_search py_lower o
    (if matches re_search py_lower o e
     then snd (match_location re_search py_lower o e.1.1 e.1.2) else lg0) ev.
Proof.
  unfold groups_after. rewrite filter_cons.
  destruct (matches re_search py_lower o e) eqn:Hm.
  - rewrite decide_True by done. rewrite last_cons.
    by destruct (last _).
  - rewrite decide_False by done. done.
Qed.

Lemma details_of_cons e ev :
  details_of re_search py_lower o (e :: ev) =
  if matches re_search py_lower o e
  then ("Matched " +:+ e.1.1) :: details_of re_search py_lower o ev
  else details_of re_search py_lower o ev.
Proof.
  unfold details_of. rewrite filter_cons.
  destruct (matches re_search py_lower o e).
  - by rewrite decide_True.
  - by rewrite decide_False.
Qed.

Lemma evaluate_loop_spec ev total details lg :
  fold_left (evaluate_step re_search py_lower o) ev (total, details, lg)
  = (total + weight_sum re_search py_lower o ev,
     details ++ details_of re_search py_lower o ev,
     groups_after re_search py_lower o lg ev).
Proof.
  revert total details lg.
  induction ev as [|[[location pattern] weight] ev IH]; intros total details lg.
  - cbn. rewrite app_nil_r. f_equal. f_equal. lia.
  - rewrite groups_after_cons, details_of_cons.
    change (weight_sum re_search py_lower o ((location, pattern, weight) :: ev))
      with (if matches re_search py_lower o (location, pattern, weight)
            then weight + weight_sum re_search py_lower o ev
            else weight_sum re_search py_lower o ev).
    cbn [fold_left]. unfold matches; cbn [fst snd].
    unfold evaluate_step at 2.
    destruct (match_location_shape location pattern) as [[gs Hgs]|Hno];
      [rewrite Hgs | rewrite Hno]; cbn [fst snd].
    + rewrite IH. rewrite <- app_assoc. cbn [app]. f_equal. f_equal. lia.
    + apply IH.
Qed.

(** No entry matches: the weight sum is zero. *)
Lemma weight_sum_no_match ev :
  filter (fun e => matches re_search py_lower o e = true) ev = [] ->
  weight_sum re_search py_lower o ev = 0.
Proof.
  induction ev as [|e ev IH]; [done|].
  rewrite filter_cons. cbn [weight_sum fold_right].
  destruct (matches re_search py_lower o e) eqn:Hm.
  - rewrite decide_True by done. discriminate.
  - rewrite decide_False by done. exact IH.
Qed.

Lemma evaluate_spec r :
  evaluate re_search py_lower r o
  = (score r, details_of re_search py_lower o (evidence r), evaluated re_search py_lower o r).
Proof.
  unfold evaluate. rewrite evaluate_loop_spec.
  unfold capped_total, evaluated. by rewrite Z.add_0_l.
Qed.

(** A rule with a positive total recorded its groups in this call. *)
Lemma positive_score_version r :
  0 < score r ->
  version_of (last_groups (evaluated re_search py_lower o r))
  = from_option (first_capture re_search py_lower o) None (last_matching re_search py_lower o r).
Proof.
  intros Hpos. unfold evaluated, groups_after, last_matching.
  cbn [last_groups with_last_groups].
  destruct (last _) as [e|] eqn:Hlast.
  - cbn. unfold version_of, first_capture. done.
  - apply last_None in Hlast. apply weight_sum_no_match in Hlast.
    unfold capped_total in Hpos. rewrite Hlast in Hpos. lia.
Qed.

(** The loop of [analyze]: either the running best is kept, or the rule
    finally held is the earliest one with the greatest total. *)
Lemma analyze_loop_spec rules br bs bd :
  exists br' bs' bd',
    analyze_loop re_search py_lower rules o (br, bs, bd)
    = ((br', bs', bd'), map (evaluated re_search py_lower o) rules) /\
    ((br' = br /\ bs' = bs /\ bd' = bd /\
      forall r, In r rules -> score r <= bs)
     \/
     (exists i r, wins re_search py_lower o rules i r /\ bs < score r /\
        br' = Some (evaluated re_search py_lower o r) /\ bs' = score r /\
        bd' = details_of re_search py_lower o (evidence r))).
Proof.
  revert br bs bd.
  induction rules as [|rule rest IH]; intros br bs bd.
  - exists br, bs, bd. split; [done|]. left. repeat split; try done.
  - cbn [analyze_loop]. rewrite evaluate_spec.
    destruct (Z.ltb bs (score rule)) eqn:Hlt.
    + apply Z.ltb_lt in Hlt.
      destruct (IH (Some (evaluated re_search py_lower o rule)) (score rule)
                   (details_of re_search py_lower o (evidence rule)))
        as (br' & bs' & bd' & Heq & Hcase).
      exists br', bs', bd'. rewrite Heq. split; [done|]. right.
      destruct Hcase as [(-> & -> & -> & Hle) | (i & r & (Hi & Hmax & Hearly) & Hgt & Hrest)].
      * exists 0%nat, rule. repeat split; try done.
        -- intros r' [<-|Hin]; [lia | by apply Hle].
        -- intros j r' Hj. lia.
      * exists (S i), r. split; [|split; [lia | exact Hrest]].
        repeat split; try done.
        -- intros r' [<-|Hin]; [lia | by apply Hmax].
        -- intros [|j] r' Hj Hr'; cbn in Hr'.
           ++ injection Hr' as <-. lia.
           ++ apply (Hearly j); [lia | done].
    + apply Z.ltb_ge in Hlt.
      destruct (IH br bs bd) as (br' & bs' & bd' & Heq & Hcase).
      exists br', bs', bd'. rewrite Heq. split; [done|].
      destruct Hcase as [(-> & -> & -> & Hle) | (i & r & (Hi & Hmax & Hearly) & Hgt & Hrest)].
      * left. repeat split; try done.
        intros r' [<-|Hin]; [lia | by apply Hle].
      * right. exists (S i), r. split; [|split; [lia | exact Hrest]].
        repeat split; try done.
        -- intros r' [<-|Hin]; [lia | by apply Hmax].
        -- intros [|j] r' Hj Hr'; cbn in Hr'.
           ++ injection Hr' as <-. lia.
           ++ apply (Hearly j); [lia | done].
Qed.

(** [analyze] either finds no rule with a positive total and answers
    [unknown_result], or answers for the winning rule. *)
Lemma analyze_spec rules :
  snd (analyze re_search py_lower rules o) = map (evaluated re_search py_lower o) rules /\
  ((fst (analyze re_search py_lower rules o) = unknown_result /\
    forall r, In r rules -> score r <= 0)
   \/
   (exists i r, wins re_search py_lower o rules i r /\ 0 < score r /\
      fst (analyze re_search py_lower rules o) = result_of re_search py_lower o r)).
Proof.
  unfold analyze.
  destruct (analyze_loop_spec rules None 0 []) as (br' & bs' & bd' & Heq & Hcase).
  rewrite Heq. cbn [fst snd]. split; [done|].
  destruct Hcase as [(-> & -> & -> & Hle) | (i & r & Hwin & Hgt & -> & -> & ->)].
  - by left.
  - right. exists i, r. split; [done|]. split; [done|].
    apply Z.ltb_lt in Hgt as Hgt'. rewrite Hgt'.
    unfold result_of. f_equal. by apply positive_score_version.
Qed.

(** C3: the confidence returned by [analyze] lies in [0,100]; the rule
    it answers for has the greatest capped weight sum over all rules and
    is the earliest declared rule with that sum; and when no rule has a
    positive sum (the best total is 0) the answer is the "unknown"
    analysis with confidence 0. *)
Theorem analyze_confidence_and_choice rules :
  let res := fst (analyze re_search py_lower rules o) in
  0 <= a_confidence res <= 100 /\
  ((res = unknown_result /\ forall r, In r rules -> score r <= 0)
   \/
   (exists i r, wins re_search py_lower o rules i r /\ 0 < score r /\
      a_confidence res = score r /\
      a_service_type res = type r /\
      a_vendor res = or_unknown (vendor r) /\
      a_product res = or_unknown (product r) /\
      a_tags res = tags r)) /\
  ((forall r, In r rules -> score r <= 0) ->
   a_service_type res = "unknown" /\ a_vendor res = "unknown" /\
   a_product res = "unknown" /\ a_confidence res = 0).
Proof.
  cbv zeta.
  destruct (analyze_spec rules) as [_ [[Hres Hle] | (i & r & Hwin & Hpos & Hres)]];
    rewrite Hres.
  - split; [cbn; lia|]. split; [by left|]. by intros _.
  - split; [|split].
    + cbn. unfold capped_total in *. lia.
    + right. exists i, r. split; [exact Hwin|]. split; [exact Hpos|]. by cbn.
    + intros Hall. destruct Hwin as (Hi & _ & _).
      apply list_elem_of_lookup_2, list_elem_of_In in Hi.
      specialize (Hall r Hi). lia.
Qed.

End FingerprintFacts.

Section FingerprintCalls.

Import Fingerprint.

Variable re_search : string -> string -> option groups.
Variable py_lower : string -> string.

Lemma declared_evaluated o r :
  declared (evaluated re_search py_lower o r) = declared r.
Proof. reflexivity. Qed.

Lemma capped_total_declared o r1 r2 :
  declared r1 = declared r2 ->
  capped_total re_search py_lower o r1 = capped_total re_search py_lower o r2.
Proof.
  intros H. change (capped_total re_search py_lower o (declared r1)
                    = capped_total re_search py_lower o (declared r2)).
  by rewrite H.
Qed.

Lemma result_of_declared o r1 r2 :
  declared r1 = declared r2 ->
  result_of re_search py_lower o r1 = result_of re_search py_lower o r2.
Proof.
  intros H. change (result_of re_search py_lower o (declared r1)
                    = result_of re_search py_lower o (declared r2)).
  by rewrite H.
Qed.

(** Earlier calls leave the declarations of the rules as they were. *)
Lemma after_calls_declared rules earlier :
  map declared (after_calls re_search py_lower rules earlier) = map declared rules.
Proof.
  revert rules. induction earlier as [|o' earlier IH]; intros rules; [done|].
  cbn [after_calls fold_left]. fold (after_calls re_search py_lower).
  unfold after_calls in *. rewrite IH.
  destruct (analyze_spec re_search py_lower o' rules) as [-> _].
  rewrite map_map. apply map_ext. intros r. apply declared_evaluated.
Qed.

Lemma map_declared_lookup (rs1 rs2 : list FingerprintRule) (i : nat) r1 :
  map declared rs1 = map declared rs2 ->
  rs1 !! i = Some r1 ->
  exists r2, rs2 !! i = Some r2 /\ declared r1 = declared r2.
Proof.
  revert rs2 i. induction rs1 as [|a rs1 IH]; intros [|b rs2] i Heq Hi;
    try discriminate.
  assert (Hhd : declared a = declared b).
  { change (hd (declared a) (map declared (a :: rs1))
            = hd (declared a) (map declared (b :: rs2))). by rewrite Heq. }
  assert (Htl : map declared rs1 = map declared rs2).
  { change (tl (map declared (a :: rs1)) = tl (map declared (b :: rs2))).
    by rewrite Heq. }
  destruct i as [|i]; cbn in Hi.
  - injection Hi as Hi. subst r1. exists b. split; [reflexivity | exact Hhd].
  - cbn. by apply IH.
Qed.

Lemma wins_unique o (rs1 rs2 : list FingerprintRule) i1 i2 r1 r2 :
  map declared rs1 = map declared rs2 ->
  wins re_search py_lower o rs1 i1 r1 -> wins re_search py_lower o rs2 i2 r2 ->
  declared r1 = declared r2.
Proof.
  intros Heq (H1 & Hmax1 & Hearly1) (H2 & Hmax2 & Hearly2).
  destruct (map_declared_lookup _ _ _ _ Heq H1) as (r1' & H1' & Hd1).
  destruct (map_declared_lookup _ _ _ _ (eq_sym Heq) H2) as (r2' & H2' & Hd2).
  pose proof (capped_total_declared o _ _ Hd1) as Hs1.
  pose proof (capped_total_declared o _ _ Hd2) as Hs2.
  destruct (lt_eq_lt_dec i1 i2) as [[Hlt | ->] | Hgt].
  - pose proof (Hearly2 _ _ Hlt H1').
    apply list_elem_of_lookup_2, list_elem_of_In in H2'.
    pose proof (Hmax1 _ H2'). lia.
  - rewrite H1' in H2. by injection H2 as <-.
  - pose proof (Hearly1 _ _ Hgt H2').
    apply list_elem_of_lookup_2, list_elem_of_In in H1'.
    pose proof (Hmax2 _ H1'). lia.
Qed.

(** The analysis depends on the rules as declared, not on what an
    earlier call left in their [last_groups]. *)
Lemma analyze_declared o rs1 rs2 :
  map declared rs1 = map declared rs2 ->
  fst (analyze re_search py_lower rs1 o) = fst (analyze re_search py_lower rs2 o).
Proof.
  intros Heq.
  destruct (analyze_spec re_search py_lower o rs1)
    as [_ [[Hres1 Hle1] | (i1 & r1 & Hwin1 & Hpos1 & Hres1)]];
  destruct (analyze_spec re_search py_lower o rs2)
    as [_ [[Hres2 Hle2] | (i2 & r2 & Hwin2 & Hpos2 & Hres2)]];
  rewrite Hres1, Hres2.
  - done.
  - exfalso. destruct Hwin2 as (H2 & _ & _).
    destruct (map_declared_lookup _ _ _ _ (eq_sym Heq) H2) as (r2' & H2' & Hd2).
    pose proof (capped_total_declared o _ _ Hd2).
    apply list_elem_of_lookup_2, list_elem_of_In in H2'.
    pose proof (Hle1 _ H2'). lia.
  - exfalso. destruct Hwin1 as (H1 & _ & _).
    destruct (map_declared_lookup _ _ _ _ Heq H1) as (r1' & H1' & Hd1).
    pose proof (capped_total_declared o _ _ Hd1).
    apply list_elem_of_lookup_2, list_elem_of_In in H1'.
    pose proof (Hle2 _ H1'). lia.
  - apply result_of_declared. by eapply wins_unique.
Qed.

(** The version of one call: the whole analysis is the same whatever
    calls were made before; it is the "unknown" analysis exactly when no
    rule has a positive total; otherwise the version is read from the
    groups of the last matching evidence entry of the winning rule, the
    first group when that match has groups and [None] when it has none. *)
Lemma analyze_version_spec rules earlier o :
  let res := fst (analyze re_search py_lower
                    (after_calls re_search py_lower rules earlier) o) in
  res = fst (analyze re_search py_lower rules o) /\
  ((res = unknown_result /\
    forall r, In r rules -> capped_total re_search py_lower o r <= 0)
   \/
   exists i r e gs,
     wins re_search py_lower o rules i r /\
     0 < capped_total re_search py_lower o r /\
     a_confidence res = capped_total re_search py_lower o r /\
     last_matching re_search py_lower o r = Some e /\
     match_location re_search py_lower o e.1.1 e.1.2 = (true, Some gs) /\
     a_version res = match gs with g :: _ => g | [] => None end) /\
  ((forall r e gs, In r rules -> In e (evidence r) ->
      match_location re_search py_lower o e.1.1 e.1.2 = (true, Some gs) ->
      gs = []) ->
   a_version res = None).
Proof.
  cbv zeta.
  rewrite (analyze_declared o _ rules (after_calls_declared rules earlier)).
  split; [done|].
  destruct (analyze_spec re_search py_lower o rules)
    as [_ [[Hres Hle] | (i & r & Hwin & Hpos & Hres)]]; rewrite Hres.
  - split; [by left | done].
  - cbn [a_version a_confidence result_of].
    unfold last_matching. destruct (last _) as [e|] eqn:Hlast.
    + cbn [from_option]. unfold first_capture.
      apply last_Some in Hlast as Hl. destruct Hl as [l' Hl'].
      assert (He : e ∈ filter (fun e => matches re_search py_lower o e = true)
                              (evidence r)).
      { rewrite Hl'. apply elem_of_app. right. by apply list_elem_of_singleton. }
      apply list_elem_of_filter in He as [Hm He]. apply list_elem_of_In in He.
      destruct (match_location_shape re_search py_lower o e.1.1 e.1.2)
        as [[gs Hgs] | Hno].
      * split.
        -- right. exists i, r, e, gs. unfold last_matching.
           rewrite Hlast, Hgs. split; [exact Hwin|]. split; [exact Hpos|].
           split; [reflexivity|]. split; [reflexivity|]. split; [reflexivity|].
           by destruct gs.
        -- intros Hnone. destruct Hwin as (Hi & _ & _).
           apply list_elem_of_lookup_2, list_elem_of_In in Hi.
           rewrite Hgs. cbn. by rewrite (Hnone r e gs Hi He Hgs).
      * exfalso. unfold matches in Hm. rewrite Hno in Hm. discriminate.
    + exfalso. apply last_None in Hlast. apply weight_sum_no_match in Hlast.
      unfold capped_total in Hpos. rewrite Hlast in Hpos. lia.
Qed.

End FingerprintCalls.

(** C4 (the code against the claim): the analysis of one call, and so
    its version, is the same whatever calls were made before; it is the
    "unknown" analysis exactly when no rule has a positive total, and
    otherwise it carries the total of the winning rule as confidence
    and its version is read from the last matching evidence entry of
    that rule alone: the first group of that match, and
    [None] when that match has no group, also when an earlier entry of
    the rule matched with a capture; a call whose matches have no
    capture group returns no version.  On [apache_observation] the
    Apache rule wins with confidence 100, its pattern
    [Apache/([\d\.]+)] matches the banner and captures [2.4.41], its last
    matching entry is the [server] header, whose pattern has no group,
    and the version returned is [None]. *)
Theorem analyze_version_of_this_call :
  (forall re_search py_lower rules earlier o,
     let res := fst (Fingerprint.analyze re_search py_lower
                       (Fingerprint.after_calls re_search py_lower rules earlier)
                       o) in
     res = fst (Fingerprint.analyze re_search py_lower rules o) /\
     ((res = Fingerprint.unknown_result /\
       forall r, In r rules ->
                 Fingerprint.capped_total re_search py_lower o r <= 0)
      \/
      exists i r e gs,
        Fingerprint.wins re_search py_lower o rules i r /\
        0 < Fingerprint.capped_total re_search py_lower o r /\
        Fingerprint.a_confidence res
        = Fingerprint.capped_total re_search py_lower o r /\
        Fingerprint.last_matching re_search py_lower o r = Some e /\
        Fingerprint.match_location re_search py_lower o e.1.1 e.1.2
        = (true, Some gs) /\
        Fingerprint.a_version res
        = match gs with g :: _ => g | [] => None end) /\
     ((forall r e gs, In r rules -> In e (Fingerprint.evidence r) ->
         Fingerprint.match_location re_search py_lower o e.1.1 e.1.2
         = (true, Some gs) -> gs = []) ->
      Fingerprint.a_version res = None)) /\
  (let o := Fingerprint.apache_observation in
   let search := Fingerprint.apache_search in
   let res := fst (Fingerprint.analyze search PyStr.lower_ascii_string
                     Fingerprint.RULES o) in
   Fingerprint.wins search PyStr.lower_ascii_string o Fingerprint.RULES 0
     Fingerprint.r_apache /\
   Fingerprint.a_vendor res = "Apache" /\
   Fingerprint.a_confidence res = 100 /\
   Fingerprint.a_evidence res
   = ["Matched banner"; "Matched banner"; "Matched header:server"] /\
   Fingerprint.match_location search PyStr.lower_ascii_string o
     "banner" "Apache/([\d\.]+)" = (true, Some [Some "2.4.41"]) /\
   Fingerprint.last_matching search PyStr.lower_ascii_string o
     Fingerprint.r_apache = Some ("header:server", "Apache", 30) /\
   Fingerprint.match_location search PyStr.lower_ascii_string o
     "header:server" "Apache" = (true, Some []) /\
   Fingerprint.a_version res = None).
Proof.
  split; [exact analyze_version_spec|].
  cbv zeta.
  assert (Hscore : forall r, In r Fingerprint.RULES ->
            Fingerprint.capped_total Fingerprint.apache_search
              PyStr.lower_ascii_string Fingerprint.apache_observation r <= 100).
  { intros r Hr. unfold Fingerprint.capped_total. lia. }
  split.
  { split; [reflexivity|]. split.
    - intros r Hr.
      replace (Fingerprint.capped_total Fingerprint.apache_search
                 PyStr.lower_ascii_string Fingerprint.apache_observation
                 Fingerprint.r_apache) with 100 by (vm_compute; reflexivity).
      by apply Hscore.
    - intros j r' Hj. lia. }
  repeat split; vm_compute; reflexivity.
Qed.

(** ** The observation store *)

Section StoreFacts.

Import DbManager.

Lemma history_check_change_observed (o : ObsDict) old_banner old_state :
  history_check (PyStr.or_empty (banner o)) old_banner (status o) old_state
  = change_observed o old_banner old_state.
Proof.
  unfold history_check, change_observed. rewrite orb_comm. f_equal.
  - destruct (String.eqb_spec (status o) old_state) as [Heq|Hne].
    + by rewrite bool_decide_eq_true_2.
    + by rewrite bool_decide_eq_false_2.
  - f_equal. unfold banner_nonempty, PyStr.or_empty. by destruct (banner o).
Qed.

(** The history component of the partition loop. *)
Lemma partition_history existing l ti tu hi :
  (fold_left (partition_step existing) l (ti, tu, hi)).2
  = hi ++ flat_map
      (fun o : ObsDict =>
         match existing !! obs_key o with
         | Some (sid, old_banner, old_state) =>
             if change_observed o old_banner old_state
             then [(sid, timestamp o, PyStr.or_empty (banner o), status o)]
             else []
         | None => []
         end) l.
Proof.
  revert ti tu hi. induction l as [|o l IH]; intros ti tu hi.
  - cbn. by rewrite app_nil_r.
  - cbn [fold_left flat_map]. unfold partition_step at 2.
    destruct (existing !! obs_key o) as [[[sid ob] os]|].
    + rewrite IH, history_check_change_observed.
      destruct (change_observed o ob os); [by rewrite <- app_assoc | done].
    + by rewrite IH.
Qed.

Lemma insert_history_fold ts hs seq :
  map history_tuple (fold_left insert_history ts (hs, seq)).1
  = map history_tuple hs ++ ts.
Proof.
  revert hs seq. induction ts as [|[[[sid t] b] s] ts IH]; intros hs seq.
  - cbn. by rewrite app_nil_r.
  - cbn [fold_left insert_history]. rewrite IH, map_app. cbn.
    by rewrite <- app_assoc.
Qed.

(** What a committed batch appends to the history table. *)
Lemma save_batch_history observations db db' :
  save_observation_batch observations db = inl db' ->
  map history_tuple (history db')
  = map history_tuple (history db) ++ history_due db observations.
Proof.
  unfold save_observation_batch.
  destruct observations as [|o l].
  { intros [= <-]. unfold history_due. cbn. by rewrite app_nil_r. }
  set (obsl := o :: l).
  destruct (partition_batch db obsl) as [[ti tu] hi] eqn:Hpart.
  destruct (insert_services _ ti) as [[svcs1 sseq]|]; [|discriminate].
  destruct (fold_left insert_history hi _) as [hist hseq] eqn:Hfold.
  intros [= <-]. cbn [history].
  pose proof (insert_history_fold hi (history db) (history_seq db)) as Hh.
  rewrite Hfold in Hh. cbn [fst] in Hh. rewrite Hh. f_equal.
  unfold partition_batch in Hpart.
  pose proof (partition_history
                (existing_map (services db) (map (fun o => ip (obs o)) obsl))
                obsl [] [] []) as Hp.
  rewrite Hpart in Hp. cbn [snd app] in Hp. exact Hp.
Qed.

(** The dict [existing_map] holds, for a key, the last selected row with
    that key. *)
Lemma existing_fold_lookup (ips : list string) (svcs : list Service)
  (m : gmap service_key (Z * option string * string)) (k : service_key) :
  fold_left
    (fun m row =>
       if bool_decide (svc_ip row ∈ ips)
       then <[svc_key row := (svc_id row, svc_banner row, svc_state row)]> m
       else m) svcs m !! k
  = match last (filter (fun s => svc_key s = k /\ svc_ip s ∈ ips) svcs) with
    | Some s => Some (svc_id s, svc_banner s, svc_state s)
    | None => m !! k
    end.
Proof.
  revert m. induction svcs as [|a l IH]; intros m; [done|].
  cbn [fold_left]. rewrite IH, filter_cons.
  destruct (decide (svc_key a = k /\ svc_ip a ∈ ips)) as [[Hk Hip]|Hno].
  - rewrite last_cons. destruct (last _); [done|].
    rewrite bool_decide_eq_true_2 by done. rewrite <- Hk. apply lookup_insert_eq.
  - destruct (last _); [done|].
    destruct (bool_decide (svc_ip a ∈ ips)) eqn:Hip; [|done].
    apply bool_decide_eq_true_1 in Hip.
    apply lookup_insert_ne. intros Hk. apply Hno. by split.
Qed.

(** For a single observation, the selected rows with its key are the
    rows with its key. *)
Lemma filter_key_single (o : ObsDict) (svcs : list Service) :
  filter (fun s => svc_key s = obs_key o /\ svc_ip s ∈ [ip o]) svcs
  = rows_with_key (obs_key o) svcs.
Proof.
  unfold rows_with_key. apply list_filter_iff. intros s. split; [by intros [? _]|].
  intros Hk. split; [done|]. unfold svc_key, obs_key in Hk.
  injection Hk as -> _ _. apply list_elem_of_singleton. done.
Qed.

Lemma existing_single (o : ObsDict) (svcs : list Service) :
  existing_map svcs [ip o] !! obs_key o
  = (fun s => (svc_id s, svc_banner s, svc_state s))
      <$> last (rows_with_key (obs_key o) svcs).
Proof.
  unfold existing_map. rewrite existing_fold_lookup, filter_key_single.
  by destruct (last _).
Qed.

(** An update keeps the key of every row. *)
Lemma update_service_key u s : svc_key (update_service u s) = svc_key s.
Proof. unfold update_service. by destruct (Z.eqb _ _). Qed.

Lemma rows_with_key_map_update (k : service_key) u (svcs : list Service) :
  rows_with_key k (map (update_service u) svcs)
  = map (update_service u) (rows_with_key k svcs).
Proof.
  unfold rows_with_key. induction svcs as [|a l IH]; [done|].
  cbn [map]. rewrite !filter_cons, update_service_key.
  destruct (decide (svc_key a = k)); cbn [map]; by rewrite IH.
Qed.

Lemma rows_with_key_none_existsb (k : service_key) (svcs : list Service) :
  rows_with_key k svcs = [] ->
  existsb (fun s => bool_decide (svc_key s = k)) svcs = false.
Proof.
  unfold rows_with_key. induction svcs as [|a l IH]; [done|].
  rewrite filter_cons. destruct (decide (svc_key a = k)); [discriminate|].
  intros H. cbn [existsb]. rewrite bool_decide_eq_false_2 by done. by apply IH.
Qed.

(** A first observation of a key inserts its Service row and writes no
    history. *)
Lemma save_single_insert (o : ObsDict) db :
  rows_with_key (obs_key o) (services db) = [] ->
  exists db' r,
    save_observation_batch [o] db = inl db' /\
    rows_with_key (obs_key o) (services db') = [r] /\
    svc_state r = status o /\ svc_banner r = banner o /\
    history db' = history db.
Proof.
  intros Hnone. unfold save_observation_batch, partition_batch.
  cbn [map fold_left]. unfold partition_step.
  rewrite existing_single, Hnone. cbn [last fmap option_fmap option_map app].
  cbn [insert_services insert_service].
  change (i_ip _, i_port _, i_protocol _) with (obs_key o).
  rewrite (rows_with_key_none_existsb _ _ Hnone).
  cbn [update_services fold_left].
  eexists _, _. split; [reflexivity|]. cbn [services history].
  split.
  { unfold rows_with_key in *. rewrite filter_app, Hnone. cbn [app].
    rewrite filter_cons, decide_True by done. done. }
  by repeat split.
Qed.

(** A later observation updates the row and writes history exactly on
    an observed change. *)
Lemma save_single_update (o : ObsDict) db r :
  rows_with_key (obs_key o) (services db) = [r] ->
  exists db' r',
    save_observation_batch [o] db = inl db' /\
    rows_with_key (obs_key o) (services db') = [r'] /\
    svc_state r' = status o /\
    svc_banner r' = Some (PyStr.or_empty (banner o)) /\
    map history_tuple (history db')
    = map history_tuple (history db)
      ++ (if change_observed o (svc_banner r) (svc_state r)
          then [(svc_id r, timestamp o, PyStr.or_empty (banner o), status o)]
          else []).
Proof.
  intros Hone.
  assert (Hex : existing_map (services db) [ip o] !! obs_key o
                = Some (svc_id r, svc_banner r, svc_state r)).
  { by rewrite existing_single, Hone. }
  destruct (save_observation_batch [o] db) as [db'|e] eqn:Hsave.
  - pose proof (save_batch_history _ _ _ Hsave) as Hhist.
    unfold history_due in Hhist. cbn [map flat_map] in Hhist.
    rewrite Hex, app_nil_r in Hhist.
    revert Hsave. unfold save_observation_batch, partition_batch.
    cbn [map fold_left]. unfold partition_step. rewrite Hex.
    cbn [insert_services update_services fold_left].
    destruct (fold_left insert_history _ _) as [hist hseq].
    intros [= <-]. cbn [history] in Hhist.
    eexists _, _. split; [reflexivity|]. cbn [services history].
    rewrite rows_with_key_map_update, Hone. cbn [map].
    split; [reflexivity|].
    unfold update_service. cbn [u_svc_id]. rewrite Z.eqb_refl.
    cbn [svc_state svc_banner u_state u_banner].
    split; [reflexivity|]. split; [reflexivity|]. exact Hhist.
  - exfalso. revert Hsave. unfold save_observation_batch, partition_batch.
    cbn [map fold_left]. unfold partition_step. rewrite Hex.
    cbn [insert_services]. by destruct (fold_left insert_history _ _).
Qed.

(** Against the row left by the previous observation, the observed
    change is the change between the two adjacent observations. *)
Lemma change_observed_adjacent (prev o : ObsDict) r :
  svc_state r = status prev ->
  (svc_banner r = banner prev \/
   svc_banner r = Some (PyStr.or_empty (banner prev))) ->
  change_observed o (svc_banner r) (svc_state r) = adjacent_change prev o.
Proof.
  intros -> Hb. unfold change_observed, adjacent_change. f_equal.
  unfold banner_nonempty, PyStr.or_empty.
  destruct (banner o) as [s|]; [|done].
  destruct (PyStr.truthy s) eqn:Hs; [|done]. cbn [andb]. f_equal.
  destruct Hb as [-> | ->]; [done|].
  destruct (banner prev) as [t|]; cbn.
  - done.
  - rewrite !bool_decide_eq_false_2; [done|discriminate|].
    intros [= ->]. discriminate.
Qed.

Lemma save_each_count (k : service_key) (l : list ObsDict) :
  forall (prev : ObsDict) db r,
  rows_with_key k (services db) = [r] ->
  svc_state r = status prev ->
  (svc_banner r = banner prev \/
   svc_banner r = Some (PyStr.or_empty (banner prev))) ->
  Forall (fun o => obs_key o = k) l ->
  exists db',
    save_each l db = inl db' /\
    length (history db')
    = (length (history db) + count_adjacent_changes (prev :: l))%nat.
Proof.
  induction l as [|o l IH]; intros prev db r Hone Hst Hb Hall.
  - exists db. split; [done|]. cbn. lia.
  - apply Forall_cons in Hall as [Hk Hall]. subst k.
    destruct (save_single_update o db r Hone)
      as (db1 & r1 & Hsave & Hone1 & Hst1 & Hb1 & Hhist).
    destruct (IH o db1 r1 Hone1 Hst1 (or_intror Hb1) Hall) as (db' & Heach & Hlen).
    exists db'. cbn [save_each]. rewrite Hsave. split; [done|].
    rewrite Hlen. apply (f_equal length) in Hhist.
    rewrite length_app, !length_map in Hhist. rewrite Hhist.
    rewrite (change_observed_adjacent prev o r Hst Hb).
    cbn [count_adjacent_changes].
    destruct (adjacent_change prev o); cbn [length]; lia.
Qed.

(** Over a sequence of single-observation batches for one new key,
    every batch commits and the number of history events written is the
    number of adjacent pairs of observations that differ. *)
Lemma save_each_new_key_count (first : ObsDict) rest db :
  rows_with_key (obs_key first) (services db) = [] ->
  Forall (fun o => obs_key o = obs_key first) rest ->
  exists db',
    save_each (first :: rest) db = inl db' /\
    length (history db')
    = (length (history db) + count_adjacent_changes (first :: rest))%nat.
Proof.
  intros Hnone Hall.
  destruct (save_single_insert first db Hnone)
    as (db1 & r1 & Hsave & Hone1 & Hst1 & Hb1 & Hhist).
  destruct (save_each_count _ rest first db1 r1 Hone1 Hst1 (or_introl Hb1) Hall)
    as (db' & Heach & Hlen).
  exists db'. cbn [save_each]. rewrite Hsave. split; [done|].
  by rewrite Hlen, Hhist.
Qed.

(** The same from a key that has its row: the first observation counts
    when it differs from the stored row. *)
Lemma save_each_stored_key_count (first : ObsDict) rest db r :
  rows_with_key (obs_key first) (services db) = [r] ->
  Forall (fun o => obs_key o = obs_key first) rest ->
  exists db',
    save_each (first :: rest) db = inl db' /\
    length (history db')
    = (length (history db)
       + (if change_observed first (svc_banner r) (svc_state r) then 1 else 0)
       + count_adjacent_changes (first :: rest))%nat.
Proof.
  intros Hone Hall.
  destruct (save_single_update first db r Hone)
    as (db1 & r1 & Hsave & Hone1 & Hst1 & Hb1 & Hhist).
  destruct (save_each_count _ rest first db1 r1 Hone1 Hst1 (or_intror Hb1) Hall)
    as (db' & Heach & Hlen).
  exists db'. cbn [save_each]. rewrite Hsave. split; [done|].
  rewrite Hlen. apply (f_equal length) in Hhist.
  rewrite length_app, !length_map in Hhist. rewrite Hhist.
  destruct (change_observed first _ _); cbn [length]; lia.
Qed.

(** The scenario of the specification: open with banner A, open with
    banner B, closed with an empty banner.  The row ends closed, and two
    history events are written (the banner change, then the state
    change). *)
Example history_on_change_scenario :
  let batches := [ssh_observation "open" (Some "SSH-2.0-A") 100;
                  ssh_observation "open" (Some "SSH-2.0-B") 200;
                  ssh_observation "closed" (Some "") 300] in
  (fun d => (map (fun s => (svc_state s, svc_banner s)) (services d),
             map history_tuple (history d)))
    <$> match save_each batches init_db with inl d => Some d | inr _ => None end
  = Some ([("closed", Some "")],
          [(1, 200, "SSH-2.0-B", "open"); (1, 300, "", "closed")]).
Proof. vm_compute. reflexivity. Qed.

(** C8 (the code against the claim): a batch that holds the same new
    key twice puts both observations in [to_insert]; the second INSERT
    violates UNIQUE(ip, port, protocol), the call raises and nothing of
    the batch is committed; and a batch that holds an existing key twice
    runs two UPDATEs of the one row and writes two history events, both
    checked against the row as it was before the batch. *)
Theorem duplicate_key_in_batch :
  let o1 := ssh_observation "open" (Some "SSH-2.0-A") 100 in
  let o2 := ssh_observation "open" (Some "SSH-2.0-B") 200 in
  let o3 := ssh_observation "open" (Some "SSH-2.0-C") 300 in
  save_observation_batch [o1; o2] init_db
  = inr (IntegrityError "services.ip, services.port, services.protocol") /\
  db_after (save_observation_batch [o1; o2] init_db) init_db = init_db /\
  (forall d1, save_observation_batch [o1] init_db = inl d1 ->
     length (partition_batch d1 [o2; o3]).1.2 = 2%nat /\
     exists d2, save_observation_batch [o2; o3] d1 = inl d2 /\
       map history_tuple (history d2)
       = [(1, 200, "SSH-2.0-B", "open"); (1, 300, "SSH-2.0-C", "open")]).
Proof.
  cbv zeta. split; [vm_compute; reflexivity|]. split; [vm_compute; reflexivity|].
  intros d1 Hd1. vm_compute in Hd1. injection Hd1 as <-.
  split; [vm_compute; reflexivity|].
  eexists. split; vm_compute; reflexivity.
Qed.

End StoreFacts.

(** ** The chunk table and the scheduler *)

Section ChunkFacts.

Import DbManager Scheduler.

Example plain_ip_network_host :
  plain_ip_network "127.0.0.2/32"
  = Some {| network_address := 2130706434; prefixlen := 32 |}.
Proof. reflexivity. Qed.

Example plain_ip_network_masks_host_bits :
  plain_ip_network "10.1.2.3/22"
  = Some {| network_address := 167837696; prefixlen := 22 |}.
Proof. reflexivity. Qed.

Example plain_ip_network_invalid : plain_ip_network "10.1.2.300/22" = None.
Proof. reflexivity. Qed.

Example ip_str_loopback : ip_str 2130706434 = "127.0.0.2".
Proof. reflexivity. Qed.

Lemma first_in_order_spec l : forall best,
  let b := first_in_order best l in
  In b (best :: l) /\ not_after b best /\ forall c, In c l -> not_after b c.
Proof.
  induction l as [|c l IH]; intros best; cbn [first_in_order].
  - split; [by left|]. split; [unfold not_after; lia | intros c []].
  - destruct (IH (if sorts_before c best then c else best)) as (Hin & Hbest & Hrest).
    set (b := first_in_order _ l) in *.
    assert (Hcb : not_after b best /\ not_after b c).
    { revert Hbest. unfold not_after, sorts_before.
      destruct (priority best <? priority c) eqn:H1; cbn [orb].
      - apply Z.ltb_lt in H1. lia.
      - apply Z.ltb_ge in H1.
        destruct (priority c =? priority best) eqn:H2; cbn [andb].
        + apply Z.eqb_eq in H2.
          destruct (created_at c <? created_at best) eqn:H3.
          * apply Z.ltb_lt in H3. lia.
          * apply Z.ltb_ge in H3. lia.
        + apply Z.eqb_neq in H2. lia. }
    split; [|split; [tauto|]].
    + destruct Hin as [Hin|Hin]; [|right; by right].
      destruct (sorts_before c best); [right; by left | by left].
    + intros c' [<-|Hc']; [tauto | by apply Hrest].
Qed.

(** The row selected by the query of [get_next_chunk]. *)
Lemma next_row_spec d :
  match next_row d with
  | Some b =>
      In b (scan_state d) /\ eligible b = true /\
      forall c, In c (scan_state d) -> eligible c = true -> not_after b c
  | None => forall c, In c (scan_state d) -> eligible c = false
  end.
Proof.
  unfold next_row.
  destruct (List.filter eligible (scan_state d)) as [|c0 rest] eqn:Hf.
  - intros c Hc. destruct (eligible c) eqn:He; [|done].
    assert (In c (List.filter eligible (scan_state d))) as Hin
      by (apply filter_In; by split).
    rewrite Hf in Hin. destruct Hin.
  - destruct (first_in_order_spec rest c0) as (Hin & Hbest & Hrest).
    set (b := first_in_order c0 rest) in *.
    assert (Hb : In b (List.filter eligible (scan_state d))) by by rewrite Hf.
    apply filter_In in Hb as [Hb1 Hb2].
    split; [done|]. split; [done|].
    intros c Hc He.
    assert (In c (List.filter eligible (scan_state d))) as Hin'
      by (apply filter_In; by split).
    rewrite Hf in Hin'. destruct Hin' as [<-|Hin']; [done | by apply Hrest].
Qed.

Lemma next_row_get d :
  DbManager.get_next_chunk d
  = (fun c => (chunk_id c, chunk_start c, chunk_end c, retry_count c))
      <$> next_row d.
Proof. reflexivity. Qed.

(** *** Maintenance, row by row *)

Lemma same_chunk_refl c : same_chunk c c.
Proof. by repeat split. Qed.

Lemma maintained_refl c : maintained c c.
Proof.
  split; [apply same_chunk_refl|]. split; [lia|]. split; [lia|]. by left.
Qed.

Lemma maintained_requeued c c1 c2 :
  maintained c c1 -> requeued c1 c2 -> maintained c c2.
Proof.
  intros (Hs & Hp & Hcap & Hst) (Hs' & Hp' & Hq).
  split; [|split; [lia|split; [lia|]]].
  - destruct Hs as (?&?&?&?&?&?), Hs' as (?&?&?&?&?&?).
    repeat split; congruence.
  - destruct Hq as [->|Hq]; [done | by right].
Qed.

Lemma Forall2_map_step (P Q : ScanChunk -> ScanChunk -> Prop)
  (f : ScanChunk -> ScanChunk) (l l1 : list ScanChunk) :
  (forall c c1, P c c1 -> Q c (f c1)) ->
  Forall2 P l l1 -> Forall2 Q l (map f l1).
Proof.
  intros Hstep H. induction H as [|c c1 l l1 Hc _ IH]; cbn [map]; constructor;
    [by apply Hstep | exact IH].
Qed.

Lemma Forall2_maintained_refl (l : list ScanChunk) : Forall2 maintained l l.
Proof. induction l; constructor; [apply maintained_refl | done]. Qed.

Lemma promote_rows age now d :
  Forall2 maintained (scan_state d) (scan_state (promote_ignored_chunks age now d)).
Proof.
  unfold promote_ignored_chunks. cbn [scan_state set_scan_state].
  apply (Forall2_map_step eq); [|by apply Forall_Forall2_diag, Forall_forall].
  intros c c1 <-.
  destruct (ChunkStatus_eqb (chunk_status c) QUEUED && (created_at c <? now - hours age))
    eqn:H1; cbn [andb]; [|apply maintained_refl].
  destruct (Z.ltb_spec (priority c) 10); [|apply maintained_refl].
  split; [by repeat split|]. cbn. split; [lia|]. split; [lia|]. by left.
Qed.

Lemma reset_rows_step id now (l l1 : list ScanChunk) d1 :
  scan_state d1 = l1 ->
  Forall2 maintained l l1 ->
  Forall2 maintained l (scan_state (reset_stale_chunk id now d1)).
Proof.
  intros <- H. unfold reset_stale_chunk. cbn [scan_state set_scan_state].
  apply (Forall2_map_step maintained); [|exact H].
  intros c c1 Hc. apply (maintained_requeued c c1); [done|].
  destruct (Z.eqb (chunk_id c1) id).
  - split; [by repeat split|]. split; [done|]. by right.
  - split; [apply same_chunk_refl|]. split; [done|]. by left.
Qed.

Lemma reset_all_rows rows now (l : list ScanChunk) : forall d1,
  Forall2 maintained l (scan_state d1) ->
  Forall2 maintained l (scan_state (reset_all rows now d1)).
Proof.
  unfold reset_all. induction rows as [|row rows IH]; intros d1 H; [done|].
  cbn [fold_left]. apply IH. by apply (reset_rows_step _ _ _ (scan_state d1)).
Qed.

(** What maintenance may do to each chunk. *)
Lemma maintain_rows now st :
  Forall2 maintained (scan_state (db st))
    (scan_state (db (maintain_queue_health now st))).
Proof.
  unfold maintain_queue_health.
  destruct (now - last_maintenance_ts st <? 3600);
    [apply Forall2_maintained_refl|].
  cbn [db]. apply reset_all_rows, reset_all_rows, promote_rows.
Qed.

(** One unfolding of the scheduler's [get_next_chunk] on a candidate
    with retries left. *)
Lemma get_next_chunk_returns fuel now st id s e rc :
  DbManager.get_next_chunk (db (maintain_queue_health now st)) = Some (id, s, e, rc) ->
  rc < MAX_RETRIES ->
  exists r, Scheduler.get_next_chunk (S fuel) now st = Some r /\
            returned r = Some (id, s, e).
Proof.
  intros Hnext Hrc. cbn [Scheduler.get_next_chunk]. rewrite Hnext.
  destruct (Z.leb_spec MAX_RETRIES rc); [lia|].
  eexists. split; reflexivity.
Qed.

(** C7: whenever some chunk is QUEUED or RETRYING, the store's
    [get_next_chunk] returns such a chunk, of the greatest priority
    among them and, among those of that priority, of the oldest
    [created_at]; and after enqueuing 127.0.0.1/32 at priority 1 and
    then 127.0.0.2/32 at priority 10 on a new database, the scheduler's
    [get_next_chunk] returns the chunk that starts at 127.0.0.2,
    whatever the clock shows at the three calls. *)
Theorem next_chunk_highest_priority_oldest :
  (forall d,
     (exists c, In c (scan_state d) /\ eligible c = true) ->
     exists b,
       DbManager.get_next_chunk d
       = Some (chunk_id b, chunk_start b, chunk_end b, retry_count b) /\
       In b (scan_state d) /\ eligible b = true /\
       forall c, In c (scan_state d) -> eligible c = true ->
         priority c <= priority b /\
         (priority c = priority b -> created_at b <= created_at c)) /\
  (forall ip_network now1 now2 now3,
     ip_network "127.0.0.1/32"
     = Some {| network_address := 2130706433; prefixlen := 32 |} ->
     ip_network "127.0.0.2/32"
     = Some {| network_address := 2130706434; prefixlen := 32 |} ->
     let st :=
       initialize_scan ip_network "127.0.0.2/32" 10 now2
         (initialize_scan ip_network "127.0.0.1/32" 1 now1 initial) in
     exists r,
       Scheduler.get_next_chunk (enough_fuel st) now3 st = Some r /\
       returned r = Some (2, "127.0.0.2", "127.0.0.2")).
Proof.
  split.
  - intros d (c & Hc & He). unfold DbManager.get_next_chunk.
    pose proof (next_row_spec d) as Hspec.
    destruct (next_row d) as [b|].
    + destruct Hspec as (Hb & Heb & Hall). exists b. split; [done|].
      split; [done|]. split; [done|]. intros c' Hc' He'. by apply Hall.
    + rewrite (Hspec c Hc) in He. discriminate.
  - intros ip_network now1 now2 now3 H1 H2 st.
    set (c1 := {| chunk_id := 1; cidr := "127.0.0.1/32"; chunk_start := "127.0.0.1";
                  chunk_end := "127.0.0.1"; chunk_status := QUEUED; priority := 1;
                  retry_count := 0; last_error := None; created_at := now1;
                  updated_at := now1 |}).
    set (c2 := {| chunk_id := 2; cidr := "127.0.0.2/32"; chunk_start := "127.0.0.2";
                  chunk_end := "127.0.0.2"; chunk_status := QUEUED; priority := 10;
                  retry_count := 0; last_error := None; created_at := now2;
                  updated_at := now2 |}).
    assert (Hst : scan_state (db st) = [c1; c2]).
    { subst st. unfold initialize_scan. rewrite H1, H2. reflexivity. }
    unfold enough_fuel.
    pose proof (maintain_rows now3 st) as Hrows. rewrite Hst in Hrows.
    set (st1 := maintain_queue_health now3 st) in *.
    inversion Hrows as [|? c1' ? l1 Hm1 Hrest Hx Hl]; subst.
    inversion Hrest as [|? c2' ? l2 Hm2 Hnil Hy Hl2]; subst.
    inversion Hnil; subst.
    rename Hl into Hst1. symmetry in Hst1.
    destruct Hm1 as (_ & Hp1 & _ & _).
    destruct Hm2 as ((Hid2 & _ & Hs2 & He2 & _) & Hp2 & _ & Hq2).
    cbn [priority c1 c2 chunk_status retry_count chunk_id chunk_start chunk_end]
      in Hp1, Hp2, Hq2, Hid2, Hs2, He2.
    assert (Helig2 : eligible c2' = true).
    { unfold eligible. by destruct Hq2 as [[-> _]|[-> _]]. }
    assert (Hrc2 : retry_count c2' = 0) by (by destruct Hq2 as [[_ ->]|[_ ->]]).
    pose proof (next_row_spec (db st1)) as Hspec.
    assert (Hget : DbManager.get_next_chunk (db st1) = Some (2, "127.0.0.2", "127.0.0.2", 0)).
    { rewrite next_row_get.
      destruct (next_row (db st1)) as [b|].
      - destruct Hspec as (Hb & _ & Hall). rewrite Hst1 in Hb, Hall.
        assert (b = c2') as ->.
        { destruct Hb as [<-|[<-|[]]]; [|done].
          destruct (Hall c2' (or_intror (or_introl eq_refl)) Helig2) as [Hle _]. lia. }
        cbn. by rewrite Hid2, Hs2, He2, Hrc2.
      - rewrite Hst1 in Hspec.
        rewrite (Hspec c2' (or_intror (or_introl eq_refl))) in Helig2. discriminate. }
    apply (get_next_chunk_returns _ now3 st _ _ _ 0 Hget). unfold MAX_RETRIES. lia.
Qed.

(** The engine's example with the parser of the plain forms. *)
Example priority_ordering_plain :
  let st :=
    initialize_scan plain_ip_network "127.0.0.2/32" 10 1700000005
      (initialize_scan plain_ip_network "127.0.0.1/32" 1 1700000000 initial) in
  (returned <$> Scheduler.get_next_chunk (enough_fuel st) 1700000010 st)
  = Some (Some (2, "127.0.0.2", "127.0.0.2")).
Proof. vm_compute. reflexivity. Qed.

(** C10: [reset_stale_chunk id] sets every chunk with that id to QUEUED
    with [retry_count = 0] and the current time as [updated_at],
    whatever its status was (COMPLETED or not); it leaves the other
    columns of that chunk, every other chunk, and the other tables as
    they were. *)
Theorem reset_stale_chunk_unconditional id now d :
  hosts (reset_stale_chunk id now d) = hosts d /\
  services (reset_stale_chunk id now d) = services d /\
  history (reset_stale_chunk id now d) = history d /\
  Forall2
    (fun c c' =>
       if Z.eqb (chunk_id c) id then
         chunk_status c' = QUEUED /\ retry_count c' = 0 /\ updated_at c' = now /\
         chunk_id c' = chunk_id c /\ cidr c' = cidr c /\
         chunk_start c' = chunk_start c /\ chunk_end c' = chunk_end c /\
         priority c' = priority c /\ last_error c' = last_error c /\
         created_at c' = created_at c
       else c' = c)
    (scan_state d) (scan_state (reset_stale_chunk id now d)).
Proof.
  repeat split. unfold reset_stale_chunk. cbn [scan_state set_scan_state].
  induction (scan_state d) as [|c l IH]; cbn [map]; constructor; [|exact IH].
  destruct (Z.eqb (chunk_id c) id); [by repeat split | done].
Qed.

(** A chunk that is being scanned, with two retries behind it, is put
    back in the queue with a clean retry count all the same. *)
Example reset_stale_chunk_on_scanning :
  let c := {| chunk_id := 7; cidr := "10.0.0.0/24"; chunk_start := "10.0.0.0";
              chunk_end := "10.0.0.255"; chunk_status := SCANNING;
              priority := 3; retry_count := 2; last_error := Some "boom";
              created_at := 100; updated_at := 200 |} in
  scan_state (reset_stale_chunk 7 900 (set_scan_state init_db [c] 7))
  = [{| chunk_id := 7; cidr := "10.0.0.0/24"; chunk_start := "10.0.0.0";
        chunk_end := "10.0.0.255"; chunk_status := QUEUED;
        priority := 3; retry_count := 0; last_error := Some "boom";
        created_at := 100; updated_at := 900 |}].
Proof. reflexivity. Qed.

End ChunkFacts.

(** ** Chunking of a target *)

Section InitializeFacts.

Import DbManager Scheduler.

Lemma create_scan_chunk_appends cidr0 s e p now d :
  exists c, scan_state (create_scan_chunk cidr0 s e p now d) = scan_state d ++ [c]
            /\ fresh_chunk p c.
Proof. eexists. split; [reflexivity|]. by repeat split. Qed.

Lemma create_fold_appends (cidr0 : string) (p now : Z) (l : list IPv4Network) :
  forall d,
  exists added,
    scan_state
      (fold_left
         (fun d subnet =>
            create_scan_chunk cidr0 (ip_str (first_address subnet))
              (ip_str (last_address subnet)) p now d) l d)
    = scan_state d ++ added /\
    length added = length l /\ Forall (fresh_chunk p) added.
Proof.
  induction l as [|n l IH]; intros d.
  - exists []. cbn. by rewrite app_nil_r.
  - cbn [fold_left].
    destruct (IH (create_scan_chunk cidr0 (ip_str (first_address n))
                    (ip_str (last_address n)) p now d)) as (added & Heq & Hlen & Hall).
    destruct (create_scan_chunk_appends cidr0 (ip_str (first_address n))
                (ip_str (last_address n)) p now d) as (c & Hc & Hfresh).
    exists (c :: added). rewrite Heq, Hc, <- app_assoc. cbn.
    split; [done|]. split; [by rewrite Hlen | by constructor].
Qed.

(** C5: for an IPv4 target with prefix length [p] (0 <= p <= 32),
    [initialize_scan] appends exactly max(1, 2^(24-p)) chunks when
    p <= 24 and exactly one chunk when p > 24, each QUEUED at the given
    priority with no retries, and keeps the chunks that were there; a
    target that [ip_network] rejects leaves the state as it was, and the
    call returns. *)
Theorem initialize_scan_chunk_count ip_network target priority0 now st :
  match ip_network target with
  | Some network =>
      0 <= prefixlen network <= 32 ->
      exists added,
        scan_state (db (initialize_scan ip_network target priority0 now st))
        = scan_state (db st) ++ added /\
        length added = expected_chunks (prefixlen network) /\
        Forall (fresh_chunk priority0) added
  | None => initialize_scan ip_network target priority0 now st = st
  end.
Proof.
  unfold initialize_scan.
  destruct (ip_network target) as [network|]; [|done].
  intros Hp. unfold num_addresses, CHUNK_SIZE, expected_chunks.
  set (p := prefixlen network) in *.
  destruct (Z.leb_spec (2 ^ (32 - p)) 256) as [Hsmall|Hbig].
  - assert (24 <= p).
    { destruct (Z.le_gt_cases 24 p) as [|Hlt]; [done|]. exfalso.
      assert (2 ^ 9 <= 2 ^ (32 - p)) by (apply Z.pow_le_mono_r; lia).
      change (2 ^ 9) with 512 in *. lia. }
    destruct (create_scan_chunk_appends (network_str network)
                (ip_str (first_address network)) (ip_str (last_address network))
                priority0 now (db st)) as (c & Hc & Hfresh).
    exists [c]. cbn [db set_db]. split; [done|]. split; [|by constructor].
    destruct (Z.leb_spec p 24) as [Hle|Hgt]; [|done].
    replace p with 24 by lia. reflexivity.
  - assert (p < 24).
    { destruct (Z.lt_ge_cases p 24) as [|Hge]; [done|]. exfalso.
      assert (2 ^ (32 - p) <= 2 ^ 8) by (apply Z.pow_le_mono_r; lia).
      change (2 ^ 8) with 256 in *. lia. }
    destruct (Z.ltb_spec p 24) as [_|]; [|lia].
    destruct (create_fold_appends target priority0 now (subnets24 network) (db st))
      as (added & Heq & Hlen & Hall).
    exists added. cbn [db set_db]. split; [done|]. split; [|done].
    rewrite Hlen. unfold subnets24. rewrite length_map, length_seq. fold p.
    destruct (Z.leb_spec p 24) as [_|]; [|lia].
    f_equal. assert (0 < 2 ^ (24 - p)) by (apply Z.pow_pos_nonneg; lia). lia.
Qed.

(** 10.1.2.3/22 is cut into the four /24 networks of 10.1.0.0/22. *)
Example initialize_scan_slash22 :
  map (fun c => (chunk_id c, cidr c, chunk_start c, chunk_end c))
      (scan_state (db (initialize_scan plain_ip_network "10.1.2.3/22" 1 50 initial)))
  = [(1, "10.1.2.3/22", "10.1.0.0", "10.1.0.255");
     (2, "10.1.2.3/22", "10.1.1.0", "10.1.1.255");
     (3, "10.1.2.3/22", "10.1.2.0", "10.1.2.255");
     (4, "10.1.2.3/22", "10.1.3.0", "10.1.3.255")].
Proof. vm_compute. reflexivity. Qed.

(** A /30 is one chunk, named by the network. *)
Example initialize_scan_slash30 :
  map (fun c => (chunk_id c, cidr c, chunk_start c, chunk_end c))
      (scan_state (db (initialize_scan plain_ip_network "192.168.1.9/30" 1 50 initial)))
  = [(1, "192.168.1.8/30", "192.168.1.8", "192.168.1.11")].
Proof. vm_compute. reflexivity. Qed.

(** A rejected target enqueues nothing. *)
Example initialize_scan_invalid :
  initialize_scan plain_ip_network "not-a-network" 1 50 initial = initial.
Proof. reflexivity. Qed.

End InitializeFacts.

(** ** The retry limit *)

Section RetryFacts.

Import DbManager Scheduler.

(** *** Maps over the chunk table *)

Lemma count_exhausted_map_le (f : ScanChunk -> ScanChunk) (l : list ScanChunk) :
  (forall c, exhausted (f c) = true -> exhausted c = true) ->
  (count_exhausted (map f l) <= count_exhausted l)%nat.
Proof.
  intros Hf. unfold count_exhausted. induction l as [|c l IH]; [done|].
  cbn [map List.filter].
  destruct (exhausted (f c)) eqn:Hfc.
  - rewrite (Hf c Hfc). cbn [length]. lia.
  - destruct (exhausted c); cbn [length]; lia.
Qed.

Lemma count_exhausted_map_lt (f : ScanChunk -> ScanChunk) (l : list ScanChunk) b :
  (forall c, exhausted (f c) = true -> exhausted c = true) ->
  In b l -> exhausted b = true -> exhausted (f b) = false ->
  (count_exhausted (map f l) < count_exhausted l)%nat.
Proof.
  intros Hf Hb Hex Hfb. induction l as [|c l IH]; [destruct Hb|].
  unfold count_exhausted in *. cbn [map List.filter].
  destruct Hb as [->|Hb].
  - rewrite Hex, Hfb. cbn [length].
    pose proof (count_exhausted_map_le f l Hf). unfold count_exhausted in *. lia.
  - specialize (IH Hb). destruct (exhausted (f c)) eqn:Hfc.
    + rewrite (Hf c Hfc). cbn [length]. lia.
    + destruct (exhausted c); cbn [length]; lia.
Qed.

Lemma count_exhausted_le_length (l : list ScanChunk) :
  (count_exhausted l <= length l)%nat.
Proof.
  unfold count_exhausted. induction l as [|c l IH]; [done|].
  cbn [List.filter]. destruct (exhausted c); cbn [length]; lia.
Qed.

(** *** Maintenance does not bring exhausted chunks back *)

Lemma promote_count age now d :
  (count_exhausted (scan_state (promote_ignored_chunks age now d))
   <= count_exhausted (scan_state d))%nat.
Proof.
  unfold promote_ignored_chunks. cbn [scan_state set_scan_state].
  apply count_exhausted_map_le. intros c.
  by destruct (_ && _ && _).
Qed.

Lemma reset_count id now d :
  (count_exhausted (scan_state (reset_stale_chunk id now d))
   <= count_exhausted (scan_state d))%nat.
Proof.
  unfold reset_stale_chunk. cbn [scan_state set_scan_state].
  apply count_exhausted_map_le. intros c.
  destruct (Z.eqb (chunk_id c) id); [|done]. by cbn.
Qed.

Lemma reset_all_count rows now d :
  (count_exhausted (scan_state (reset_all rows now d))
   <= count_exhausted (scan_state d))%nat.
Proof.
  unfold reset_all. revert d. induction rows as [|row rows IH]; intros d; [done|].
  cbn [fold_left]. etransitivity; [apply IH | apply reset_count].
Qed.

Lemma maintain_count now st :
  (count_exhausted (scan_state (db (maintain_queue_health now st)))
   <= count_exhausted (scan_state (db st)))%nat.
Proof.
  unfold maintain_queue_health.
  destruct (now - last_maintenance_ts st <? 3600); [done|]. cbn [db].
  etransitivity; [apply reset_all_count|].
  etransitivity; [apply reset_all_count|]. apply promote_count.
Qed.

Lemma maintain_settled now st : settled now (maintain_queue_health now st).
Proof.
  unfold settled, maintain_queue_health.
  destruct (now - last_maintenance_ts st <? 3600) eqn:H; [done|].
  cbn [last_maintenance_ts]. rewrite Z.sub_diag. reflexivity.
Qed.

Lemma maintain_when_settled now st :
  settled now st -> maintain_queue_health now st = st.
Proof. unfold settled, maintain_queue_health. by intros ->. Qed.

(** *** Failing the selected chunk *)

Lemma fail_count b now d :
  In b (scan_state d) -> exhausted b = true ->
  (count_exhausted
     (scan_state (update_chunk_status (chunk_id b) FAILED
                    (Some "Max Retries Exceeded") now d))
   < count_exhausted (scan_state d))%nat.
Proof.
  intros Hb Hex. unfold update_chunk_status. cbn [scan_state set_scan_state].
  apply (count_exhausted_map_lt _ _ b); [|done|done|].
  - intros c. destruct (Z.eqb (chunk_id c) (chunk_id b)); [|done]. by cbn.
  - rewrite Z.eqb_refl. by cbn.
Qed.

(** An update of another id leaves the rows of [id] alone. *)
Lemma rows_of_update_other id id' st0 err now d :
  id' <> id ->
  rows_of id (scan_state (update_chunk_status id' st0 err now d))
  = rows_of id (scan_state d).
Proof.
  intros Hne. unfold update_chunk_status, rows_of.
  cbn [scan_state set_scan_state].
  induction (scan_state d) as [|c l IH]; [done|]. cbn [map List.filter].
  destruct (Z.eqb_spec (chunk_id c) id') as [He|Hn].
  - assert ((chunk_id c =? id) = false) as Hc by (apply Z.eqb_neq; lia).
    rewrite Hc. destruct (error_given err); cbn [chunk_id set_status set_status_error];
      by rewrite Hc.
  - by rewrite IH.
Qed.

Lemma rows_of_In id (l : list ScanChunk) c :
  In c (rows_of id l) <-> In c l /\ chunk_id c = id.
Proof.
  unfold rows_of. rewrite filter_In. by rewrite Z.eqb_eq.
Qed.

(** *** One call of the scheduler's [get_next_chunk] *)

(** Once maintenance has run, a call leaves the rows of an id that are
    all FAILED as they are. *)
Lemma get_next_chunk_keeps_failed id now : forall fuel st r,
  settled now st ->
  Scheduler.get_next_chunk fuel now st = Some r ->
  (forall c, In c (scan_state (db st)) -> chunk_id c = id -> chunk_status c = FAILED) ->
  rows_of id (scan_state (db (after r))) = rows_of id (scan_state (db st)).
Proof.
  induction fuel as [|fuel IH]; intros st r Hset Hrun Hfailed; [discriminate|].
  cbn [Scheduler.get_next_chunk] in Hrun.
  rewrite (maintain_when_settled now st Hset) in Hrun.
  rewrite next_row_get in Hrun.
  pose proof (next_row_spec (db st)) as Hspec.
  destruct (next_row (db st)) as [b|]; cbn [fmap option_fmap option_map] in Hrun.
  - destruct Hspec as (Hb & Helig & _).
    assert (Hne : chunk_id b <> id).
    { intros Heq. specialize (Hfailed b Hb Heq).
      unfold eligible in Helig. rewrite Hfailed in Helig. discriminate. }
    destruct (MAX_RETRIES <=? retry_count b).
    + destruct (Scheduler.get_next_chunk fuel now _) as [r'|] eqn:Hrec; [|discriminate].
      injection Hrun as <-. cbn [after].
      rewrite (IH (set_db st _) r' Hset Hrec).
      * cbn [db set_db]. by apply rows_of_update_other.
      * cbn [db set_db]. intros c Hc Hid.
        assert (In c (rows_of id (scan_state
                  (update_chunk_status (chunk_id b) FAILED
                     (Some "Max Retries Exceeded") now (db st))))) as Hin
          by (by apply rows_of_In).
        rewrite rows_of_update_other in Hin by done.
        apply rows_of_In in Hin as [Hin _]. by apply Hfailed.
    + injection Hrun as <-. cbn [after db set_db].
      by apply rows_of_update_other.
  - by injection Hrun as <-.
Qed.

Lemma In_update_status id st0 err now d b :
  In b (scan_state d) -> chunk_id b = id ->
  In (if error_given err then set_status_error b st0 err now
      else set_status b st0 now)
     (scan_state (update_chunk_status id st0 err now d)).
Proof.
  intros Hb Hid. unfold update_chunk_status. cbn [scan_state set_scan_state].
  apply in_map_iff. exists b. split; [|done].
  subst id. by rewrite Z.eqb_refl.
Qed.

Lemma update_status_rows id st0 err now d c :
  In c (scan_state (update_chunk_status id st0 err now d)) -> chunk_id c = id ->
  chunk_status c = st0.
Proof.
  unfold update_chunk_status. cbn [scan_state set_scan_state].
  intros Hc Hid. apply in_map_iff in Hc as (c0 & Hc0 & _).
  destruct (Z.eqb_spec (chunk_id c0) id) as [He|Hn].
  - subst c. by destruct (error_given err).
  - subst c. done.
Qed.

(** With more fuel than exhausted chunks the call returns, and has
    done what [next_chunk_post] says. *)
Lemma get_next_chunk_total now : forall fuel st,
  (count_exhausted (scan_state (db st)) < fuel)%nat ->
  exists r, Scheduler.get_next_chunk fuel now st = Some r /\ next_chunk_post r.
Proof.
  induction fuel as [|fuel IH]; intros st Hfuel; [lia|].
  cbn [Scheduler.get_next_chunk].
  pose proof (maintain_count now st) as Hcount.
  pose proof (maintain_settled now st) as Hset.
  set (st1 := maintain_queue_health now st) in *.
  rewrite next_row_get.
  pose proof (next_row_spec (db st1)) as Hspec.
  destruct (next_row (db st1)) as [b|]; cbn [fmap option_fmap option_map].
  - destruct Hspec as (Hb & Helig & _).
    destruct (Z.leb_spec MAX_RETRIES (retry_count b)) as [Hex|Hok].
    + set (st2 := set_db st1 _).
      assert (Hexh : exhausted b = true).
      { unfold exhausted. rewrite Helig. cbn. by apply Z.leb_le. }
      destruct (IH st2) as (r' & Hrec & Hp1 & Hp2 & Hp3).
      { pose proof (fail_count b now (db st1) Hb Hexh). subst st2.
        cbn [db set_db]. lia. }
      rewrite Hrec. eexists. split; [reflexivity|].
      split; [exact Hp1|]. split; [|exact Hp3].
      cbn [warned after]. intros id [<-|Hid]; [|by apply Hp2].
      assert (Hall : forall c, In c (scan_state (db st2)) ->
                chunk_id c = chunk_id b -> chunk_status c = FAILED).
      { subst st2. cbn [db set_db]. intros c. apply update_status_rows. }
      assert (Hset2 : settled now st2) by exact Hset.
      pose proof (get_next_chunk_keeps_failed (chunk_id b) now fuel st2 r'
                    Hset2 Hrec Hall) as Hrows.
      split.
      * intros c Hc Hid.
        assert (In c (rows_of (chunk_id b) (scan_state (db (after r'))))) as Hin
          by (by apply rows_of_In).
        rewrite Hrows in Hin. apply rows_of_In in Hin as [Hin _]. by apply Hall.
      * pose proof (In_update_status (chunk_id b) FAILED
                      (Some "Max Retries Exceeded") now (db st1) b Hb eq_refl) as Hin.
        cbn [error_given PyStr.truthy] in Hin.
        exists (set_status_error b FAILED (Some "Max Retries Exceeded") now).
        split; [|split; [done | cbn; lia]].
        assert (In (set_status_error b FAILED (Some "Max Retries Exceeded") now)
                  (rows_of (chunk_id b) (scan_state (db st2)))) as Hin2
          by (apply rows_of_In; by split).
        rewrite <- Hrows in Hin2. by apply rows_of_In in Hin2 as [? _].
    + eexists. split; [reflexivity|]. split; [|split].
      * cbn [returned after db set_db]. intros id s e [= <- <- <-].
        exists (set_status b SCANNING now).
        split; [|by repeat split].
        exact (In_update_status (chunk_id b) SCANNING None now (db st1) b Hb eq_refl).
      * intros id [].
      * discriminate.
  - eexists. split; [reflexivity|]. split; [discriminate|]. split; [intros id []|].
    intros _. exact Hspec.
Qed.

(** *** One call, against the table it read *)

Lemma get_next_chunk_maintained now fuel st :
  Scheduler.get_next_chunk fuel now st
  = Scheduler.get_next_chunk fuel now (maintain_queue_health now st).
Proof.
  destruct fuel as [|fuel]; [done|]. cbn [Scheduler.get_next_chunk].
  by rewrite (maintain_when_settled now _ (maintain_settled now st)).
Qed.

Lemma fail_rows id now d :
  scan_state (update_chunk_status id FAILED (Some "Max Retries Exceeded") now d)
  = map (fun c => if chunk_id c =? id
                  then set_status_error c FAILED (Some "Max Retries Exceeded") now
                  else c)
        (scan_state d).
Proof. reflexivity. Qed.

(** An eligible row of the table after a chunk was failed is a row of
    the table before, of another id. *)
Lemma eligible_after_fail id now d c :
  In c (scan_state (update_chunk_status id FAILED
                      (Some "Max Retries Exceeded") now d)) ->
  eligible c = true ->
  In c (scan_state d) /\ chunk_id c <> id.
Proof.
  rewrite fail_rows. intros (c0 & Hc0 & Hin)%in_map_iff Hel.
  destruct (Z.eqb_spec (chunk_id c0) id) as [He|Hn].
  - subst c. discriminate.
  - by subst c.
Qed.

Lemma In_after_fail id now d c :
  In c (scan_state d) -> chunk_id c <> id ->
  In c (scan_state (update_chunk_status id FAILED
                      (Some "Max Retries Exceeded") now d)).
Proof.
  intros Hc Hne. rewrite fail_rows. apply in_map_iff. exists c.
  split; [|done]. by apply Z.eqb_neq in Hne as ->.
Qed.

Lemma exhausted_eligible c : exhausted c = true -> eligible c = true.
Proof. unfold exhausted. by intros [? _]%andb_prop. Qed.

(** Once maintenance has run, a call that returns has changed the table
    row by row as [row_after] says; the ids it warned about are ids of
    chunks that were eligible with their retries used up; and every
    eligible chunk of the table either was failed by the call or does
    not come before the chunk returned, which was eligible with retries
    left. *)
Lemma get_next_chunk_exact now : forall fuel st r,
  settled now st ->
  Scheduler.get_next_chunk fuel now st = Some r ->
  scan_state (db (after r)) = map (row_after now r) (scan_state (db st)) /\
  (forall id, In id (warned r) ->
     exists c, In c (scan_state (db st)) /\ chunk_id c = id /\
               exhausted c = true) /\
  (forall id s e, returned r = Some (id, s, e) ->
     exists b, In b (scan_state (db st)) /\ chunk_id b = id /\
               eligible b = true) /\
  (forall c, In c (scan_state (db st)) -> eligible c = true ->
     In (chunk_id c) (warned r) \/
     exists b, In b (scan_state (db st)) /\
       returned r = Some (chunk_id b, chunk_start b, chunk_end b) /\
       eligible b = true /\ retry_count b < MAX_RETRIES /\ not_after b c).
Proof.
  induction fuel as [|fuel IH]; intros st r Hset Hrun; [discriminate|].
  cbn [Scheduler.get_next_chunk] in Hrun.
  rewrite (maintain_when_settled now st Hset) in Hrun.
  rewrite next_row_get in Hrun.
  pose proof (next_row_spec (db st)) as Hspec.
  destruct (next_row (db st)) as [b|]; cbn [fmap option_fmap option_map] in Hrun.
  - destruct Hspec as (Hb & Helig & Hfirst).
    destruct (Z.leb_spec MAX_RETRIES (retry_count b)) as [Hex|Hok].
    + destruct (Scheduler.get_next_chunk fuel now _) as [r'|] eqn:Hrec;
        [|discriminate].
      injection Hrun as <-. cbn [after warned returned].
      destruct (IH (set_db st _) r' Hset Hrec) as (HE & HP & HR & HO).
      cbn [db set_db] in HE, HP, HR, HO.
      assert (Hnw : existsb (Z.eqb (chunk_id b)) (warned r') = false).
      { destruct (existsb _ _) eqn:E; [|done]. exfalso.
        apply existsb_exists in E as (id & Hid & Heq). apply Z.eqb_eq in Heq.
        subst id. destruct (HP _ Hid) as (c & Hc & Hcid & Hce).
        apply exhausted_eligible in Hce.
        by destruct (eligible_after_fail _ _ _ _ Hc Hce). }
      assert (Hnr : forall id s e, returned r' = Some (id, s, e) ->
                                   (chunk_id b =? id) = false).
      { intros id s e Hret. destruct (HR id s e Hret) as (b' & Hb' & Hid' & He').
        destruct (eligible_after_fail _ _ _ _ Hb' He') as [_ Hne].
        apply Z.eqb_neq. congruence. }
      split; [|split; [|split]].
      * rewrite HE, fail_rows, map_map. apply map_ext. intros c.
        unfold row_after at 2. cbn [warned returned existsb].
        destruct (Z.eqb_spec (chunk_id c) (chunk_id b)) as [He|Hn]; cbn [orb].
        -- unfold row_after.
           cbn [chunk_id set_status_error]. rewrite He, Hnw.
           destruct (returned r') as [[[id s] e]|] eqn:Hret; [|done].
           by rewrite (Hnr id s e eq_refl).
        -- reflexivity.
      * intros id [<-|Hid].
        -- exists b. split; [done|]. split; [done|].
           unfold exhausted. rewrite Helig. by apply Z.leb_le.
        -- destruct (HP id Hid) as (c & Hc & Hcid & Hce).
           destruct (eligible_after_fail _ _ _ _ Hc (exhausted_eligible _ Hce))
             as [Hin _].
           by exists c.
      * intros id s e Hret. destruct (HR id s e Hret) as (b' & Hb' & Hid' & He').
        destruct (eligible_after_fail _ _ _ _ Hb' He') as [Hin _]. by exists b'.
      * intros c Hc Hce.
        destruct (Z.eq_dec (chunk_id c) (chunk_id b)) as [He|Hn].
        -- left. left. done.
        -- destruct (HO c (In_after_fail _ now _ c Hc Hn) Hce)
             as [Hw | (b' & Hb' & Hret & He' & Hrc & Hna)].
           ++ left. by right.
           ++ right. exists b'.
              destruct (eligible_after_fail _ _ _ _ Hb' He') as [Hin _].
              split; [exact Hin|]. split; [exact Hret|]. split; [exact He'|].
              split; [exact Hrc|exact Hna].
    + injection Hrun as <-. cbn [after warned returned db set_db].
      split; [|split; [|split]].
      * reflexivity.
      * intros id [].
      * intros id s e [= <- <- <-]. by exists b.
      * intros c Hc Hce. right. exists b.
        split; [exact Hb|]. split; [reflexivity|]. split; [exact Helig|].
        split; [exact Hok|]. by apply Hfirst.
  - injection Hrun as <-. cbn [after warned returned].
    split; [|split; [|split]].
    + unfold row_after. cbn [warned returned existsb]. by rewrite map_id.
    + intros id [].
    + discriminate.
    + intros c Hc Hce. rewrite (Hspec c Hc) in Hce. discriminate.
Qed.

End RetryFacts.

(** ** The retry limit along the runs of the engine *)

Section InvariantFacts.

Import DbManager Scheduler Engine.

Lemma well_formed_init : well_formed init_db.
Proof. repeat split; constructor. Qed.

(** A row-wise update that keeps the ids keeps the table well formed
    when every new row respects the retry limit. *)
Lemma well_formed_map (f : ScanChunk -> ScanChunk) d :
  well_formed d ->
  (forall c, chunk_id (f c) = chunk_id c) ->
  (forall c, In c (scan_state d) -> chunk_ok (f c)) ->
  well_formed (set_scan_state d (map f (scan_state d)) (scan_state_seq d)).
Proof.
  intros (Hnd & Hseq & Hok) Hid Hf. unfold well_formed.
  cbn [scan_state scan_state_seq set_scan_state].
  rewrite map_map. rewrite (map_ext _ chunk_id) by exact Hid.
  split; [done|]. split.
  - apply List.Forall_forall. intros c' Hc'. apply in_map_iff in Hc' as (c & <- & Hc).
    rewrite Hid. by apply (proj1 (List.Forall_forall _ _) Hseq).
  - apply List.Forall_forall. intros c' Hc'. apply in_map_iff in Hc' as (c & <- & Hc).
    by apply Hf.
Qed.

Lemma well_formed_chunk_ok d c :
  well_formed d -> In c (scan_state d) -> chunk_ok c.
Proof. intros (_ & _ & Hok) Hc. by apply (proj1 (List.Forall_forall _ _) Hok). Qed.

(** Ids are unique: two rows with one id are one row. *)
Lemma unique_row (l : list ScanChunk) b c :
  NoDup (map chunk_id l) -> In b l -> In c l -> chunk_id c = chunk_id b -> c = b.
Proof.
  induction l as [|a l IH]; intros Hnd Hb Hc Hid; [destruct Hb|].
  cbn [map] in Hnd. apply NoDup_cons in Hnd as [Hnotin Hnd].
  assert (Hfresh : forall x, In x l -> chunk_id x <> chunk_id a).
  { intros x Hx Heq. apply Hnotin. apply list_elem_of_In, in_map_iff. by exists x. }
  destruct Hb as [->|Hb], Hc as [->|Hc]; try done.
  - exfalso. by apply (Hfresh c Hc).
  - exfalso. apply (Hfresh b Hb). done.
  - by apply IH.
Qed.

Lemma well_formed_create cidr0 s e p now d :
  well_formed d -> well_formed (create_scan_chunk cidr0 s e p now d).
Proof.
  intros (Hnd & Hseq & Hok). unfold well_formed, create_scan_chunk.
  cbn [scan_state scan_state_seq set_scan_state].
  rewrite map_app. cbn [map chunk_id]. split; [|split].
  - apply NoDup_app. split; [done|]. split; [|apply NoDup_singleton].
    intros x Hx Hx'. apply list_elem_of_singleton in Hx'. subst x.
    apply list_elem_of_In, in_map_iff in Hx as (c & Hc1 & Hc2).
    pose proof (proj1 (List.Forall_forall _ _) Hseq c Hc2) as Hle.
    cbn beta in Hle. lia.
  - apply Forall_app. split.
    + eapply Forall_impl; [exact Hseq|]. cbn. intros; lia.
    + constructor; [cbn; lia | constructor].
  - apply Forall_app. split; [done|]. constructor; [|constructor].
    unfold chunk_ok, MAX_RETRIES. cbn. split; [discriminate | lia].
Qed.

Lemma well_formed_initialize ip_network target p now st :
  well_formed (db st) ->
  well_formed (db (initialize_scan ip_network target p now st)).
Proof.
  intros Hwf. unfold initialize_scan.
  destruct (ip_network target) as [network|]; [|done].
  destruct (_ <=? _); [by apply well_formed_create|].
  destruct (_ <? _); [|by apply well_formed_create].
  cbn [db set_db]. revert Hwf. generalize (db st).
  induction (subnets24 network) as [|n l IH]; intros d Hwf; [done|].
  cbn [fold_left]. apply IH. by apply well_formed_create.
Qed.

Lemma well_formed_promote age now d :
  well_formed d -> well_formed (promote_ignored_chunks age now d).
Proof.
  intros Hwf. unfold promote_ignored_chunks. apply well_formed_map; [done| |].
  - intros c. by destruct (_ && _ && _).
  - intros c Hc. pose proof (well_formed_chunk_ok d c Hwf Hc) as Hok.
    by destruct (_ && _ && _).
Qed.

Lemma well_formed_reset id now d :
  well_formed d -> well_formed (reset_stale_chunk id now d).
Proof.
  intros Hwf. unfold reset_stale_chunk. apply well_formed_map; [done| |].
  - intros c. by destruct (Z.eqb _ _).
  - intros c Hc. pose proof (well_formed_chunk_ok d c Hwf Hc) as Hok.
    destruct (Z.eqb _ _); [|done].
    unfold chunk_ok, MAX_RETRIES. cbn. split; [discriminate | lia].
Qed.

Lemma well_formed_reset_all rows now d :
  well_formed d -> well_formed (reset_all rows now d).
Proof.
  unfold reset_all. revert d. induction rows as [|row rows IH]; intros d Hwf; [done|].
  cbn [fold_left]. apply IH. by apply well_formed_reset.
Qed.

Lemma well_formed_maintain now st :
  well_formed (db st) -> well_formed (db (maintain_queue_health now st)).
Proof.
  intros Hwf. unfold maintain_queue_health.
  destruct (_ <? _); [done|]. cbn [db].
  by apply well_formed_reset_all, well_formed_reset_all, well_formed_promote.
Qed.

(** An update of the status keeps the table well formed when the rows of
    the id respect the limit afterwards. *)
Lemma well_formed_update id st0 err now d :
  well_formed d ->
  (forall c, In c (scan_state d) -> chunk_id c = id ->
     chunk_ok (if error_given err then set_status_error c st0 err now
               else set_status c st0 now)) ->
  well_formed (update_chunk_status id st0 err now d).
Proof.
  intros Hwf Hrows. unfold update_chunk_status. apply well_formed_map; [done| |].
  - intros c. destruct (Z.eqb _ _); [|done]. by destruct (error_given err).
  - intros c Hc. destruct (Z.eqb_spec (chunk_id c) id) as [He|Hn].
    + by apply Hrows.
    + by apply (well_formed_chunk_ok d).
Qed.

(** A call keeps the table well formed, and the chunk it returns is
    SCANNING afterwards. *)
Lemma well_formed_get_next now : forall fuel st r,
  well_formed (db st) ->
  Scheduler.get_next_chunk fuel now st = Some r ->
  well_formed (db (after r)) /\
  forall id s e, returned r = Some (id, s, e) ->
    all_rows_in SCANNING id (db (after r)).
Proof.
  induction fuel as [|fuel IH]; intros st r Hwf Hrun; [discriminate|].
  cbn [Scheduler.get_next_chunk] in Hrun.
  pose proof (well_formed_maintain now st Hwf) as Hwf1.
  set (st1 := maintain_queue_health now st) in *.
  rewrite next_row_get in Hrun.
  pose proof (next_row_spec (db st1)) as Hspec.
  destruct (next_row (db st1)) as [b|]; cbn [fmap option_fmap option_map] in Hrun.
  - destruct Hspec as (Hb & Helig & _).
    destruct (Z.leb_spec MAX_RETRIES (retry_count b)) as [Hex|Hok].
    + destruct (Scheduler.get_next_chunk fuel now _) as [r'|] eqn:Hrec; [|discriminate].
      injection Hrun as <-. cbn [after returned].
      eapply IH; [|exact Hrec]. cbn [db set_db].
      apply well_formed_update; [done|]. intros c _ _.
      cbn [error_given PyStr.truthy]. split; cbn; [discriminate | done].
    + injection Hrun as <-. cbn [after returned db set_db]. split.
      * apply well_formed_update; [done|]. intros c Hc Hid.
        cbn [error_given].
        assert (c = b) as -> by (apply (unique_row (scan_state (db st1))); try done;
                                 apply Hwf1).
        split; cbn; [done | lia].
      * intros id s e [= <- <- <-] c Hc Hid.
        by apply (update_status_rows (chunk_id b) SCANNING None now (db st1)).
  - injection Hrun as <-. cbn [after returned]. split; [done | discriminate].
Qed.

Lemma well_formed_complete id now st :
  well_formed (db st) -> all_rows_in SCANNING id (db st) ->
  well_formed (db (complete_chunk id now st)).
Proof.
  intros Hwf Hscan. unfold complete_chunk. cbn [db set_db].
  apply well_formed_update; [done|]. intros c Hc Hid. cbn [error_given].
  destruct (well_formed_chunk_ok _ c Hwf Hc) as [Hs _].
  specialize (Hs (Hscan c Hc Hid)).
  unfold chunk_ok, MAX_RETRIES in *. split; cbn; intros; [discriminate | lia].
Qed.

Lemma well_formed_fail id err now st :
  well_formed (db st) -> all_rows_in SCANNING id (db st) ->
  well_formed (db (fail_chunk id err now st)).
Proof.
  intros Hwf Hscan. unfold fail_chunk. cbn [db set_db].
  apply well_formed_update; [done|]. intros c Hc Hid.
  destruct (well_formed_chunk_ok _ c Hwf Hc) as [Hs _].
  specialize (Hs (Hscan c Hc Hid)).
  destruct (error_given (Some err)); unfold chunk_ok, MAX_RETRIES in *;
    split; cbn; intros; try discriminate; lia.
Qed.

Lemma well_formed_iteration now outcome later st :
  well_formed (db st) -> well_formed (db (iteration now outcome later st)).
Proof.
  intros Hwf. unfold iteration.
  destruct (Scheduler.get_next_chunk (enough_fuel st) now st) as [r|] eqn:Hrun;
    [|done].
  destruct (well_formed_get_next now _ _ r Hwf Hrun) as [Hwf' Hscan].
  destruct (returned r) as [[[id s] e]|]; [|done].
  specialize (Hscan id s e eq_refl).
  destruct (_ || _); [by apply well_formed_fail|].
  destruct outcome; [by apply well_formed_complete | by apply well_formed_fail | done].
Qed.

Lemma well_formed_run ip_network events : forall st,
  well_formed (db st) -> well_formed (db (run ip_network events st)).
Proof.
  unfold run. induction events as [|e events IH]; intros st Hwf; [done|].
  cbn [fold_left]. apply IH. destruct e; cbn [step].
  - by apply well_formed_initialize.
  - by apply well_formed_iteration.
Qed.

(** C6: along every run of the engine from a new database, a chunk that
    is not FAILED has [retry_count <= MAX_RETRIES]; and a call of the
    scheduler's [get_next_chunk], on any state, returns (the recursion
    ends within one call more than there are chunks), never returns a
    chunk with [retry_count >= MAX_RETRIES], and has left FAILED every
    chunk it met with its retries used up before going on to the next
    candidate.  Against the table the call read the queue from (the
    table after maintenance): the table after the call is that table
    with the rows of the ids warned about FAILED, one more retry
    counted and the error recorded, the rows of the id returned
    SCANNING, and every other row as it was; an id is warned about only
    if a chunk of that id was eligible with [retry_count >= MAX_RETRIES];
    and every eligible chunk of the table either was failed by the call
    or does not come before the chunk returned in the order of the
    queue, so that a chunk with its retries used up is never passed
    over for a chunk behind it: it is FAILED by the call. *)
Theorem retry_limit_enforced :
  (forall ip_network events c,
     In c (scan_state (db (run ip_network events initial))) ->
     chunk_status c <> FAILED -> retry_count c <= MAX_RETRIES) /\
  (forall now st,
     exists r,
       Scheduler.get_next_chunk (enough_fuel st) now st = Some r /\
       (forall id s e, returned r = Some (id, s, e) ->
          exists c, In c (scan_state (db (after r))) /\
            chunk_id c = id /\ chunk_start c = s /\ chunk_end c = e /\
            chunk_status c = SCANNING /\ retry_count c < MAX_RETRIES) /\
       (forall id, In id (warned r) ->
          (forall c, In c (scan_state (db (after r))) -> chunk_id c = id ->
             chunk_status c = FAILED) /\
          (exists c, In c (scan_state (db (after r))) /\ chunk_id c = id /\
             MAX_RETRIES < retry_count c)) /\
       (returned r = None ->
          forall c, In c (scan_state (db (after r))) -> eligible c = false) /\
       (let table := scan_state (db (maintain_queue_health now st)) in
        scan_state (db (after r)) = map (row_after now r) table /\
        (forall id, In id (warned r) ->
           exists c, In c table /\ chunk_id c = id /\
             eligible c = true /\ MAX_RETRIES <= retry_count c) /\
        (forall c, In c table -> eligible c = true ->
           In (chunk_id c) (warned r) \/
           exists b, In b table /\
             returned r = Some (chunk_id b, chunk_start b, chunk_end b) /\
             eligible b = true /\ retry_count b < MAX_RETRIES /\
             not_after b c))).
Proof.
  split.
  - intros ip_network events c Hc Hnf.
    pose proof (well_formed_run ip_network events initial well_formed_init) as Hwf.
    destruct (well_formed_chunk_ok _ c Hwf Hc) as [_ Hle]. by apply Hle.
  - intros now st.
    destruct (get_next_chunk_total now (enough_fuel st) st)
      as (r & Hrun & Hp1 & Hp2 & Hp3).
    { unfold enough_fuel. pose proof (count_exhausted_le_length (scan_state (db st))). lia. }
    exists r. split; [done|]. split; [exact Hp1|]. split; [exact Hp2|].
    split; [exact Hp3|]. cbv zeta.
    rewrite get_next_chunk_maintained in Hrun.
    destruct (get_next_chunk_exact now _ _ r (maintain_settled now st) Hrun)
      as (HE & HP & _ & HO).
    split; [exact HE|]. split; [|exact HO].
    intros id Hid. destruct (HP id Hid) as (c & Hc & Hcid & Hce).
    exists c. split; [exact Hc|]. split; [exact Hcid|].
    unfold exhausted in Hce. apply andb_prop in Hce as [He Hr].
    split; [exact He|]. by apply Z.leb_le.
Qed.

(** The table of the example below: chunk 1 is RETRYING with three
    retries behind it and priority 9, chunk 2 is QUEUED with priority 1.
    The call fails chunk 1 (four retries recorded), warns about it and
    hands out chunk 2. *)
Example exhausted_chunk_failed_before_next :
  let c id st0 p rc :=
    {| chunk_id := id; cidr := "10.0.0.0/23"; chunk_start := "10.0.0.0";
       chunk_end := "10.0.0.255"; chunk_status := st0; priority := p;
       retry_count := rc; last_error := None; created_at := 10;
       updated_at := 10 |} in
  let st := {| last_maintenance_ts := 40;
               db := set_scan_state init_db [c 1 RETRYING 9 3; c 2 QUEUED 1 0] 2 |} in
  (fun r => (returned r, warned r,
             map (fun c => (chunk_id c, chunk_status c, retry_count c, last_error c))
                 (scan_state (db (after r)))))
    <$> Scheduler.get_next_chunk (enough_fuel st) 50 st
  = Some (Some (2, "10.0.0.0", "10.0.0.255"), [1],
          [(1, FAILED, 4, Some "Max Retries Exceeded"); (2, SCANNING, 0, None)]).
Proof. vm_compute. reflexivity. Qed.

(** A chunk whose scan raises three times is RETRYING with three
    retries; the next call marks it FAILED (four retries recorded),
    warns about it, and returns nothing. *)
Example three_failures_then_failed :
  let events := [Initialize "127.0.0.1/32" 1 10;
                 Iterate 20 (ScanRaises "boom") 21;
                 Iterate 30 (ScanRaises "boom") 31;
                 Iterate 40 (ScanRaises "boom") 41] in
  let st := run plain_ip_network events initial in
  map (fun c => (chunk_status c, retry_count c)) (scan_state (db st))
  = [(RETRYING, 3)] /\
  (fun r => (returned r, warned r,
             map (fun c => (chunk_status c, retry_count c))
                 (scan_state (db (after r)))))
    <$> Scheduler.get_next_chunk (enough_fuel st) 50 st
  = Some (None, [1], [(FAILED, 4)]).
Proof. vm_compute. split; reflexivity. Qed.

(** An exception whose message is empty is retried without being
    counted: [if error:] is false for the empty string. *)
Example empty_error_not_counted :
  let events := [Initialize "127.0.0.1/32" 1 10;
                 Iterate 20 (ScanRaises "") 21] in
  map (fun c => (chunk_status c, retry_count c, last_error c))
      (scan_state (db (run plain_ip_network events initial)))
  = [(RETRYING, 0, None)].
Proof. vm_compute. reflexivity. Qed.

End InvariantFacts.

(** ** The probe set *)

Section ProbeFacts.

Import Probes.

Variable decode_ignore : string -> string.
Variable decode_strict : string -> Outcome string.
Variable py_int : string -> option Z.
Variable py_lower : string -> string.

Local Abbreviation run_probe := (run decode_ignore decode_strict py_int py_lower).

(** The classes [get_probe] hands out, port by port. *)
Lemma get_probe_class port0 :
  probe_port (get_probe port0) = port0 /\
  probe_class (get_probe port0)
  = if bool_decide (port0 ∈ [80; 8080; 8000; 443; 8443]) then HTTPProbe
    else if port0 =? 5900 then VNCProbe
    else if port0 =? 21 then FTPProbe
    else if port0 =? 22 then SSHProbe
    else if port0 =? 554 then RTSPProbe
    else if port0 =? 23 then TelnetProbe
    else if port0 =? 1883 then MQTTProbe
    else TCPProbe.
Proof.
  unfold get_probe.
  repeat (match goal with |- context [if ?b then _ else _] => destruct b end);
    split; reflexivity.
Qed.

(** A failed connection, class by class. *)
Lemma run_failing_peer (p : Probe) ip_address now e :
  fst (run_probe p ip_address now (failing_peer e))
  = match probe_class p with
    | TCPProbe =>
        match e with
        | TimeoutError _ =>
            Returns (observation ip_address (probe_port p) "tcp" "timeout" now
                       (Some "Timeout") None)
        | ConnectionRefusedError _ =>
            Returns (observation ip_address (probe_port p) "tcp" "closed" now
                       (Some "Refused") None)
        | OSError m =>
            Returns (observation ip_address (probe_port p) "tcp" "error" now
                       (Some m) None)
        | _ => Raises e
        end
    | c => Returns (closed_on_exception ip_address (probe_port p)
                      (failure_service c) now e)
    end.
Proof.
  unfold run. destruct (probe_class p); try reflexivity.
  by destruct e.
Qed.

(** C2 (the code against the claim): on a connection that times out or
    fails with another I/O error, every probe [get_probe] returns
    answers with an Observation, but only the generic TCP probe
    classifies the failure (timeout, error); the seven protocol probes
    catch every exception alike and answer status "closed" with the
    message as [error_reason]. *)
Theorem protocol_probes_answer_closed port0 ip_address now msg :
  let answer e := fst (run_probe (get_probe port0) ip_address now (failing_peer e)) in
  match probe_class (get_probe port0) with
  | TCPProbe =>
      answer (TimeoutError msg)
      = Returns (observation ip_address port0 "tcp" "timeout" now (Some "Timeout") None) /\
      answer (ConnectionRefusedError msg)
      = Returns (observation ip_address port0 "tcp" "closed" now (Some "Refused") None) /\
      answer (OSError msg)
      = Returns (observation ip_address port0 "tcp" "error" now (Some msg) None)
  | c =>
      answer (TimeoutError msg)
      = Returns (observation ip_address port0 (failure_service c) "closed" now
                   (Some msg) None) /\
      answer (ConnectionRefusedError msg)
      = Returns (observation ip_address port0 (failure_service c) "closed" now
                   (Some msg) None) /\
      answer (OSError msg)
      = Returns (observation ip_address port0 (failure_service c) "closed" now
                   (Some msg) None)
  end.
Proof.
  cbv beta zeta. rewrite !run_failing_peer.
  destruct (get_probe_class port0) as [-> _].
  destruct (probe_class (get_probe port0)); repeat split; reflexivity.
Qed.

(** C9 (the code against the claim): the module never imports [re], so
    the Telnet probe answers "closed" whatever the peer does; when the
    connection succeeds and bytes are read, the reason is the NameError
    raised by [re.sub], and no banner is reported. *)
Theorem telnet_probe_never_open ip_address now :
  (forall w, exists e,
     fst (run_probe (get_probe 23) ip_address now w)
     = Returns (closed_on_exception ip_address 23 "telnet" now e)) /\
  (forall data rest drains cr out,
     fst (run_probe (get_probe 23) ip_address now
            {| connect_result := None; incoming := inr data :: rest;
               drain_results := drains; close_result := cr; sent := out |})
     = Returns (observation ip_address 23 "telnet" "closed" now
                  (Some "name 're' is not defined") None)).
Proof.
  split.
  - intros w. change (run_probe (get_probe 23) ip_address now)
      with (TelnetProbe_run decode_ignore 23 ip_address now).
    unfold TelnetProbe_run, try_except, mbind, IO_bind, bind, open_connection, read.
    destruct (connect_result w); [eexists; reflexivity|].
    destruct (incoming w) as [|[e'|data] rest]; [| |destruct (Nat.leb _ _)];
      eexists; reflexivity.
  - intros data rest drains cr out.
    change (run_probe (get_probe 23) ip_address now)
      with (TelnetProbe_run decode_ignore 23 ip_address now).
    unfold TelnetProbe_run, try_except, mbind, IO_bind, bind, open_connection, read.
    cbn [connect_result incoming]. by destruct (Nat.leb _ _).
Qed.

End ProbeFacts.

(** ** More on the observation store *)

Section StoreExtras.

Import DbManager.

(** *** The Service row follows the last observation *)

Lemma save_each_row (k : service_key) (l : list ObsDict) :
  forall (prev : ObsDict) db r,
  rows_with_key k (services db) = [r] ->
  Forall (fun o => obs_key o = k) l ->
  l <> [] ->
  exists db' r',
    save_each l db = inl db' /\
    rows_with_key k (services db') = [r'] /\
    svc_state r' = status (List.last l prev) /\
    svc_banner r' = Some (PyStr.or_empty (banner (List.last l prev))) /\
    svc_id r' = svc_id r /\ svc_first_seen r' = svc_first_seen r.
Proof.
  induction l as [|o l IH]; intros prev db r Hone Hall Hne; [done|].
  apply Forall_cons in Hall as [Hk Hall]. subst k.
  destruct (save_single_update o db r Hone)
    as (db1 & r1 & Hsave & Hone1 & Hst1 & Hb1 & _).
  assert (Hid1 : svc_id r1 = svc_id r /\ svc_first_seen r1 = svc_first_seen r).
  { revert Hsave Hone1. unfold save_observation_batch, partition_batch.
    cbn [map fold_left]. unfold partition_step.
    rewrite existing_single, Hone. cbn [last fmap option_fmap option_map].
    cbn [insert_services update_services fold_left].
    destruct (fold_left insert_history _ _) as [hist hseq].
    intros [= <-]. cbn [services].
    rewrite rows_with_key_map_update, Hone. cbn [map].
    intros [= <-]. unfold update_service. cbn [u_svc_id]. by rewrite Z.eqb_refl. }
  cbn [save_each]. rewrite Hsave.
  destruct l as [|o' l'].
  - exists db1, r1. cbn. by repeat split; try apply Hid1.
  - destruct (IH prev db1 r1 Hone1 Hall)
      as (db' & r' & Heach & Hone' & Hst' & Hb' & Hid' & Hfs'); [done|].
    exists db', r'. split; [done|]. split; [done|].
    change (List.last (o :: o' :: l') prev) with (List.last (o' :: l') prev).
    repeat split; try done; destruct Hid1; congruence.
Qed.

(** Over any sequence of single-observation batches for one new key,
    every batch commits and the one Service row of the key ends with the
    status of the last observation as its state and with the last
    banner ([None] kept by a lone insert, read as "" by an update). *)
Theorem final_row_is_last_observation (first : ObsDict) (rest : list ObsDict) db :
  rows_with_key (obs_key first) (services db) = [] ->
  Forall (fun o => obs_key o = obs_key first) rest ->
  exists db' r,
    save_each (first :: rest) db = inl db' /\
    rows_with_key (obs_key first) (services db') = [r] /\
    svc_state r = status (last_obs first rest) /\
    svc_banner r = stored_banner first rest /\
    svc_first_seen r = timestamp first.
Proof.
  intros Hnone Hall.
  destruct (save_single_insert first db Hnone)
    as (db1 & r1 & Hsave & Hone1 & Hst1 & Hb1 & _).
  assert (Hfs : svc_first_seen r1 = timestamp first).
  { revert Hsave Hone1. unfold save_observation_batch, partition_batch.
    cbn [map fold_left]. unfold partition_step.
    rewrite existing_single, Hnone. cbn [last fmap option_fmap option_map app].
    cbn [insert_services insert_service].
    change (i_ip _, i_port _, i_protocol _) with (obs_key first).
    rewrite (rows_with_key_none_existsb _ _ Hnone).
    cbn [update_services fold_left]. intros [= <-]. cbn [services].
    unfold rows_with_key in *. rewrite filter_app, Hnone. cbn [app].
    rewrite filter_cons, decide_True by done. by intros [= <-]. }
  cbn [save_each]. rewrite Hsave. destruct rest as [|o rest'].
  - exists db1, r1. by repeat split.
  - destruct (save_each_row _ (o :: rest') first db1 r1 Hone1 Hall)
      as (db' & r' & Heach & Hone' & Hst' & Hb' & _ & Hfs'); [done|].
    exists db', r'. unfold last_obs, stored_banner.
    repeat split; try done. congruence.
Qed.

Lemma final_row_is_last_observation_witness :
  exists db' r,
    save_each [ssh_observation "open" (Some "SSH-2.0-A") 100;
               ssh_observation "closed" None 200] init_db = inl db' /\
    rows_with_key ("1.2.3.4", 22, "tcp") (services db') = [r] /\
    svc_state r = "closed" /\ svc_banner r = Some "" /\ svc_first_seen r = 100.
Proof.
  apply (final_row_is_last_observation
           (ssh_observation "open" (Some "SSH-2.0-A") 100)
           [ssh_observation "closed" None 200] init_db).
  - reflexivity.
  - repeat constructor.
Defined.

(** *** Keys stay unique *)

Lemma update_services_keys us : forall svcs,
  map svc_key (update_services svcs us) = map svc_key svcs.
Proof.
  unfold update_services. induction us as [|u us IH]; intros svcs; [done|].
  cbn [fold_left]. rewrite IH, map_map. apply map_ext. apply update_service_key.
Qed.

Lemma existsb_key_false (k : service_key) (svcs : list Service) :
  existsb (fun s => bool_decide (svc_key s = k)) svcs = false ->
  k ∉ map svc_key svcs.
Proof.
  intros Hex Hin. apply list_elem_of_In, in_map_iff in Hin as (s & Hs & Hin).
  assert (existsb (fun s => bool_decide (svc_key s = k)) svcs = true) as Ht.
  { apply existsb_exists. exists s. split; [done|]. by apply bool_decide_eq_true_2. }
  congruence.
Qed.

Lemma insert_services_keys ts : forall svcs seq svcs' seq',
  NoDup (map svc_key svcs) ->
  insert_services (svcs, seq) ts = Some (svcs', seq') ->
  NoDup (map svc_key svcs').
Proof.
  induction ts as [|t ts IH]; intros svcs seq svcs' seq' Hnd Hins.
  - by injection Hins as <- <-.
  - cbn [insert_services insert_service] in Hins.
    destruct (existsb _ svcs) eqn:Hex; [discriminate|].
    eapply IH; [|exact Hins].
    rewrite map_app. cbn [map]. apply NoDup_app. split; [done|].
    split; [|apply NoDup_singleton].
    intros k Hk Hk'. apply list_elem_of_singleton in Hk'. subst k.
    by apply (existsb_key_false _ _ Hex).
Qed.

(** A committed batch leaves no two Service rows with the same
    (ip, port, protocol), whatever the batch holds. *)
Theorem save_batch_keeps_keys_unique observations db db' :
  NoDup (map svc_key (services db)) ->
  save_observation_batch observations db = inl db' ->
  NoDup (map svc_key (services db')).
Proof.
  intros Hnd. unfold save_observation_batch.
  destruct observations as [|o l]; [by intros [= <-]|].
  destruct (partition_batch db (o :: l)) as [[ti tu] hi].
  destruct (insert_services _ ti) as [[svcs1 sseq]|] eqn:Hins; [|discriminate].
  destruct (fold_left insert_history hi _) as [hist hseq].
  intros [= <-]. cbn [services]. rewrite update_services_keys.
  by apply (insert_services_keys ti (services db) (services_seq db) svcs1 sseq).
Qed.

Lemma save_batch_keeps_keys_unique_witness :
  let http_observation ip0 ts : ObsDict :=
    {| obs := Probes.observation ip0 80 "http" "open" ts None None;
       analysis := None |} in
  let db := db_after (save_observation_batch
                        [ssh_observation "open" (Some "SSH-2.0-A") 100;
                         http_observation "1.2.3.5" 100] init_db) init_db in
  let batch := [http_observation "1.2.3.6" 200;
                ssh_observation "closed" None 200;
                http_observation "1.2.3.5" 200] in
  let db' := db_after (save_observation_batch batch db) db in
  map (fun s => (svc_key s, svc_state s, svc_last_seen s)) (services db)
  = [(("1.2.3.4", 22, "tcp"), "open", 100); (("1.2.3.5", 80, "tcp"), "open", 100)] /\
  map (fun s => (svc_key s, svc_state s, svc_last_seen s)) (services db')
  = [(("1.2.3.4", 22, "tcp"), "closed", 200); (("1.2.3.5", 80, "tcp"), "open", 200);
     (("1.2.3.6", 80, "tcp"), "open", 200)] /\
  NoDup (map svc_key (services db')).
Proof.
  intros http_observation db batch db'.
  split; [vm_compute; reflexivity|]. split; [vm_compute; reflexivity|].
  apply (save_batch_keeps_keys_unique batch db).
  - apply (bool_decide_unpack _). vm_compute. reflexivity.
  - vm_compute. reflexivity.
Defined.

(** *** Hosts *)

Lemma upsert_host_ips hs ip0 ts :
  map host_ip (upsert_host hs ip0 ts)
  = if bool_decide (ip0 ∈ map host_ip hs) then map host_ip hs
    else map host_ip hs ++ [ip0].
Proof.
  induction hs as [|h hs IH]; [done|]. cbn [upsert_host map].
  destruct (String.eqb_spec (host_ip h) ip0) as [Heq|Hne].
  - cbn [map host_ip]. rewrite bool_decide_eq_true_2; [done|].
    rewrite Heq. apply list_elem_of_here.
  - cbn [map]. rewrite IH.
    destruct (bool_decide (ip0 ∈ map host_ip hs)) eqn:Hin.
    + apply bool_decide_eq_true_1 in Hin.
      rewrite bool_decide_eq_true_2; [done | by apply list_elem_of_further].
    + apply bool_decide_eq_false_1 in Hin.
      rewrite bool_decide_eq_false_2; [done|].
      intros Hc. apply elem_of_cons in Hc as [Hc|Hc]; [congruence | done].
Qed.

Lemma upsert_host_first_seen hs ip0 ts h :
  In h hs ->
  exists h', In h' (upsert_host hs ip0 ts) /\ host_ip h' = host_ip h /\
             host_first_seen h' = host_first_seen h /\
             (host_ip h <> ip0 -> h' = h).
Proof.
  induction hs as [|a hs IH]; [intros []|]. cbn [upsert_host].
  intros [<-|Hin].
  - destruct (String.eqb_spec (host_ip a) ip0) as [Heq|Hne].
    + eexists. split; [by left|]. by repeat split.
    + exists a. split; [by left|]. by repeat split.
  - destruct (IH Hin) as (h' & Hin' & Hip & Hfs & Hsame).
    destruct (String.eqb_spec (host_ip a) ip0) as [Heq|Hne].
    + exists h. split; [by right|]. by repeat split.
    + exists h'. split; [by right|]. by repeat split.
Qed.

Lemma upsert_host_present hs ip0 ts :
  exists h, In h (upsert_host hs ip0 ts) /\ host_ip h = ip0 /\ host_last_seen h = ts.
Proof.
  induction hs as [|a hs IH]; cbn [upsert_host].
  - eexists. split; [by left|]. by split.
  - destruct (String.eqb_spec (host_ip a) ip0) as [Heq|Hne].
    + eexists. split; [by left|]. by split.
    + destruct IH as (h & Hin & Hip & Hls). exists h. split; [by right|]. by split.
Qed.

(** The host upsert of a batch keeps one row per ip, never changes the
    [first_seen] of a host that was there (nor anything of a host whose
    ip is not in the batch), and leaves a host row for every ip of the
    batch. *)
Theorem upsert_host_batch_spec (hosts_data : list (string * Z)) : forall hs,
  NoDup (map host_ip hs) ->
  NoDup (map host_ip (upsert_host_batch hs hosts_data)) /\
  (forall h, In h hs ->
     exists h', In h' (upsert_host_batch hs hosts_data) /\
       host_ip h' = host_ip h /\ host_first_seen h' = host_first_seen h /\
       (host_ip h ∉ map fst hosts_data -> h' = h)) /\
  (forall ip0, ip0 ∈ map fst hosts_data ->
     exists h', In h' (upsert_host_batch hs hosts_data) /\ host_ip h' = ip0).
Proof.
  unfold upsert_host_batch.
  induction hosts_data as [|[ip0 ts] l IH]; intros hs Hnd.
  - cbn. split; [done|]. split.
    + intros h Hh. exists h. by repeat split.
    + intros ip0 Hin. by apply elem_of_nil in Hin.
  - cbn [fold_left fst snd map].
    assert (Hnd1 : NoDup (map host_ip (upsert_host hs ip0 ts))).
    { rewrite upsert_host_ips. destruct (bool_decide _) eqn:Hin; [done|].
      apply bool_decide_eq_false_1 in Hin. apply NoDup_app. split; [done|].
      split; [|apply NoDup_singleton].
      intros x Hx Hx'. apply list_elem_of_singleton in Hx'. by subst x. }
    destruct (IH _ Hnd1) as (Hn & Hold & Hnew). split; [done|]. split.
    + intros h Hh.
      destruct (upsert_host_first_seen hs ip0 ts h Hh) as (h1 & Hin1 & Hip1 & Hfs1 & Hs1).
      destruct (Hold h1 Hin1) as (h' & Hin' & Hip' & Hfs' & Hs').
      exists h'. split; [done|]. split; [congruence|]. split; [congruence|].
      intros Hnot. rewrite Hs'.
      * apply Hs1. intros Heq. apply Hnot. rewrite Heq. apply list_elem_of_here.
      * rewrite Hip1. intros Hc. apply Hnot. by apply list_elem_of_further.
    + intros ip1 Hin. apply elem_of_cons in Hin as [->|Hin]; [|by apply Hnew].
      destruct (upsert_host_present hs ip0 ts) as (h1 & Hin1 & Hip1 & _).
      destruct (Hold h1 Hin1) as (h' & Hin' & Hip' & _).
      exists h'. split; [done | congruence].
Qed.

Lemma upsert_host_batch_spec_witness :
  NoDup (map host_ip (upsert_host_batch [] [("1.2.3.4", 100); ("1.2.3.4", 200)])) /\
  (forall h, In h [] ->
     exists h', In h' (upsert_host_batch [] [("1.2.3.4", 100); ("1.2.3.4", 200)]) /\
       host_ip h' = host_ip h /\ host_first_seen h' = host_first_seen h /\
       (host_ip h ∉ map fst [("1.2.3.4", 100); ("1.2.3.4", 200)] -> h' = h)) /\
  (forall ip0, ip0 ∈ map fst [("1.2.3.4", 100); ("1.2.3.4", 200)] ->
     exists h', In h' (upsert_host_batch [] [("1.2.3.4", 100); ("1.2.3.4", 200)]) /\
       host_ip h' = ip0).
Proof.
  apply (upsert_host_batch_spec [("1.2.3.4", 100); ("1.2.3.4", 200)] []).
  apply NoDup_nil_2.
Defined.

(** *** Retention *)

Lemma filter_sublist {A} (f : A -> bool) (l : list A) :
  sublist (List.filter f l) l.
Proof.
  induction l as [|a l IH]; cbn [List.filter]; [constructor|].
  destruct (f a); by constructor.
Qed.

(** After [prune_old_data], the history holds exactly the events that
    are not older than the history cutoff and the services exactly the
    rows seen since the service cutoff, in their order; if the history
    window is not longer than the service window, every history event
    that is kept still has its Service row. *)
Theorem prune_old_data_spec history_days service_days now db :
  let db' := prune_old_data history_days service_days now db in
  (forall h, In h (history db') <->
     In h (history db) /\ now - days history_days <= hist_timestamp h) /\
  (forall s, In s (services db') <->
     In s (services db) /\ now - days service_days <= svc_last_seen s) /\
  sublist (history db') (history db) /\
  sublist (services db') (services db) /\
  (history_days <= service_days -> history_backed db -> history_backed db').
Proof.
  intros db'. subst db'. unfold prune_old_data.
  cbn [history services].
  assert (Hh : forall h, In h (List.filter
                 (fun h => negb (hist_timestamp h <? now - days history_days))
                 (history db)) <->
               In h (history db) /\ now - days history_days <= hist_timestamp h).
  { intros h. rewrite filter_In, negb_true_iff, Z.ltb_ge. done. }
  assert (Hs : forall s, In s (List.filter
                 (fun s => negb (svc_last_seen s <? now - days service_days))
                 (services db)) <->
               In s (services db) /\ now - days service_days <= svc_last_seen s).
  { intros s. rewrite filter_In, negb_true_iff, Z.ltb_ge. done. }
  split; [exact Hh|]. split; [exact Hs|].
  split; [apply filter_sublist|]. split; [apply filter_sublist|].
  intros Hdays Hback h Hin. cbn [history services] in *.
  apply Hh in Hin as [Hin Hts].
  destruct (Hback h Hin) as (s & Hsin & Hid & Hle).
  exists s. split; [|by split]. apply Hs. split; [done|].
  unfold days in *. lia.
Qed.

(** A database with a service last seen long ago, whose one history
    event is as old, and a service seen lately with a late event: the
    old row and its event go, the late ones stay. *)
Lemma prune_old_data_spec_witness :
  let http_observation st ts : ObsDict :=
    {| obs := Probes.observation "1.2.3.5" 80 "http" st ts None None;
       analysis := None |} in
  let db := db_after (save_each
                        [ssh_observation "open" (Some "SSH-2.0-A") 100;
                         ssh_observation "closed" None 200;
                         http_observation "open" 9000000;
                         http_observation "closed" 9999000] init_db) init_db in
  let db' := prune_old_data 30 90 10000000 db in
  map (fun s => (svc_id s, svc_last_seen s)) (services db)
  = [(1, 200); (2, 9999000)] /\
  map (fun h => (hist_service_id h, hist_timestamp h)) (history db)
  = [(1, 200); (2, 9999000)] /\
  map (fun s => (svc_id s, svc_last_seen s)) (services db') = [(2, 9999000)] /\
  map (fun h => (hist_service_id h, hist_timestamp h)) (history db')
  = [(2, 9999000)] /\
  history_backed db'.
Proof.
  intros http_observation db db'.
  split; [vm_compute; reflexivity|]. split; [vm_compute; reflexivity|].
  split; [vm_compute; reflexivity|]. split; [vm_compute; reflexivity|].
  destruct (prune_old_data_spec 30 90 10000000 db) as (_ & _ & _ & _ & Hback).
  apply Hback; [lia|].
  intros h Hh.
  assert (Hall : Forall (fun h => exists s, In s (services db) /\
                           svc_id s = hist_service_id h /\
                           hist_timestamp h <= svc_last_seen s) (history db)).
  { vm_compute. repeat constructor.
    - eexists. split; [left; reflexivity|]. split; [reflexivity|]. discriminate.
    - eexists. split; [right; left; reflexivity|]. split; [reflexivity|].
      discriminate. }
  rewrite List.Forall_forall in Hall. by apply Hall.
Defined.

(** *** Coalesce on update *)

(** An observation of a key that has its Service row updates that row
    in place: id and [first_seen] stay, [last_seen], state and banner
    are overwritten, the identity columns take the analysis value when
    there is one and keep the old value otherwise (so an observation
    without analysis keeps them all), and the tags are overwritten in
    every case (by the empty list when there is no analysis). *)
Theorem update_coalesces_identity (o : ObsDict) db r :
  rows_with_key (obs_key o) (services db) = [r] ->
  exists db' r',
    save_observation_batch [o] db = inl db' /\
    rows_with_key (obs_key o) (services db') = [r'] /\
    svc_id r' = svc_id r /\ svc_first_seen r' = svc_first_seen r /\
    svc_last_seen r' = timestamp o /\ svc_state r' = status o /\
    svc_banner r' = Some (PyStr.or_empty (banner o)) /\
    svc_service_type r'
    = coalesce (analysis_get Fingerprint.a_service_type o) (svc_service_type r) /\
    svc_vendor r' = coalesce (analysis_get Fingerprint.a_vendor o) (svc_vendor r) /\
    svc_product r' = coalesce (analysis_get Fingerprint.a_product o) (svc_product r) /\
    svc_version r' = coalesce (analysis o ≫= Fingerprint.a_version) (svc_version r) /\
    svc_confidence r'
    = coalesce (analysis_get Fingerprint.a_confidence o) (svc_confidence r) /\
    svc_tags r' = default [] (analysis_get Fingerprint.a_tags o) /\
    (analysis o = None ->
       svc_service_type r' = svc_service_type r /\ svc_vendor r' = svc_vendor r /\
       svc_product r' = svc_product r /\ svc_version r' = svc_version r /\
       svc_confidence r' = svc_confidence r /\ svc_tags r' = []).
Proof.
  intros Hone.
  assert (Hex : existing_map (services db) [ip o] !! obs_key o
                = Some (svc_id r, svc_banner r, svc_state r)).
  { by rewrite existing_single, Hone. }
  unfold save_observation_batch, partition_batch.
  cbn [map fold_left]. unfold partition_step. rewrite Hex.
  cbn [insert_services update_services fold_left].
  destruct (fold_left insert_history _ _) as [hist hseq].
  eexists _, _. split; [reflexivity|]. cbn [services app].
  unfold update_services. cbn [fold_left].
  rewrite rows_with_key_map_update, Hone. cbn [map].
  split; [reflexivity|].
  unfold update_service. cbn [u_svc_id]. rewrite Z.eqb_refl.
  cbn -[coalesce]. repeat (split; [reflexivity|]).
  intros Hnone. unfold analysis_get. rewrite Hnone. by repeat split.
Qed.

Lemma update_coalesces_identity_witness :
  let d1 := db_after (save_observation_batch
                        [ssh_observation "open" (Some "SSH-2.0-A") 100] init_db)
                     init_db in
  exists db' r',
    save_observation_batch [ssh_observation "closed" None 200] d1 = inl db' /\
    rows_with_key ("1.2.3.4", 22, "tcp") (services db') = [r'] /\
    svc_first_seen r' = 100 /\ svc_last_seen r' = 200 /\
    svc_state r' = "closed" /\ svc_confidence r' = Some 0.
Proof.
  intros d1.
  edestruct (update_coalesces_identity (ssh_observation "closed" None 200) d1)
    as (db' & r' & Hsave & Hrows & _ & Hfs & Hls & Hst & _ & _ & _ & _ & _ & _ & _ & Hnone);
    [reflexivity|].
  exists db', r'. repeat (split; [assumption|]).
  by destruct (Hnone eq_refl) as (_ & _ & _ & _ & -> & _).
Defined.

End StoreExtras.

(** ** Queue maintenance: stale chunks and starved chunks *)

Section MaintenanceExtras.

Import DbManager Scheduler.

(** *** [ORDER BY updated_at ASC] *)

Lemma insert_by_updated_at_perm c (l : list ScanChunk) :
  insert_by_updated_at c l ≡ₚ c :: l.
Proof.
  induction l as [|d l IH]; cbn; [done|].
  destruct (updated_at c <? updated_at d); [done|].
  rewrite IH. apply Permutation_swap.
Qed.

Lemma insert_by_updated_at_sorted c (l : list ScanChunk) :
  StronglySorted older_or_same l ->
  StronglySorted older_or_same (insert_by_updated_at c l).
Proof.
  induction 1 as [|d l Hs IH Hd]; cbn.
  - repeat constructor.
  - destruct (updated_at c <? updated_at d) eqn:E.
    + constructor; [by constructor|].
      constructor; [unfold older_or_same; lia|].
      eapply List.Forall_impl; [|exact Hd].
      unfold older_or_same. intros; lia.
    + constructor; [exact IH|].
      rewrite insert_by_updated_at_perm.
      constructor; [unfold older_or_same; lia | done].
Qed.

Lemma sort_fold_spec (l : list ScanChunk) : forall acc,
  StronglySorted older_or_same acc ->
  let r := fold_left (fun acc c => insert_by_updated_at c acc) l acc in
  StronglySorted older_or_same r /\ r ≡ₚ l ++ acc.
Proof.
  induction l as [|c l IH]; intros acc Hacc; cbn.
  - by split.
  - destruct (IH (insert_by_updated_at c acc)) as [Hs Hp];
      [by apply insert_by_updated_at_sorted|].
    split; [exact Hs|].
    cbn in Hp. rewrite Hp, insert_by_updated_at_perm.
    by rewrite Permutation_middle.
Qed.

Lemma sort_by_updated_at_spec (l : list ScanChunk) :
  StronglySorted older_or_same (sort_by_updated_at l) /\
  sort_by_updated_at l ≡ₚ l.
Proof.
  destruct (sort_fold_spec l []) as [Hs Hp]; [constructor|].
  split; [exact Hs|]. cbn in Hp. by rewrite app_nil_r in Hp.
Qed.

Lemma sorted_take_drop (n : nat) (l : list ScanChunk) :
  StronglySorted older_or_same l ->
  StronglySorted older_or_same (take n l) /\
  forall a b, In a (take n l) -> In b (drop n l) -> older_or_same a b.
Proof.
  intros Hs. revert n.
  induction Hs as [|d l Hs IH Hd]; intros [|n]; cbn.
  - split; [constructor|]. intros a b [].
  - split; [constructor|]. intros a b [].
  - split; [constructor|]. intros a b [].
  - destruct (IH n) as [Ht Hle]. split.
    + constructor; [exact Ht|].
      rewrite List.Forall_forall in Hd. rewrite List.Forall_forall.
      intros x Hx. apply Hd.
      apply list_elem_of_In. eapply subseteq_take. by apply list_elem_of_In.
    + intros a b [<-|Ha] Hb.
      * rewrite List.Forall_forall in Hd. apply Hd.
        apply list_elem_of_In. eapply subseteq_drop. by apply list_elem_of_In.
      * by apply Hle.
Qed.

(** [get_stale_chunks] answers the [limit] least recently updated
    of the COMPLETED chunks of the priority class that were last
    updated before the cutoff, in ascending [updated_at]: the rows
    answered and the stale rows left out are together the stale rows,
    there are [min limit (number of stale rows)] of them, and no row
    left out is older than a row answered. *)
Theorem get_stale_chunks_oldest_first limit high_priority min_age_hours now d :
  0 <= limit ->
  let stale :=
    List.filter (stale_chunk high_priority (now - hours min_age_hours))
                (scan_state d) in
  exists sel rest,
    get_stale_chunks limit high_priority min_age_hours now d = map stale_row sel /\
    sel ++ rest ≡ₚ stale /\
    length sel = Nat.min (Z.to_nat limit) (length stale) /\
    StronglySorted older_or_same sel /\
    (forall a b, In a sel -> In b rest -> older_or_same a b).
Proof.
  intros _ stale.
  destruct (sort_by_updated_at_spec stale) as [Hs Hp].
  destruct (sorted_take_drop (Z.to_nat limit) _ Hs) as [Ht Hle].
  exists (take (Z.to_nat limit) (sort_by_updated_at stale)),
         (drop (Z.to_nat limit) (sort_by_updated_at stale)).
  split; [reflexivity|].
  split; [by rewrite take_drop|].
  split; [by rewrite length_take, Hp|].
  by split.
Qed.

Lemma get_stale_chunks_oldest_first_witness :
  let c id st0 p upd :=
    {| chunk_id := id; cidr := "10.0.0.0/8"; chunk_start := "10.0.0.0";
       chunk_end := "10.0.0.255"; chunk_status := st0; priority := p;
       retry_count := 0; last_error := None; created_at := 0;
       updated_at := upd |} in
  let d := set_scan_state init_db
             [c 1 COMPLETED 7 500; c 2 COMPLETED 5 100; c 3 QUEUED 9 50;
              c 4 COMPLETED 1 10; c 5 COMPLETED 6 300] 5 in
  exists sel rest,
    get_stale_chunks 2 true 24 1000000 d = map stale_row sel /\
    sel ++ rest ≡ₚ [c 1 COMPLETED 7 500; c 2 COMPLETED 5 100; c 5 COMPLETED 6 300] /\
    length sel = 2%nat /\
    StronglySorted older_or_same sel /\
    (forall a b, In a sel -> In b rest -> older_or_same a b).
Proof.
  intros c d.
  exact (get_stale_chunks_oldest_first 2 true 24 1000000 d ltac:(lia)).
Defined.

(** *** What a maintenance run writes *)

Lemma reset_stale_chunk_rows id now d :
  scan_state (reset_stale_chunk id now d)
  = map (fun c => if chunk_id c =? id then requeue now c else c) (scan_state d).
Proof. reflexivity. Qed.

(** The loop over the stale rows re-queues the chunks whose id is among
    them. *)
Lemma reset_all_rows_map (rows : list (Z * string * Z * Z)) now : forall d,
  scan_state (reset_all rows now d)
  = map (fun c =>
           if existsb (Z.eqb (chunk_id c)) (map (fun row => row.1.1.1) rows)
           then requeue now c else c)
        (scan_state d).
Proof.
  induction rows as [|row rows IH]; intros d.
  - cbn. by rewrite map_id.
  - unfold reset_all in *. cbn [fold_left]. rewrite IH, reset_stale_chunk_rows.
    rewrite map_map. apply map_ext. intros c. cbn [map existsb].
    destruct (chunk_id c =? row.1.1.1) eqn:E; cbn.
    + by destruct (existsb _ _).
    + reflexivity.
Qed.

Lemma stale_ids limit hp age now d :
  map (fun row : Z * string * Z * Z => row.1.1.1) (get_stale_chunks limit hp age now d)
  = map chunk_id
      (take (Z.to_nat limit)
         (sort_by_updated_at
            (List.filter (stale_chunk hp (now - hours age)) (scan_state d)))).
Proof. unfold get_stale_chunks. by rewrite map_map. Qed.

Lemma existsb_id_In (id : Z) (ids : list Z) :
  existsb (Z.eqb id) ids = true <-> In id ids.
Proof.
  rewrite existsb_exists. split.
  - intros (x & Hx & E). apply Z.eqb_eq in E. by subst.
  - intros H. exists id. by rewrite Z.eqb_refl.
Qed.

(** A row re-queued by the loop has the id of a stale row of the table
    the query ran on. *)
Lemma stale_id_sound limit hp age now d id :
  In id (map (fun row : Z * string * Z * Z => row.1.1.1)
           (get_stale_chunks limit hp age now d)) ->
  exists c0, In c0 (scan_state d) /\ chunk_id c0 = id /\
             stale_chunk hp (now - hours age) c0 = true.
Proof.
  rewrite stale_ids, in_map_iff. intros (c0 & <- & Hin).
  apply list_elem_of_In, subseteq_take, list_elem_of_In in Hin.
  destruct (sort_by_updated_at_spec
              (List.filter (stale_chunk hp (now - hours age)) (scan_state d)))
    as [_ Hp].
  apply list_elem_of_In in Hin. rewrite Hp in Hin. apply list_elem_of_In in Hin.
  apply filter_In in Hin as [Hin Hst]. by exists c0.
Qed.

(** With no more stale rows than the limit, every stale row is
    answered. *)
Lemma stale_id_complete limit hp age now d c :
  (length (List.filter (stale_chunk hp (now - hours age)) (scan_state d))
   <= Z.to_nat limit)%nat ->
  In c (scan_state d) -> stale_chunk hp (now - hours age) c = true ->
  In (chunk_id c) (map (fun row : Z * string * Z * Z => row.1.1.1)
                     (get_stale_chunks limit hp age now d)).
Proof.
  intros Hlen Hin Hst. rewrite stale_ids. apply in_map.
  destruct (sort_by_updated_at_spec
              (List.filter (stale_chunk hp (now - hours age)) (scan_state d)))
    as [_ Hp].
  rewrite take_ge by (by rewrite Hp).
  apply list_elem_of_In. rewrite Hp. apply list_elem_of_In.
  apply filter_In. by split.
Qed.

Lemma promote_rows_map age now d :
  exists f,
    scan_state (promote_ignored_chunks age now d) = map f (scan_state d) /\
    forall c,
      (starved (now - hours age) c = false -> f c = c) /\
      (starved (now - hours age) c = true ->
         chunk_status (f c) = QUEUED /\ priority (f c) = priority c + 1 /\
         retry_count (f c) = retry_count c /\ updated_at (f c) = now) /\
      chunk_id (f c) = chunk_id c.
Proof.
  eexists. split; [reflexivity|]. intros c. cbn beta.
  fold (starved (now - hours age) c).
  destruct (starved (now - hours age) c) eqn:E.
  - split; [done|]. split; [|done]. intros _. cbn.
    unfold starved in E. destruct (chunk_status c); try discriminate. done.
  - by repeat split.
Qed.

(** The rows after a maintenance run that is due: promoted, then
    re-queued by the first loop, then by the second. *)
Lemma maintain_rows_map now st :
  3600 <= now - last_maintenance_ts st ->
  exists p ids_high ids_low d1 d2,
    let g ids c := if existsb (Z.eqb (chunk_id c)) ids then requeue now c else c in
    scan_state d1 = map p (scan_state (db st)) /\
    scan_state d2 = map (g ids_high) (scan_state d1) /\
    scan_state (db (maintain_queue_health now st)) = map (g ids_low) (scan_state d2) /\
    ids_high = map (fun row : Z * string * Z * Z => row.1.1.1)
                   (get_stale_chunks 50 true 24 now d1) /\
    ids_low = map (fun row : Z * string * Z * Z => row.1.1.1)
                  (get_stale_chunks 50 false 168 now d2) /\
    forall c,
      (starved (now - hours 48) c = false -> p c = c) /\
      (starved (now - hours 48) c = true ->
         chunk_status (p c) = QUEUED /\ priority (p c) = priority c + 1 /\
         retry_count (p c) = retry_count c /\ updated_at (p c) = now) /\
      chunk_id (p c) = chunk_id c.
Proof.
  intros Hdue. unfold maintain_queue_health.
  destruct (now - last_maintenance_ts st <? 3600) eqn:E; [lia|]. cbn [db].
  destruct (promote_rows_map 48 now (db st)) as (p & Hp & Hpc).
  set (d1 := promote_ignored_chunks 48 now (db st)) in *.
  set (d2 := reset_all (get_stale_chunks 50 true 24 now d1) now d1).
  exists p, (map (fun row : Z * string * Z * Z => row.1.1.1)
               (get_stale_chunks 50 true 24 now d1)),
         (map (fun row : Z * string * Z * Z => row.1.1.1)
               (get_stale_chunks 50 false 168 now d2)), d1, d2.
  cbn zeta. split; [exact Hp|].
  split; [apply reset_all_rows_map|].
  split; [apply reset_all_rows_map|]. done.
Qed.

(** A maintenance run that is due raises the priority of exactly the
    starved chunks (QUEUED, created more than 48 hours ago, priority
    below 10) by one, and of no other chunk; a run within the hour of
    the last one changes no priority. *)
Theorem maintenance_promotes_starved now st :
  Forall2
    (fun c c' =>
       priority c' =
       if (3600 <=? now - last_maintenance_ts st) && starved (now - hours 48) c
       then priority c + 1 else priority c)
    (scan_state (db st)) (scan_state (db (maintain_queue_health now st))).
Proof.
  destruct (3600 <=? now - last_maintenance_ts st) eqn:Hdue.
  - apply Z.leb_le in Hdue.
    destruct (maintain_rows_map now st Hdue)
      as (p & ih & il & d1 & d2 & H1 & H2 & H3 & _ & _ & Hp).
    cbn zeta in *. rewrite H3, H2, H1, !map_map.
    apply Forall2_fmap_r, Forall_Forall2_diag, List.Forall_forall.
    intros c _. cbn [andb].
    assert (Hg : forall ids c0,
               priority (if existsb (Z.eqb (chunk_id c0)) ids
                         then requeue now c0 else c0) = priority c0).
    { intros ids c0. by destruct (existsb _ _). }
    unfold compose. rewrite !Hg. destruct (Hp c) as (Hno & Hyes & _).
    destruct (starved (now - hours 48) c) eqn:E.
    + by destruct (Hyes eq_refl) as (_ & -> & _).
    + by rewrite Hno.
  - unfold maintain_queue_health.
    replace (now - last_maintenance_ts st <? 3600) with true by lia.
    cbn [andb]. apply Forall_Forall2_diag, List.Forall_forall. done.
Qed.

(** *** Which chunks are scanned again *)

Lemma stale_chunk_true hp cutoff c :
  stale_chunk hp cutoff c = true ->
  chunk_status c = COMPLETED /\ updated_at c < cutoff /\
  (if hp then 5 <= priority c else priority c < 5).
Proof.
  unfold stale_chunk. intros H.
  apply andb_prop in H as [H Hp]. apply andb_prop in H as [Hs Hu].
  split; [by destruct (chunk_status c)|]. split; [lia|].
  destruct hp; lia.
Qed.

Lemma stale_chunk_class c cutoff_high cutoff_low :
  chunk_status c = COMPLETED ->
  updated_at c < (if 5 <=? priority c then cutoff_high else cutoff_low) ->
  stale_chunk (5 <=? priority c) (if 5 <=? priority c then cutoff_high else cutoff_low) c
  = true.
Proof.
  intros Hs Hu. unfold stale_chunk. rewrite Hs. cbn [ChunkStatus_eqb andb].
  destruct (5 <=? priority c) eqn:E; apply andb_true_intro; split; lia.
Qed.

Lemma starved_queued cutoff c : starved cutoff c = true -> chunk_status c = QUEUED.
Proof. unfold starved. by destruct (chunk_status c). Qed.

Lemma requeue_twice now c : requeue now (requeue now c) = requeue now c.
Proof. reflexivity. Qed.

Lemma filter_length_map_le (P : ScanChunk -> bool) (f : ScanChunk -> ScanChunk)
  (l : list ScanChunk) :
  (forall c, P (f c) = true -> P c = true) ->
  (length (List.filter P (map f l)) <= length (List.filter P l))%nat.
Proof.
  intros Hf. induction l as [|c l IH]; cbn; [lia|].
  destruct (P (f c)) eqn:E.
  - rewrite (Hf c E). cbn. lia.
  - destruct (P c); cbn; lia.
Qed.

(** Maintenance re-queues nothing but COMPLETED chunks that are stale
    for their priority class (24 hours from priority 5 on, 168 hours
    below): every other chunk keeps its status and its retries, so a
    SCANNING, RETRYING or FAILED chunk is never put back in the queue. *)
Theorem maintenance_requeues_only_stale now st :
  NoDup (map chunk_id (scan_state (db st))) ->
  Forall2
    (fun c c' =>
       (chunk_status c' = chunk_status c /\ retry_count c' = retry_count c) \/
       (chunk_status c = COMPLETED /\
        updated_at c < now - hours (if 5 <=? priority c then 24 else 168) /\
        c' = requeue now c))
    (scan_state (db st)) (scan_state (db (maintain_queue_health now st))).
Proof.
  intros Hnd.
  destruct (3600 <=? now - last_maintenance_ts st) eqn:Hdue.
  2:{ unfold maintain_queue_health.
      replace (now - last_maintenance_ts st <? 3600) with true by lia.
      apply Forall_Forall2_diag, List.Forall_forall. intros c _. by left. }
  apply Z.leb_le in Hdue.
  destruct (maintain_rows_map now st Hdue)
    as (p & ih & il & d1 & d2 & H1 & H2 & H3 & Hih & Hil & Hp).
  cbn zeta in *.
  assert (Hid1 : map chunk_id (scan_state d1) = map chunk_id (scan_state (db st))).
  { rewrite H1, map_map. apply map_ext. intros c. apply Hp. }
  assert (Hid2 : map chunk_id (scan_state d2) = map chunk_id (scan_state d1)).
  { rewrite H2, map_map. apply map_ext. intros c. by destruct (existsb _ _). }
  assert (Hnd1 : NoDup (map chunk_id (scan_state d1))) by (by rewrite Hid1).
  assert (Hnd2 : NoDup (map chunk_id (scan_state d2))) by (by rewrite Hid2).
  rewrite H3, H2, H1, !map_map.
  apply Forall2_fmap_r, Forall_Forall2_diag, List.Forall_forall.
  intros c Hc. unfold compose.
  assert (Hc1 : In (p c) (scan_state d1)) by (rewrite H1; by apply in_map).
  destruct (Hp c) as (Hno & Hyes & _).
  assert (Hkeep : chunk_status (p c) = chunk_status c /\
                  retry_count (p c) = retry_count c).
  { destruct (starved (now - hours 48) c) eqn:E.
    - destruct (Hyes eq_refl) as (-> & _ & -> & _).
      by rewrite (starved_queued _ _ E).
    - by rewrite Hno. }
  assert (Hcompleted : chunk_status (p c) = COMPLETED -> p c = c).
  { intros Hs. destruct (starved (now - hours 48) c) eqn:E; [|by apply Hno].
    destruct (Hyes eq_refl) as (Hq & _). congruence. }
  destruct (existsb (Z.eqb (chunk_id (p c))) ih) eqn:Eh.
  - (* re-queued by the first loop *)
    apply existsb_id_In in Eh. rewrite Hih in Eh.
    apply stale_id_sound in Eh as (c0 & Hc0 & Hid & Hst).
    assert (c0 = p c) as ->
      by exact (unique_row (scan_state d1) (p c) c0 Hnd1 Hc1 Hc0 Hid).
    apply stale_chunk_true in Hst as (Hs & Hu & Hpr).
    pose proof (Hcompleted Hs) as Hpc. rewrite Hpc in Hs, Hu, Hpr |- *.
    right. split; [exact Hs|].
    replace (5 <=? priority c) with true by lia.
    split; [exact Hu|].
    cbn [chunk_id requeue]. by destruct (existsb _ il).
  - destruct (existsb (Z.eqb (chunk_id (p c))) il) eqn:El.
    + (* re-queued by the second loop *)
      assert (Hc2 : In (p c) (scan_state d2)).
      { rewrite H2. apply in_map_iff. exists (p c). by rewrite Eh. }
      apply existsb_id_In in El. rewrite Hil in El.
      apply stale_id_sound in El as (c0 & Hc0 & Hid & Hst).
      assert (c0 = p c) as ->
        by exact (unique_row (scan_state d2) (p c) c0 Hnd2 Hc2 Hc0 Hid).
      apply stale_chunk_true in Hst as (Hs & Hu & Hpr).
      pose proof (Hcompleted Hs) as Hpc. rewrite Hpc in Hs, Hu, Hpr |- *.
      right. split; [exact Hs|].
      replace (5 <=? priority c) with false by lia. by split.
    + by left.
Qed.

Lemma maintenance_requeues_only_stale_witness :
  let c id st0 p rc upd :=
    {| chunk_id := id; cidr := "10.0.0.0/8"; chunk_start := "10.0.0.0";
       chunk_end := "10.0.0.255"; chunk_status := st0; priority := p;
       retry_count := rc; last_error := None; created_at := 0;
       updated_at := upd |} in
  let st := {| last_maintenance_ts := 0;
               db := set_scan_state init_db
                       [c 1 COMPLETED 7 0 500; c 2 FAILED 7 4 100;
                        c 3 COMPLETED 1 0 999000] 3 |} in
  map (fun c => (chunk_status c, retry_count c))
      (scan_state (db (maintain_queue_health 1000000 st)))
  = [(QUEUED, 0); (FAILED, 4); (COMPLETED, 0)] /\
  Forall2
    (fun c c' =>
       (chunk_status c' = chunk_status c /\ retry_count c' = retry_count c) \/
       (chunk_status c = COMPLETED /\
        updated_at c < 1000000 - hours (if 5 <=? priority c then 24 else 168) /\
        c' = requeue 1000000 c))
    (scan_state (db st)) (scan_state (db (maintain_queue_health 1000000 st))).
Proof.
  intros c st. split; [reflexivity|].
  apply (maintenance_requeues_only_stale 1000000 st).
  apply (bool_decide_unpack _). reflexivity.
Defined.

(** A maintenance run that is due re-queues every COMPLETED chunk that
    is stale for its priority class, with its retries back at 0, as long
    as neither class holds more than the 50 stale chunks one run takes. *)
Theorem maintenance_requeues_stale now st :
  3600 <= now - last_maintenance_ts st ->
  (length (List.filter (stale_chunk true (now - hours 24)) (scan_state (db st)))
   <= 50)%nat ->
  (length (List.filter (stale_chunk false (now - hours 168)) (scan_state (db st)))
   <= 50)%nat ->
  Forall2
    (fun c c' =>
       chunk_status c = COMPLETED ->
       updated_at c < now - hours (if 5 <=? priority c then 24 else 168) ->
       c' = requeue now c)
    (scan_state (db st)) (scan_state (db (maintain_queue_health now st))).
Proof.
  intros Hdue Hhigh Hlow.
  destruct (maintain_rows_map now st Hdue)
    as (p & ih & il & d1 & d2 & H1 & H2 & H3 & Hih & Hil & Hp).
  cbn zeta in *.
  assert (Hcompleted : forall c, chunk_status (p c) = COMPLETED -> p c = c).
  { intros c Hs. destruct (Hp c) as (Hno & Hyes & _).
    destruct (starved (now - hours 48) c) eqn:E; [|by apply Hno].
    destruct (Hyes eq_refl) as (Hq & _). congruence. }
  assert (Hstale1 : forall hp cutoff c,
             stale_chunk hp cutoff (p c) = true -> stale_chunk hp cutoff c = true).
  { intros hp cutoff c Hst.
    destruct (stale_chunk_true _ _ _ Hst) as (Hs & _).
    by rewrite (Hcompleted c Hs) in Hst. }
  assert (Hlen1 : (length (List.filter (stale_chunk true (now - hours 24))
                             (scan_state d1)) <= Z.to_nat 50)%nat).
  { rewrite H1. etransitivity; [apply filter_length_map_le, Hstale1|lia]. }
  assert (Hlen2 : (length (List.filter (stale_chunk false (now - hours 168))
                             (scan_state d2)) <= Z.to_nat 50)%nat).
  { rewrite H2, H1, map_map.
    etransitivity; [apply filter_length_map_le|exact Hlow].
    intros c Hst. unfold compose in Hst.
    destruct (existsb _ ih).
    - by apply stale_chunk_true in Hst as (Hs & _).
    - by apply Hstale1. }
  rewrite H3, H2, H1, !map_map.
  apply Forall2_fmap_r, Forall_Forall2_diag, List.Forall_forall.
  intros c Hc Hs Hu. unfold compose.
  assert (Hpc : p c = c).
  { destruct (Hp c) as (Hno & Hyes & _).
    destruct (starved (now - hours 48) c) eqn:E; [|by apply Hno].
    apply starved_queued in E. congruence. }
  rewrite Hpc.
  assert (Hc1 : In c (scan_state d1)).
  { rewrite H1. apply in_map_iff. by exists c. }
  pose proof (stale_chunk_class c (now - hours 24) (now - hours 168) Hs) as Hst.
  destruct (5 <=? priority c) eqn:Epr.
  - (* the class of priority 5 and above *)
    specialize (Hst Hu).
    pose proof (stale_id_complete 50 true 24 now d1 c Hlen1 Hc1 Hst) as Hin.
    rewrite <- Hih in Hin. apply existsb_id_In in Hin. rewrite Hin.
    cbn [chunk_id requeue]. by destruct (existsb _ il).
  - (* the class below priority 5 *)
    specialize (Hst Hu).
    destruct (existsb (Z.eqb (chunk_id c)) ih) eqn:Eh.
    + cbn [chunk_id requeue]. by destruct (existsb _ il).
    + assert (Hc2 : In c (scan_state d2)).
      { rewrite H2. apply in_map_iff. exists c. by rewrite Eh. }
      pose proof (stale_id_complete 50 false 168 now d2 c Hlen2 Hc2 Hst) as Hin.
      rewrite <- Hil in Hin. apply existsb_id_In in Hin. by rewrite Hin.
Qed.

Lemma maintenance_requeues_stale_witness :
  let c id st0 p rc upd :=
    {| chunk_id := id; cidr := "10.0.0.0/8"; chunk_start := "10.0.0.0";
       chunk_end := "10.0.0.255"; chunk_status := st0; priority := p;
       retry_count := rc; last_error := None; created_at := 0;
       updated_at := upd |} in
  let st := {| last_maintenance_ts := 0;
               db := set_scan_state init_db
                       [c 1 COMPLETED 7 2 500; c 2 COMPLETED 1 1 100;
                        c 3 COMPLETED 1 0 999000] 3 |} in
  Forall2
    (fun c c' =>
       chunk_status c = COMPLETED ->
       updated_at c < 1000000 - hours (if 5 <=? priority c then 24 else 168) ->
       c' = requeue 1000000 c)
    (scan_state (db st)) (scan_state (db (maintain_queue_health 1000000 st))).
Proof.
  intros c st.
  apply (maintenance_requeues_stale 1000000 st); vm_compute; first [lia | done].
Defined.

End MaintenanceExtras.

(** ** Failures without a message *)

Section EngineExtras.

Import DbManager Scheduler Engine.

Lemma ip_str_truthy a : PyStr.truthy (ip_str a) = true.
Proof. unfold ip_str. by destruct (dec _). Qed.

Lemma uncounted_create cidr0 (a b : Z) p now d :
  Forall uncounted (scan_state d) ->
  Forall uncounted
    (scan_state (create_scan_chunk cidr0 (ip_str a) (ip_str b) p now d)).
Proof.
  intros H. unfold create_scan_chunk. cbn [scan_state set_scan_state].
  apply Forall_app. split; [exact H|].
  constructor; [|constructor].
  unfold uncounted. cbn. by rewrite !ip_str_truthy.
Qed.

Lemma uncounted_initialize ip_network target p now st :
  Forall uncounted (scan_state (db st)) ->
  Forall uncounted (scan_state (db (initialize_scan ip_network target p now st))).
Proof.
  intros H. unfold initialize_scan.
  destruct (ip_network target) as [network|]; [|exact H].
  destruct (num_addresses network <=? CHUNK_SIZE).
  - by apply uncounted_create.
  - destruct (prefixlen network <? 24); [|by apply uncounted_create].
    cbn [db set_db]. generalize (db st) H. clear H.
    induction (subnets24 network) as [|subnet l IH]; intros d H; [exact H|].
    cbn [fold_left]. apply IH. by apply uncounted_create.
Qed.

Lemma uncounted_maintain now st :
  Forall uncounted (scan_state (db st)) ->
  Forall uncounted (scan_state (db (maintain_queue_health now st))).
Proof.
  intros H. pose proof (maintain_rows now st) as Hrows.
  revert H. induction Hrows as [|c c' l l' Hcc _ IH]; [done|].
  intros H. apply Forall_cons in H as [Hc Hl].
  constructor; [|by apply IH].
  destruct Hcc as ((_ & _ & Hs & He & _) & _ & _ & Hst).
  destruct Hc as (Hrc & Hnf & Hts & Hte).
  unfold uncounted. rewrite Hs, He.
  destruct Hst as [[-> ->]|[-> ->]]; done.
Qed.

Lemma uncounted_update id st0 err now d :
  error_given err = false -> st0 <> FAILED ->
  Forall uncounted (scan_state d) ->
  Forall uncounted (scan_state (update_chunk_status id st0 err now d)).
Proof.
  intros Herr Hst H. unfold update_chunk_status.
  cbn [scan_state set_scan_state]. rewrite Herr.
  rewrite List.Forall_forall in *. intros c' (c & <- & Hc)%in_map_iff.
  specialize (H c Hc). destruct (chunk_id c =? id); [|exact H].
  destruct H as (Hrc & _ & Hts & Hte). by repeat split.
Qed.

Lemma uncounted_get_next now : forall fuel st r,
  Forall uncounted (scan_state (db st)) ->
  Scheduler.get_next_chunk fuel now st = Some r ->
  Forall uncounted (scan_state (db (after r))) /\
  warned r = [] /\
  forall id s e, returned r = Some (id, s, e) ->
    PyStr.truthy s = true /\ PyStr.truthy e = true.
Proof.
  intros [|fuel] st r H Hr; [discriminate|]. cbn [Scheduler.get_next_chunk] in Hr.
  apply (uncounted_maintain now) in H.
  pose proof (next_row_spec (db (maintain_queue_health now st))) as Hrow.
  rewrite next_row_get in Hr.
  destruct (next_row (db (maintain_queue_health now st))) as [b|];
    cbn -[update_chunk_status] in Hr.
  - destruct Hrow as (Hb & _).
    rewrite List.Forall_forall in H. destruct (H b Hb) as (Hrc & _ & Hts & Hte).
    rewrite Hrc in Hr. cbn -[update_chunk_status] in Hr. injection Hr as <-.
    cbn -[update_chunk_status].
    split; [|split; [done|]].
    + apply uncounted_update; [done|done|]. by apply List.Forall_forall.
    + by intros id s e [= _ <- <-].
  - injection Hr as <-. cbn. by repeat split.
Qed.

Lemma uncounted_iteration now outcome later st :
  silent (Iterate now outcome later) = true ->
  Forall uncounted (scan_state (db st)) ->
  Forall uncounted (scan_state (db (iteration now outcome later st))).
Proof.
  intros Hsilent H. unfold iteration.
  destruct (Scheduler.get_next_chunk (enough_fuel st) now st) as [r|] eqn:Hr;
    [|exact H].
  destruct (uncounted_get_next now _ _ _ H Hr) as (Hafter & _ & Hret).
  destruct (returned r) as [[[id s] e]|]; [|exact Hafter].
  destruct (Hret id s e eq_refl) as [-> ->]. cbn [negb orb].
  destruct outcome as [|msg|]; cbn [db].
  - by apply uncounted_update.
  - apply uncounted_update; [|done|exact Hafter].
    cbn in *. by destruct (PyStr.truthy msg).
  - exact Hafter.
Qed.

(** The retry limit counts only failures with a message: as long as
    every scan that raises does so with an empty [str(e)], no chunk of
    the queue ever gets a retry counted or becomes FAILED, however often
    it fails. *)
Theorem failures_without_message_never_count ip_network events :
  forallb silent events = true ->
  Forall (fun c => retry_count c = 0 /\ chunk_status c <> FAILED)
         (scan_state (db (run ip_network events initial))).
Proof.
  intros Hsilent.
  assert (H : Forall uncounted (scan_state (db (run ip_network events initial)))).
  { unfold run. assert (H0 : Forall uncounted (scan_state (db initial)))
      by constructor.
    revert Hsilent H0. generalize initial.
    induction events as [|e events IH]; intros st Hsilent H0; [exact H0|].
    cbn [forallb] in Hsilent. apply andb_prop in Hsilent as [He Hrest].
    cbn [fold_left]. apply IH; [exact Hrest|].
    destruct e as [target p now|now outcome later]; cbn [step].
    - by apply uncounted_initialize.
    - by apply uncounted_iteration. }
  eapply List.Forall_impl; [|exact H]. by intros c (? & ? & _).
Qed.

Lemma failures_without_message_never_count_witness :
  let events := [Initialize "10.0.0.0/23" 1 10;
                 Iterate 20 (ScanRaises "") 21;
                 Iterate 30 (ScanRaises "") 31;
                 Iterate 40 (ScanRaises "") 41;
                 Iterate 50 (ScanRaises "") 51;
                 Iterate 60 (ScanRaises "") 61] in
  forallb silent events = true /\
  Forall (fun c => retry_count c = 0 /\ chunk_status c <> FAILED)
         (scan_state (db (run plain_ip_network events initial))).
Proof.
  intros events. split; [reflexivity|].
  apply (failures_without_message_never_count plain_ip_network events).
  reflexivity.
Defined.

(** *** Chunks left in SCANNING *)

Lemma ids_maintain now st :
  map chunk_id (scan_state (db (maintain_queue_health now st)))
  = map chunk_id (scan_state (db st)).
Proof.
  induction (maintain_rows now st) as [|c c' l l' Hcc _ IH]; [done|].
  cbn [map]. rewrite IH. by destruct Hcc as ((-> & _) & _).
Qed.

Lemma ids_update id st0 err now d :
  map chunk_id (scan_state (update_chunk_status id st0 err now d))
  = map chunk_id (scan_state d).
Proof.
  unfold update_chunk_status. cbn [scan_state set_scan_state].
  rewrite map_map. apply map_ext. intros c.
  by destruct (chunk_id c =? id), (error_given err).
Qed.

Lemma In_update_other id st0 err now d c :
  In c (scan_state d) -> chunk_id c <> id ->
  In c (scan_state (update_chunk_status id st0 err now d)).
Proof.
  intros Hc Hid. unfold update_chunk_status. cbn [scan_state set_scan_state].
  apply in_map_iff. exists c. split; [|exact Hc].
  by replace (chunk_id c =? id) with false by lia.
Qed.

(** Maintenance leaves a SCANNING row as it is. *)
Lemma scanning_maintain now st c :
  NoDup (map chunk_id (scan_state (db st))) ->
  In c (scan_state (db st)) -> chunk_status c = SCANNING ->
  In c (scan_state (db (maintain_queue_health now st))).
Proof.
  intros Hnd Hc Hs.
  destruct (3600 <=? now - last_maintenance_ts st) eqn:Hdue.
  2:{ unfold maintain_queue_health.
      by replace (now - last_maintenance_ts st <? 3600) with true by lia. }
  apply Z.leb_le in Hdue.
  destruct (maintain_rows_map now st Hdue)
    as (p & ih & il & d1 & d2 & H1 & H2 & H3 & Hih & Hil & Hp).
  cbn zeta in *.
  assert (Hpc : p c = c).
  { destruct (Hp c) as (Hno & _). apply Hno.
    unfold starved. by rewrite Hs. }
  assert (Hid1 : map chunk_id (scan_state d1) = map chunk_id (scan_state (db st))).
  { rewrite H1, map_map. apply map_ext. intros c0. apply Hp. }
  assert (Hid2 : map chunk_id (scan_state d2) = map chunk_id (scan_state d1)).
  { rewrite H2, map_map. apply map_ext. intros c0. by destruct (existsb _ _). }
  assert (Hc1 : In c (scan_state d1)).
  { rewrite H1. apply in_map_iff. by exists c. }
  assert (Hskip : forall hp age d,
             NoDup (map chunk_id (scan_state d)) -> In c (scan_state d) ->
             existsb (Z.eqb (chunk_id c))
               (map (fun row : Z * string * Z * Z => row.1.1.1)
                  (get_stale_chunks 50 hp age now d)) = false).
  { intros hp age d Hndd Hcd.
    destruct (existsb _ _) eqn:E; [|done].
    apply existsb_id_In, stale_id_sound in E as (c0 & Hc0 & Hid & Hst).
    assert (c0 = c) as -> by exact (unique_row _ c c0 Hndd Hcd Hc0 Hid).
    apply stale_chunk_true in Hst as (Hst & _). congruence. }
  assert (Hc2 : In c (scan_state d2)).
  { rewrite H2. apply in_map_iff. exists c. split; [|exact Hc1].
    rewrite Hih, Hskip; [done| |exact Hc1]. by rewrite Hid1. }
  rewrite H3. apply in_map_iff. exists c. split; [|exact Hc2].
  rewrite Hil, Hskip; [done| |exact Hc2]. by rewrite Hid2, Hid1.
Qed.

Lemma scanning_get_next now c : forall fuel st r,
  NoDup (map chunk_id (scan_state (db st))) ->
  In c (scan_state (db st)) -> chunk_status c = SCANNING ->
  Scheduler.get_next_chunk fuel now st = Some r ->
  In c (scan_state (db (after r))) /\
  forall id s e, returned r = Some (id, s, e) -> id <> chunk_id c.
Proof.
  induction fuel as [|fuel IH]; intros st r Hnd Hc Hs Hr; [discriminate|].
  cbn [Scheduler.get_next_chunk] in Hr.
  pose proof (scanning_maintain now st c Hnd Hc Hs) as Hc1.
  assert (Hnd1 : NoDup (map chunk_id
                          (scan_state (db (maintain_queue_health now st)))))
    by (by rewrite ids_maintain).
  pose proof (next_row_spec (db (maintain_queue_health now st))) as Hrow.
  rewrite next_row_get in Hr.
  destruct (next_row (db (maintain_queue_health now st))) as [b|];
    cbn -[update_chunk_status Z.leb] in Hr.
  2:{ injection Hr as <-. by split. }
  destruct Hrow as (Hb & Helig & _).
  assert (Hne : chunk_id c <> chunk_id b).
  { intros Hid.
    assert (c = b) as -> by exact (unique_row _ b c Hnd1 Hb Hc1 Hid).
    unfold eligible in Helig. by rewrite Hs in Helig. }
  destruct (MAX_RETRIES <=? retry_count b).
  - destruct (Scheduler.get_next_chunk fuel now _) as [r'|] eqn:Hr';
      [|discriminate].
    injection Hr as <-. cbn [after returned].
    eapply IH; [| |exact Hs|exact Hr'].
    + cbn [db set_db]. by rewrite ids_update.
    + cbn [db set_db]. by apply In_update_other.
  - injection Hr as <-. cbn [after returned db set_db]. split.
    + by apply In_update_other.
    + intros id s e [= <- _ _]. congruence.
Qed.

Lemma scanning_iteration now outcome later st c :
  NoDup (map chunk_id (scan_state (db st))) ->
  In c (scan_state (db st)) -> chunk_status c = SCANNING ->
  In c (scan_state (db (iteration now outcome later st))).
Proof.
  intros Hnd Hc Hs. unfold iteration.
  destruct (Scheduler.get_next_chunk (enough_fuel st) now st) as [r|] eqn:Hr;
    [|exact Hc].
  destruct (scanning_get_next now c _ _ _ Hnd Hc Hs Hr) as (Hafter & Hret).
  destruct (returned r) as [[[id s] e]|]; [|exact Hafter].
  specialize (Hret id s e eq_refl).
  destruct (negb (PyStr.truthy s) || negb (PyStr.truthy e)).
  - apply In_update_other; [exact Hafter|congruence].
  - destruct outcome as [|msg|]; cbn [db];
      [apply In_update_other; [exact Hafter|congruence]..|exact Hafter].
Qed.

Lemma In_initialize ip_network target p now st c :
  In c (scan_state (db st)) ->
  In c (scan_state (db (initialize_scan ip_network target p now st))).
Proof.
  intros Hc. unfold initialize_scan.
  destruct (ip_network target) as [network|]; [|exact Hc].
  assert (Hone : forall cidr0 s e,
             In c (scan_state (create_scan_chunk cidr0 s e p now (db st)))).
  { intros cidr0 s e.
    destruct (create_scan_chunk_appends cidr0 s e p now (db st)) as (c' & -> & _).
    apply in_or_app. by left. }
  destruct (num_addresses network <=? CHUNK_SIZE); [apply Hone|].
  destruct (prefixlen network <? 24); [|apply Hone].
  cbn [db set_db].
  destruct (create_fold_appends target p now (subnets24 network) (db st))
    as (added & -> & _).
  apply in_or_app. by left.
Qed.

(** A chunk found in SCANNING between two iterations of the main loop
    (the process was interrupted while it was scanned) stays as it is
    for ever: no later iteration hands it out, completes it or fails
    it, and no maintenance run puts it back in the queue. *)
Theorem interrupted_chunk_stays_scanning ip_network events1 events2 c :
  In c (scan_state (db (run ip_network events1 initial))) ->
  chunk_status c = SCANNING ->
  In c (scan_state (db (run ip_network (events1 ++ events2) initial))).
Proof.
  intros Hc Hs. unfold run in *. rewrite fold_left_app.
  pose proof (well_formed_run ip_network events1 initial well_formed_init) as Hwf.
  unfold run in Hwf. revert Hwf Hc.
  generalize (fold_left (step ip_network) events1 initial).
  induction events2 as [|e events2 IH]; intros st Hwf Hc; [exact Hc|].
  cbn [fold_left]. apply IH.
  - exact (well_formed_run ip_network [e] st Hwf).
  - destruct e as [target p now|now outcome later]; cbn [step].
    + by apply In_initialize.
    + apply scanning_iteration; [apply Hwf|exact Hc|exact Hs].
Qed.

Lemma interrupted_chunk_stays_scanning_witness :
  let c := {| chunk_id := 1; cidr := "127.0.0.1/32"; chunk_start := "127.0.0.1";
              chunk_end := "127.0.0.1"; chunk_status := SCANNING; priority := 1;
              retry_count := 0; last_error := None; created_at := 10;
              updated_at := 20 |} in
  In c (scan_state
          (db (run plain_ip_network
                 ([Initialize "127.0.0.1/32" 1 10; Iterate 20 ScanInterrupted 21]
                  ++ [Iterate 30 ScanReturns 31; Iterate 1000000 ScanReturns 1000001])
                 initial))).
Proof.
  intros c.
  apply (interrupted_chunk_stays_scanning plain_ip_network
           [Initialize "127.0.0.1/32" 1 10; Iterate 20 ScanInterrupted 21]
           [Iterate 30 ScanReturns 31; Iterate 1000000 ScanReturns 1000001] c).
  - vm_compute. by left.
  - reflexivity.
Defined.

End EngineExtras.

(** ** Batches with pairwise distinct keys *)

Section BatchExtras.

Import DbManager.

Lemma NoDup_cons_In {A} (a : A) (l : list A) :
  NoDup (a :: l) <-> ~ In a l /\ NoDup l.
Proof. rewrite NoDup_cons, list_elem_of_In. tauto. Qed.

Lemma rows_with_key_In (k : service_key) (svcs : list Service) r :
  In r (rows_with_key k svcs) <-> In r svcs /\ svc_key r = k.
Proof.
  unfold rows_with_key. rewrite <- !list_elem_of_In, list_elem_of_filter. tauto.
Qed.

Lemma rows_with_key_absent (k : service_key) (svcs : list Service) :
  ~ In k (map svc_key svcs) -> rows_with_key k svcs = [].
Proof.
  intros Hk. destruct (rows_with_key k svcs) as [|r l] eqn:E; [done|].
  exfalso. apply Hk. assert (Hr : In r (rows_with_key k svcs)) by (rewrite E; by left).
  apply rows_with_key_In in Hr as [Hr <-]. by apply in_map.
Qed.

Lemma rows_with_key_app (k : service_key) (l1 l2 : list Service) :
  rows_with_key k (l1 ++ l2) = rows_with_key k l1 ++ rows_with_key k l2.
Proof. unfold rows_with_key. apply filter_app. Qed.

Lemma rows_with_key_unique (k : service_key) (svcs : list Service) :
  NoDup (map svc_key svcs) ->
  rows_with_key k svcs = [] \/ exists r, rows_with_key k svcs = [r].
Proof.
  induction svcs as [|a l IH]; intros Hnd; [by left|].
  cbn [map] in Hnd. apply NoDup_cons_In in Hnd as [Hnotin Hnd].
  change (a :: l) with ([a] ++ l). rewrite rows_with_key_app.
  unfold rows_with_key at 1 3. rewrite filter_cons, filter_nil.
  destruct (decide (svc_key a = k)) as [Hk|Hk]; [|by apply IH].
  right. exists a. rewrite rows_with_key_absent; [done|]. by rewrite <- Hk.
Qed.

Lemma unique_by {A B} (f : A -> B) (l : list A) a b :
  NoDup (map f l) -> In a l -> In b l -> f a = f b -> a = b.
Proof.
  induction l as [|x l IH]; intros Hnd Ha Hb Hf; [done|].
  cbn [map] in Hnd. apply NoDup_cons_In in Hnd as [Hnotin Hnd].
  destruct Ha as [<-|Ha], Hb as [<-|Hb]; [done| | |by apply IH].
  - exfalso. apply Hnotin. rewrite Hf. by apply in_map.
  - exfalso. apply Hnotin. rewrite <- Hf. by apply in_map.
Qed.

(** For an observation of the batch, [existing_map] knows the row of
    its key. *)
Lemma existing_member (observations : list ObsDict) (o : ObsDict)
  (svcs : list Service) :
  In o observations ->
  existing_map svcs (map (fun o => ip (obs o)) observations) !! obs_key o
  = (fun s => (svc_id s, svc_banner s, svc_state s))
      <$> last (rows_with_key (obs_key o) svcs).
Proof.
  intros Ho. unfold existing_map. rewrite existing_fold_lookup.
  replace (filter _ svcs) with (rows_with_key (obs_key o) svcs).
  { by destruct (last _). }
  unfold rows_with_key. apply list_filter_iff. intros s.
  split; [|by intros [? _]].
  intros Hk. split; [done|]. apply list_elem_of_In, in_map_iff.
  exists o. split; [|done]. unfold svc_key, obs_key in Hk. by injection Hk as <- _ _.
Qed.

Lemma partition_tuples existing l : forall ti tu hi,
  (fold_left (partition_step existing) l (ti, tu, hi)).1
  = (ti ++ batch_inserts existing l, tu ++ batch_updates existing l).
Proof.
  induction l as [|o l IH]; intros ti tu hi.
  - cbn. by rewrite !app_nil_r.
  - cbn [fold_left]. unfold batch_inserts, batch_updates in *.
    cbn [flat_map]. unfold partition_step at 2.
    destruct (existing !! obs_key o) as [[[sid ob] os]|].
    + rewrite IH. cbn [app]. by rewrite <- app_assoc.
    + rewrite IH. cbn [app]. by rewrite <- app_assoc.
Qed.

Lemma partition_batch_tuples db (l : list ObsDict) :
  (partition_batch db l).1
  = (batch_inserts (existing_map (services db) (map (fun o => ip (obs o)) l)) l,
     batch_updates (existing_map (services db) (map (fun o => ip (obs o)) l)) l).
Proof. unfold partition_batch. by rewrite partition_tuples. Qed.

Lemma batch_inserts_In existing l t :
  In t (batch_inserts existing l) ->
  exists o, In o l /\ existing !! obs_key o = None /\ t = insert_tuple o.
Proof.
  unfold batch_inserts. rewrite in_flat_map. intros (o & Ho & Ht).
  exists o. destruct (existing !! obs_key o); [done|].
  destruct Ht as [<-|[]]. done.
Qed.

Lemma batch_updates_In existing l u :
  In u (batch_updates existing l) ->
  exists o sid b s,
    In o l /\ existing !! obs_key o = Some (sid, b, s) /\ u = update_tuple sid o.
Proof.
  unfold batch_updates. rewrite in_flat_map. intros (o & Ho & Hu).
  exists o. destruct (existing !! obs_key o) as [[[sid b] s]|]; [|done].
  destruct Hu as [<-|[]]. by exists sid, b, s.
Qed.

Lemma batch_inserts_NoDup existing l :
  NoDup (map obs_key l) -> NoDup (map insert_key (batch_inserts existing l)).
Proof.
  induction l as [|o l IH]; intros Hnd; [constructor|].
  cbn [map] in Hnd. apply NoDup_cons_In in Hnd as [Hnotin Hnd].
  unfold batch_inserts in *. cbn [flat_map].
  destruct (existing !! obs_key o); [by apply IH|].
  cbn [app map]. apply NoDup_cons_In. split; [|by apply IH].
  intros (t & Hk & Ht)%in_map_iff.
  apply batch_inserts_In in Ht as (o' & Ho' & _ & ->).
  apply Hnotin. change (insert_key (insert_tuple o')) with (obs_key o') in Hk.
  change (insert_key (insert_tuple o)) with (obs_key o) in Hk.
  rewrite <- Hk. by apply in_map.
Qed.

(** The bulk insert of tuples with pairwise distinct keys, none of them
    in the table, goes through and appends one row per tuple. *)
Lemma insert_services_fresh ts : forall (svcs : list Service) (seq : Z),
  NoDup (map insert_key ts) ->
  (forall t, In t ts -> ~ In (insert_key t) (map svc_key svcs)) ->
  exists added,
    insert_services (svcs, seq) ts = Some (svcs ++ added, seq + Z.of_nat (length ts)) /\
    Forall2 inserted_as ts added /\
    Forall (fun r => seq < svc_id r <= seq + Z.of_nat (length ts)) added /\
    NoDup (map svc_id added).
Proof.
  induction ts as [|t ts IH]; intros svcs seq Hnd Hfresh.
  - exists []. cbn. rewrite app_nil_r, Z.add_0_r. repeat split; constructor.
  - cbn [map] in Hnd. apply NoDup_cons_In in Hnd as [Hnotin Hnd].
    cbn [insert_services insert_service].
    destruct (existsb _ svcs) eqn:Hex.
    { exfalso. apply existsb_exists in Hex as (s & Hs & Hk).
      apply bool_decide_eq_true_1 in Hk.
      apply (Hfresh t); [by left|]. apply in_map_iff. by exists s. }
    set (row := {| svc_id := seq + 1 |}).
    destruct (IH (svcs ++ [row]) (seq + 1) Hnd)
      as (added & Hins & Hrows & Hids & Hndi).
    { intros t' Ht' Hin. rewrite map_app in Hin. apply in_app_or in Hin as [Hin|Hin].
      - by apply (Hfresh t'); [right|].
      - destruct Hin as [Hin|[]]. apply Hnotin. change (svc_key row) with (insert_key t) in Hin.
        rewrite Hin. by apply in_map. }
    exists (row :: added). rewrite Hins. split.
    { f_equal. f_equal; [by rewrite <- app_assoc|]. cbn [length]. lia. }
    split; [by constructor|].
    split.
    + constructor; [subst row; cbn; lia|].
      eapply List.Forall_impl; [|exact Hids]. cbn [length]. intros r. cbn beta. lia.
    + cbn [map]. apply NoDup_cons_In. split; [|exact Hndi].
      intros (r & Hr & Hin)%in_map_iff.
      rewrite List.Forall_forall in Hids. specialize (Hids r Hin).
      subst row. cbn in Hr. lia.
Qed.

Lemma inserted_keys (ts : list InsertTuple) (added : list Service) :
  Forall2 inserted_as ts added -> map svc_key added = map insert_key ts.
Proof.
  induction 1 as [|t r ts added Hr _ IH]; [done|].
  cbn [map]. rewrite IH. by destruct Hr as (-> & _).
Qed.

Lemma inserted_row (ts : list InsertTuple) (added : list Service) t :
  Forall2 inserted_as ts added -> NoDup (map insert_key ts) -> In t ts ->
  exists r, rows_with_key (insert_key t) added = [r] /\ In r added /\
            inserted_as t r.
Proof.
  induction 1 as [|t0 r0 ts added Hr Hrest IH]; intros Hnd Ht; [done|].
  cbn [map] in Hnd. apply NoDup_cons_In in Hnd as [Hnotin Hnd].
  change (r0 :: added) with ([r0] ++ added). rewrite rows_with_key_app.
  unfold rows_with_key at 1. rewrite filter_cons, filter_nil.
  destruct (decide (svc_key r0 = insert_key t)) as [Hk|Hk].
  - assert (Hkt : insert_key t0 = insert_key t) by (by destruct Hr as (<- & _)).
    destruct Ht as [->|Ht].
    + exists r0. rewrite rows_with_key_absent.
      * split; [done|]. split; [by left|done].
      * by rewrite (inserted_keys _ _ Hrest).
    + exfalso. apply Hnotin. rewrite Hkt. by apply in_map.
  - destruct Ht as [->|Ht]; [by destruct Hr as (? & _)|].
    destruct (IH Hnd Ht) as (r & Hrows & Hin & Hfields).
    exists r. split; [done|]. split; [by right|done].
Qed.

Lemma update_services_ids us : forall svcs,
  map svc_id (update_services svcs us) = map svc_id svcs.
Proof.
  unfold update_services. induction us as [|u us IH]; intros svcs; [done|].
  cbn [fold_left]. rewrite IH, map_map. apply map_ext. intros s.
  unfold update_service. by destruct (svc_id s =? u_svc_id u).
Qed.

Lemma rows_with_key_update_services (k : service_key) us : forall svcs,
  rows_with_key k (update_services svcs us)
  = map (updated_row us) (rows_with_key k svcs).
Proof.
  unfold update_services, updated_row.
  induction us as [|u us IH]; intros svcs; cbn [fold_left].
  - by rewrite map_id.
  - by rewrite IH, rows_with_key_map_update, map_map.
Qed.

Lemma updated_row_none us : forall r,
  (forall u, In u us -> u_svc_id u <> svc_id r) -> updated_row us r = r.
Proof.
  unfold updated_row. induction us as [|u us IH]; intros r Hno; [done|].
  cbn [fold_left]. unfold update_service at 2.
  replace (svc_id r =? u_svc_id u) with false.
  - apply IH. intros u' Hu'. apply Hno. by right.
  - symmetry. apply Z.eqb_neq. intros E. by apply (Hno u); [left|].
Qed.

(** When all the updates of a row carry the same state and time, the
    row ends with them. *)
Lemma updated_row_state us (s : string) (t : Z) : forall r,
  (forall u, In u us -> u_svc_id u = svc_id r -> u_state u = s /\ u_ts u = t) ->
  (exists u, In u us /\ u_svc_id u = svc_id r) \/
  (svc_state r = s /\ svc_last_seen r = t) ->
  svc_state (updated_row us r) = s /\ svc_last_seen (updated_row us r) = t /\
  svc_key (updated_row us r) = svc_key r /\
  svc_first_seen (updated_row us r) = svc_first_seen r.
Proof.
  unfold updated_row. induction us as [|u us IH]; intros r Hall Hsome.
  - destruct Hsome as [(u & [] & _)|[? ?]]. by repeat split.
  - cbn [fold_left].
    assert (Hsame : svc_id (update_service u r) = svc_id r /\
                    svc_key (update_service u r) = svc_key r /\
                    svc_first_seen (update_service u r) = svc_first_seen r).
    { unfold update_service. by destruct (svc_id r =? u_svc_id u). }
    destruct Hsame as (Hid & Hkey & Hfs). rewrite <- Hkey, <- Hfs.
    apply IH.
    + intros u' Hu' E. apply Hall; [by right|congruence].
    + destruct (Z.eq_dec (u_svc_id u) (svc_id r)) as [E|E].
      * right. destruct (Hall u (or_introl eq_refl) E) as [<- <-].
        unfold update_service. rewrite E, Z.eqb_refl. done.
      * unfold update_service.
        replace (svc_id r =? u_svc_id u) with false by lia.
        destruct Hsome as [(u' & [->|Hu'] & E')|Hr]; [done| |by right].
        left. by exists u'.
Qed.

Lemma existing_row (observations : list ObsDict) (o : ObsDict)
  (svcs : list Service) sid b s :
  In o observations ->
  existing_map svcs (map (fun o => ip (obs o)) observations) !! obs_key o
  = Some (sid, b, s) ->
  exists r, In r svcs /\ svc_key r = obs_key o /\ svc_id r = sid.
Proof.
  intros Ho. rewrite (existing_member _ _ _ Ho).
  destruct (last _) as [r|] eqn:Hlast; [|done].
  intros [= <- _ _]. exists r.
  apply last_Some in Hlast as (l' & Hl').
  assert (Hr : In r (rows_with_key (obs_key o) svcs)).
  { rewrite Hl'. apply in_or_app. right. by left. }
  apply rows_with_key_In in Hr as [Hr Hk]. done.
Qed.

Lemma existing_none (observations : list ObsDict) (o : ObsDict)
  (svcs : list Service) :
  In o observations ->
  existing_map svcs (map (fun o => ip (obs o)) observations) !! obs_key o = None ->
  ~ In (obs_key o) (map svc_key svcs).
Proof.
  intros Ho. rewrite (existing_member _ _ _ Ho).
  destruct (last _) as [r|] eqn:Hlast; [done|]. intros _.
  apply last_None in Hlast. intros (r & Hk & Hr)%in_map_iff.
  assert (Hin : In r (rows_with_key (obs_key o) svcs))
    by (by apply rows_with_key_In).
  by rewrite Hlast in Hin.
Qed.

(** The bulk statements of a batch with pairwise distinct keys, one
    after the other. *)
Lemma batch_with_distinct_keys observations db :
  store_ok db ->
  NoDup (map obs_key observations) ->
  exists db',
    save_observation_batch observations db = inl db' /\
    store_ok db' /\
    (forall o : ObsDict, In o observations ->
       exists r, rows_with_key (obs_key o) (services db') = [r] /\
                 svc_state r = status o /\ svc_last_seen r = timestamp o) /\
    (forall k, ~ In k (map obs_key observations) ->
       rows_with_key k (services db') = rows_with_key k (services db)).
Proof.
  intros (Hkeys & Hids & Hseq) Hnd. unfold save_observation_batch.
  destruct observations as [|o0 l0].
  { exists db. split; [done|]. split; [done|]. split; [intros o []|done]. }
  remember (o0 :: l0) as obsl eqn:Hobsl. clear Hobsl o0 l0.
  set (ex := existing_map (services db) (map (fun o => ip (obs o)) obsl)).
  pose proof (partition_batch_tuples db obsl) as Hp. fold ex in Hp.
  destruct (partition_batch db obsl) as [[ti tu] hi].
  cbv beta iota delta [fst] in Hp. injection Hp as -> ->.
  assert (Hndi : NoDup (map insert_key (batch_inserts ex obsl)))
    by (by apply batch_inserts_NoDup).
  destruct (insert_services_fresh (batch_inserts ex obsl) (services db)
              (services_seq db) Hndi)
    as (added & Hins & Hrows & Hnew & Hndnew).
  { intros t (o & Ho & Hnone & ->)%batch_inserts_In.
    by apply (existing_none obsl). }
  rewrite Hins.
  destruct (fold_left insert_history hi _) as [hist hseq].
  eexists. split; [reflexivity|]. unfold store_ok. cbn [services services_seq].
  rewrite List.Forall_forall in Hseq, Hnew.
  (* the ids the updates of the batch name are ids of rows of the table *)
  assert (Hupd : forall u, In u (batch_updates ex obsl) ->
            exists (o : ObsDict) r,
              In o obsl /\ In r (services db) /\ svc_key r = obs_key o /\
              svc_id r = u_svc_id u /\ u_state u = status o /\
              u_ts u = timestamp o).
  { intros u (o & sid & b & s & Ho & Hsome & ->)%batch_updates_In.
    destruct (existing_row obsl o (services db) sid b s Ho Hsome)
      as (r & Hr & Hk & Hid).
    by exists o, r. }
  assert (Hkeep : forall r, In r added ->
            updated_row (batch_updates ex obsl) r = r).
  { intros r Hr. apply updated_row_none. intros u Hu E.
    destruct (Hupd u Hu) as (o & r' & _ & Hr' & _ & Hid & _).
    specialize (Hseq r' Hr'). specialize (Hnew r Hr). cbn beta in *. lia. }
  assert (Hadded : forall k, In k (map svc_key added) ->
            exists o : ObsDict, In o obsl /\ obs_key o = k /\ ex !! obs_key o = None).
  { intros k Hk. rewrite (inserted_keys _ _ Hrows) in Hk.
    apply in_map_iff in Hk as (t & <- & Ht).
    apply batch_inserts_In in Ht as (o & Ho & Hnone & ->). by exists o. }
  split; [|split].
  - (* the table stays well formed *)
    split; [|split].
    + rewrite update_services_keys.
      by apply (insert_services_keys _ _ _ _ _ Hkeys Hins).
    + rewrite update_services_ids, map_app. apply NoDup_app.
      split; [exact Hids|]. split; [|exact Hndnew].
      intros i Hi Hi'. apply list_elem_of_In, in_map_iff in Hi as (r & <- & Hr).
      apply list_elem_of_In, in_map_iff in Hi' as (r' & E & Hr').
      specialize (Hseq r Hr). specialize (Hnew r' Hr'). cbn beta in *. lia.
    + apply List.Forall_forall. intros r Hr.
      apply (in_map svc_id) in Hr. rewrite update_services_ids, map_app in Hr.
      apply in_app_or in Hr as [Hr|Hr]; apply in_map_iff in Hr as (r' & <- & Hr').
      * specialize (Hseq r' Hr'). cbn beta in Hseq. lia.
      * specialize (Hnew r' Hr'). cbn beta in Hnew. lia.
  - (* each observation has its row *)
    intros o Ho.
    rewrite rows_with_key_update_services, rows_with_key_app.
    destruct (ex !! obs_key o) as [[[sid b] s]|] eqn:Hex.
    + destruct (existing_row obsl o (services db) sid b s Ho Hex)
        as (r & Hr & Hk & Hid).
      assert (Hone : rows_with_key (obs_key o) (services db) = [r]).
      { destruct (rows_with_key_unique (obs_key o) (services db) Hkeys)
          as [Hnone|(r' & Hone)].
        - assert (Hin : In r (rows_with_key (obs_key o) (services db)))
            by (by apply rows_with_key_In).
          by rewrite Hnone in Hin.
        - assert (Hin : In r (rows_with_key (obs_key o) (services db)))
            by (by apply rows_with_key_In).
          rewrite Hone in Hin. destruct Hin as [->|[]]. done. }
      rewrite Hone, rows_with_key_absent.
      2:{ intros (o' & Ho' & Hk' & Hnone)%Hadded.
          assert (o' = o) as -> by (by eapply (unique_by obs_key obsl)).
          congruence. }
      cbn [app map]. eexists. split; [reflexivity|].
      destruct (updated_row_state (batch_updates ex obsl) (status o) (timestamp o) r)
        as (Hst & Hls & _).
      * intros u Hu E. destruct (Hupd u Hu) as (o' & r' & Ho' & Hr' & Hk' & Hid' & -> & ->).
        assert (r' = r) as ->
          by (eapply (unique_by svc_id (services db)); [done..|congruence]).
        assert (o' = o) as ->
          by (eapply (unique_by obs_key obsl); [done..|congruence]).
        done.
      * left. exists (update_tuple sid o). split; [|by cbn].
        unfold batch_updates. apply in_flat_map. exists o. split; [done|].
        rewrite Hex. by left.
      * done.
    + rewrite (rows_with_key_absent _ (services db))
        by (by apply (existing_none obsl)).
      assert (Ht : In (insert_tuple o) (batch_inserts ex obsl)).
      { unfold batch_inserts. apply in_flat_map. exists o. split; [done|].
        rewrite Hex. by left. }
      destruct (inserted_row _ _ _ Hrows Hndi Ht) as (r & Hone & Hr & Hfields).
      change (insert_key (insert_tuple o)) with (obs_key o) in Hone.
      rewrite Hone. cbn [app map]. rewrite (Hkeep r Hr).
      exists r. split; [done|]. by destruct Hfields as (_ & -> & _ & ->).
  - (* the other keys *)
    intros k Hk.
    rewrite rows_with_key_update_services, rows_with_key_app.
    rewrite (rows_with_key_absent k added), app_nil_r.
    2:{ intros (o & Ho & <- & _)%Hadded. apply Hk. by apply in_map. }
    rewrite <- (map_id (rows_with_key k (services db))) at 2.
    apply map_ext_in. intros r Hr. apply rows_with_key_In in Hr as [Hr Hkr].
    apply updated_row_none. intros u Hu E.
    destruct (Hupd u Hu) as (o & r' & Ho & Hr' & Hk' & Hid & _).
    assert (r' = r) as ->
      by (eapply (unique_by svc_id (services db)); [done..|congruence]).
    apply Hk. rewrite <- Hkr, Hk'. by apply in_map.
Qed.

(** A batch whose observations have pairwise distinct keys always
    commits: each key ends with exactly one Service row, carrying the
    status and the time of its observation, the rows of the other keys
    are as they were, and the table keeps unique keys and ids. *)
Theorem distinct_keys_batch_commits observations db :
  store_ok db ->
  NoDup (map obs_key observations) ->
  exists db',
    save_observation_batch observations db = inl db' /\
    store_ok db' /\
    (forall o : ObsDict, In o observations ->
       exists r, rows_with_key (obs_key o) (services db') = [r] /\
                 svc_state r = status o /\ svc_last_seen r = timestamp o) /\
    (forall k, ~ In k (map obs_key observations) ->
       rows_with_key k (services db') = rows_with_key k (services db)).
Proof.
  intros Hok Hnd.
  destruct (batch_with_distinct_keys observations db Hok Hnd)
    as (db' & Hsave & Hok' & Hrows & Hframe).
  exists db'. split; [exact Hsave|]. split; [exact Hok'|].
  split; [exact Hrows|exact Hframe].
Qed.

Lemma distinct_keys_batch_commits_witness :
  let batch :=
    [ssh_observation "closed" None 200;
     {| obs := Probes.observation "1.2.3.5" 80 "http" "open" 200 None None;
        analysis := None |}] in
  let db := db_after (save_observation_batch
                        [ssh_observation "open" (Some "SSH-2.0-A") 100] init_db)
                     init_db in
  exists db',
    save_observation_batch batch db = inl db' /\
    store_ok db' /\
    (forall o : ObsDict, In o batch ->
       exists r, rows_with_key (obs_key o) (services db') = [r] /\
                 svc_state r = status o /\ svc_last_seen r = timestamp o) /\
    (forall k, ~ In k (map obs_key batch) ->
       rows_with_key k (services db') = rows_with_key k (services db)).
Proof.
  intros batch db.
  apply (distinct_keys_batch_commits batch db).
  - split; [|split].
    + apply (bool_decide_unpack _). reflexivity.
    + apply (bool_decide_unpack _). reflexivity.
    + repeat constructor. vm_compute. discriminate.
  - apply (bool_decide_unpack _). reflexivity.
Defined.

End BatchExtras.

(** ** More on the probes *)

Section ProbeExtras.

Import Probes.

Variable decode_ignore : string -> string.
Variable decode_strict : string -> Outcome string.
Variable py_int : string -> option Z.
Variable py_lower : string -> string.

Local Abbreviation run_probe := (run decode_ignore decode_strict py_int py_lower).

(** *** What a probe returns *)








(** *** What a probe writes *)






















(** *** A peer that accepts the connection and then fails the read *)

(** When the connection is made, the writes go through and the first
    read fails with [e] (the timeout of [wait_for], say, because the
    peer sends nothing), the generic TCP probe still answers open, with
    an empty banner, while each of the seven protocol probes answers
    closed with [str(e)] as the reason; if closing the connection then
    fails with [cr], the TCP probe answers by the class of [cr]
    (timeout, closed, error) or lets [cr] through. *)
Theorem read_failure_open_only_for_tcp port0 ip_address now e rest cr out :
  fst (run_probe (get_probe port0) ip_address now
         {| connect_result := None; incoming := inl e :: rest;
            drain_results := []; close_result := None; sent := out |})
  = match probe_class (get_probe port0) with
    | TCPProbe =>
        Returns (observation ip_address port0 "tcp" "open" now None (Some ""))
    | c =>
        Returns (closed_on_exception ip_address port0 (failure_service c) now e)
    end
  /\
  fst (run_probe (get_probe port0) ip_address now
         {| connect_result := None; incoming := inl e :: rest;
            drain_results := []; close_result := Some cr; sent := out |})
  = match probe_class (get_probe port0) with
    | TCPProbe =>
        match cr with
        | TimeoutError _ =>
            Returns (observation ip_address port0 "tcp" "timeout" now
                       (Some "Timeout") None)
        | ConnectionRefusedError _ =>
            Returns (observation ip_address port0 "tcp" "closed" now
                       (Some "Refused") None)
        | OSError m =>
            Returns (observation ip_address port0 "tcp" "error" now (Some m) None)
        | _ => Raises cr
        end
    | c =>
        Returns (closed_on_exception ip_address port0 (failure_service c) now e)
    end.
Proof.
  destruct (get_probe_class port0) as [Hport _]. unfold run. rewrite Hport.
  split.
  - by destruct (probe_class (get_probe port0)).
  - destruct (probe_class (get_probe port0)); try reflexivity. by destruct cr.
Qed.

End ProbeExtras.

(** ** More on the fingerprints *)

Section FingerprintExtras.

Import Fingerprint.

Variable re_search : string -> string -> option groups.
Variable py_lower : string -> string.

Lemma check_empty text regex :
  PyStr.or_empty text = "" -> check re_search text regex = (false, None).
Proof. unfold check. destruct text as [t|]; [|done]. cbn. by intros ->. Qed.

Lemma nothing_to_match_entry o (e : evidence_entry) :
  nothing_to_match o -> matches re_search py_lower o e = false.
Proof.
  intros (Hbanner & Hbody & Hheaders). unfold matches, match_location.
  repeat (match goal with |- context [if ?b then _ else _] => destruct b end);
    try (by rewrite check_empty); [|done].
  rewrite check_empty; [done|].
  destruct (headers o !! _) as [v|] eqn:Hv; [|done]. cbn. by eapply Hheaders.
Qed.

Lemma no_match_filter o (ev : list evidence_entry) :
  (forall e, In e ev -> matches re_search py_lower o e = false) ->
  filter (fun e => matches re_search py_lower o e = true) ev = [].
Proof.
  induction ev as [|e ev IH]; intros H; [done|].
  rewrite filter_cons, decide_False.
  - apply IH. intros e' He'. apply H. by right.
  - rewrite (H e); [done|by left].
Qed.

Lemma no_match_score o r :
  (forall e, In e (evidence r) -> matches re_search py_lower o e = false) ->
  capped_total re_search py_lower o r = 0 /\ evaluated re_search py_lower o r = r.
Proof.
  intros H. apply no_match_filter in H. split.
  - unfold capped_total. by rewrite weight_sum_no_match.
  - unfold evaluated, groups_after. rewrite H. by destruct r.
Qed.

Lemma weight_sum_positive o (ev : list evidence_entry) :
  forallb (fun e : evidence_entry => 0 <? e.2) ev = true ->
  0 <= weight_sum re_search py_lower o ev /\
  (forall e, In e ev -> matches re_search py_lower o e = true ->
     0 < weight_sum re_search py_lower o ev).
Proof.
  induction ev as [|e ev IH]; intros Hpos; [by split|].
  cbn [forallb] in Hpos. apply andb_prop in Hpos as [He Hrest].
  destruct (IH Hrest) as [Hnn Hsome]. cbn [weight_sum fold_right].
  fold (weight_sum re_search py_lower o ev). split.
  - destruct (matches re_search py_lower o e); lia.
  - intros e' [<-|He'] Hm.
    + rewrite Hm. lia.
    + specialize (Hsome e' He' Hm). destruct (matches re_search py_lower o e); lia.
Qed.

(** When no evidence entry matches, the loop of [analyze] ends as it
    began. *)
Lemma no_match_analysis rules o :
  (forall r e, In r rules -> In e (evidence r) -> matches re_search py_lower o e = false) ->
  analyze re_search py_lower rules o = (unknown_result, rules).
Proof.
  intros Hno.
  assert (Hall : forall r, In r rules ->
                   capped_total re_search py_lower o r = 0 /\
                   evaluated re_search py_lower o r = r).
  { intros r Hr. apply no_match_score. intros e He. by apply (Hno r). }
  destruct (analyze_spec re_search py_lower o rules)
    as [Hsnd [[Hres _] | (i & r & (Hi & _) & Hpos & _)]].
  - rewrite (surjective_pairing (analyze re_search py_lower rules o)), Hres, Hsnd.
    f_equal. rewrite <- (map_id rules) at 2. apply map_ext_in.
    intros r Hr. by apply Hall.
  - apply list_elem_of_lookup_2, list_elem_of_In in Hi.
    destruct (Hall r Hi) as [Hzero _]. lia.
Qed.

(** An observation with nothing to match against (as every
    Observation of a failed probe is) is never attributed to a rule:
    [analyze] answers the "unknown" analysis, confidence 0, whatever the
    rules and their weights, and leaves the rule objects as they
    were. *)
Theorem nothing_to_match_is_unknown rules o :
  nothing_to_match o ->
  analyze re_search py_lower rules o = (unknown_result, rules).
Proof.
  intros Hnone. apply no_match_analysis.
  intros r e _ _. by apply nothing_to_match_entry.
Qed.

(** With positive weights, as in [RULES], [analyze] answers "unknown"
    exactly when no evidence entry of any rule matches the
    observation. *)
Theorem unknown_iff_nothing_matches rules o :
  positive_weights rules = true ->
  (fst (analyze re_search py_lower rules o) = unknown_result <->
   forall r e, In r rules -> In e (evidence r) -> matches re_search py_lower o e = false).
Proof.
  intros Hpos. unfold positive_weights in Hpos. rewrite forallb_forall in Hpos.
  destruct (analyze_spec re_search py_lower o rules)
    as [_ [[Hres Hle] | (i & r & Hwin & Hgt & Hres)]]; rewrite Hres; split.
  - intros _ r e Hr He. destruct (matches re_search py_lower o e) eqn:Hm; [|done].
    destruct (weight_sum_positive o (evidence r) (Hpos r Hr)) as [_ Hsome].
    specialize (Hsome e He Hm). specialize (Hle r Hr).
    unfold capped_total in Hle. lia.
  - done.
  - intros Heq. apply (f_equal a_confidence) in Heq. cbn in Heq. lia.
  - intros Hno. destruct Hwin as (Hi & _).
    apply list_elem_of_lookup_2, list_elem_of_In in Hi.
    destruct (no_match_score o r (fun e He => Hno r e Hi He)) as [Hzero _]. lia.
Qed.

End FingerprintExtras.

Lemma nothing_to_match_is_unknown_witness :
  Fingerprint.analyze (fun _ _ => Some []) PyStr.lower_ascii_string
    Fingerprint.RULES
    (Probes.closed_on_exception "10.0.0.1" 22 "ssh" 100
       (Probes.TimeoutError "timed out"))
  = (Fingerprint.unknown_result, Fingerprint.RULES).
Proof.
  apply (nothing_to_match_is_unknown (fun _ _ => Some []) PyStr.lower_ascii_string
           Fingerprint.RULES).
  split; [reflexivity|]. split; [reflexivity|].
  intros k v H. change ((∅ : gmap string string) !! k = Some v) in H.
  by rewrite lookup_empty in H.
Defined.

Lemma unknown_iff_nothing_matches_witness :
  let re_search := fun (regex text : string) =>
    if String.eqb regex "OpenSSH" then Some [] else None in
  let o := Probes.observation "10.0.0.1" 22 "ssh" "open" 100 None
             (Some "SSH-2.0-OpenSSH_8.2p1 | Device: [OpenSSH]") in
  Fingerprint.positive_weights Fingerprint.RULES = true /\
  (fst (Fingerprint.analyze re_search PyStr.lower_ascii_string Fingerprint.RULES o)
   = Fingerprint.unknown_result <->
   forall r e, In r Fingerprint.RULES -> In e (Fingerprint.evidence r) ->
               Fingerprint.matches re_search PyStr.lower_ascii_string o e = false).
Proof.
  intros re_search o. split; [reflexivity|].
  apply (unknown_iff_nothing_matches re_search PyStr.lower_ascii_string
           Fingerprint.RULES o).
  reflexivity.
Defined.

(** ** The scan of a chunk *)

Section ScannerExtras.

Import DbManager Scheduler Scanner.

(** *** Results with pairwise distinct keys *)

Lemma flush_remaining_save (st : list ObsDict * Db) :
  flush_remaining st = save_observation_batch st.1 st.2.
Proof. unfold flush_remaining. by destruct st.1. Qed.

Lemma NoDup_app_In {A} (l1 l2 : list A) :
  NoDup (l1 ++ l2) <->
  NoDup l1 /\ (forall x, In x l1 -> ~ In x l2) /\ NoDup l2.
Proof.
  rewrite NoDup_app. split; intros (H1 & H & H2); (split; [done|split; [|done]]).
  - intros x Hx Hx'. apply (H x); by apply list_elem_of_In.
  - intros x Hx Hx'. apply (H x); by apply list_elem_of_In.
Qed.

(** A batch leaves the results of other keys stored. *)
Lemma stored_frame (o : ObsDict) (observations : list ObsDict) db db' :
  (forall k, ~ In k (map obs_key observations) ->
     rows_with_key k (services db') = rows_with_key k (services db)) ->
  ~ In (obs_key o) (map obs_key observations) ->
  stored o db -> stored o db'.
Proof.
  intros Hframe Hk (r & Hr & Hfields). exists r. by rewrite Hframe.
Qed.

Lemma save_distinct_stored (done batch : list ObsDict) db :
  store_ok db -> NoDup (map obs_key (done ++ batch)) ->
  (forall o, In o done -> stored o db) ->
  exists db',
    save_observation_batch batch db = inl db' /\ store_ok db' /\
    forall o, In o (done ++ batch) -> stored o db'.
Proof.
  intros Hok Hnd Hdone. rewrite map_app in Hnd.
  apply NoDup_app_In in Hnd as (_ & Hdisj & Hnd).
  destruct (batch_with_distinct_keys batch db Hok Hnd)
    as (db' & Hsave & Hok' & Hrows & Hframe).
  exists db'. split; [exact Hsave|]. split; [exact Hok'|].
  intros o [Ho|Ho]%in_app_or.
  - apply (stored_frame o batch db db' Hframe); [|by apply Hdone].
    apply Hdisj. by apply in_map.
  - by apply Hrows.
Qed.

Lemma scan_chunk_from_distinct (rest : list ObsDict) :
  forall (buffer done : list ObsDict) db,
  store_ok db -> NoDup (map obs_key (done ++ buffer ++ rest)) ->
  (forall o, In o done -> stored o db) ->
  exists db',
    scan_chunk_from (buffer, db) rest = inl db' /\ store_ok db' /\
    forall o, In o (done ++ buffer ++ rest) -> stored o db'.
Proof.
  unfold scan_chunk_from.
  induction rest as [|o rest IH]; intros buffer done db Hok Hnd Hdone.
  - cbn [fold_left]. rewrite flush_remaining_save, app_nil_r in *. cbn [fst snd].
    by apply save_distinct_stored.
  - cbn [fold_left]. unfold buffer_result at 2. cbn [fst snd].
    assert (Heq : done ++ buffer ++ o :: rest = done ++ (buffer ++ [o]) ++ rest)
      by (by rewrite <- (app_assoc buffer)).
    destruct (batch_size <=? length (buffer ++ [o]))%nat.
    + assert (Hnd' : NoDup (map obs_key (done ++ buffer ++ [o]))).
      { rewrite Heq, !app_assoc, map_app in Hnd.
        apply NoDup_app_In in Hnd as (Hnd & _). by rewrite <- app_assoc in Hnd. }
      destruct (save_distinct_stored done (buffer ++ [o]) db Hok Hnd' Hdone)
        as (db1 & -> & Hok1 & Hstored1).
      destruct (IH [] (done ++ buffer ++ [o]) db1 Hok1) as (db' & Hscan & Hok' & Hall).
      * cbn [app]. by rewrite Heq, !app_assoc in *.
      * exact Hstored1.
      * exists db'. split; [exact Hscan|]. split; [exact Hok'|].
        intros x Hx. apply Hall. cbn [app]. by rewrite Heq, !app_assoc in *.
    + destruct (IH (buffer ++ [o]) done db Hok) as (db' & Hscan & Hok' & Hall).
      * by rewrite <- Heq.
      * exact Hdone.
      * exists db'. split; [exact Hscan|]. split; [exact Hok'|].
        intros x Hx. apply Hall. by rewrite <- Heq.
Qed.

(** When the results of a chunk have pairwise distinct keys, no flush
    of the buffer raises, whatever the order in which the workers
    append them: [scan_chunk] reaches [complete_chunk], and every result
    has its Service row, with its status and its time. *)
Theorem scan_chunk_stores_every_result (results : list ObsDict) db :
  store_ok db -> NoDup (map obs_key results) ->
  exists db',
    scan_chunk results db = inl db' /\ store_ok db' /\
    forall o, In o results -> stored o db'.
Proof.
  intros Hok Hnd.
  destruct (scan_chunk_from_distinct results [] [] db Hok Hnd)
    as (db' & Hscan & Hok' & Hall); [by intros o []|].
  exists db'. split; [exact Hscan|]. by split.
Qed.

Lemma scan_chunk_stores_every_result_witness :
  let results :=
    [ssh_observation "open" (Some "SSH-2.0-A") 100;
     {| obs := Probes.observation "1.2.3.4" 80 "http" "closed" 101
                 (Some "refused") None;
        analysis := None |}] in
  exists db',
    scan_chunk results init_db = inl db' /\ store_ok db' /\
    forall o, In o results -> stored o db'.
Proof.
  intros results.
  apply (scan_chunk_stores_every_result results init_db).
  - repeat split; constructor.
  - apply (bool_decide_unpack _). reflexivity.
Defined.

(** *** A flush that raises *)

Lemma insert_services_prefix_fails (l1 l2 : list InsertTuple) : forall st,
  insert_services st l1 = None -> insert_services st (l1 ++ l2) = None.
Proof.
  induction l1 as [|t l1 IH]; intros st H; [done|].
  cbn [app insert_services] in *.
  destruct (insert_service st t) as [st'|]; [by apply IH|done].
Qed.

Lemma batch_inserts_ext existing existing' (l : list ObsDict) :
  (forall o, In o l -> existing !! obs_key o = existing' !! obs_key o) ->
  batch_inserts existing l = batch_inserts existing' l.
Proof.
  unfold batch_inserts. induction l as [|o l IH]; intros H; [done|].
  cbn [flat_map]. rewrite (H o) by (by left). rewrite IH; [done|].
  intros o' Ho'. apply H. by right.
Qed.

Lemma save_raises_insert (observations : list ObsDict) db e :
  save_observation_batch observations db = inr e ->
  e = IntegrityError "services.ip, services.port, services.protocol" /\
  insert_services (services db, services_seq db)
    (batch_inserts
       (existing_map (services db) (map (fun o => ip (obs o)) observations))
       observations) = None.
Proof.
  unfold save_observation_batch. destruct observations as [|o0 l0]; [done|].
  remember (o0 :: l0) as obsl eqn:Hobsl. clear Hobsl o0 l0.
  pose proof (partition_batch_tuples db obsl) as Hp.
  destruct (partition_batch db obsl) as [[ti tu] hi].
  cbv beta iota delta [fst] in Hp. injection Hp as -> ->.
  destruct (insert_services _ _) as [[svcs1 sseq]|]; [|by intros [= <-]].
  by destruct (fold_left insert_history hi _).
Qed.

(** A batch the store refuses is refused again with more results
    behind it. *)
Lemma save_raises_longer (l1 l2 : list ObsDict) db e :
  save_observation_batch l1 db = inr e ->
  save_observation_batch (l1 ++ l2) db = inr e.
Proof.
  intros Hfail. destruct (save_raises_insert _ _ _ Hfail) as [-> Hins].
  unfold save_observation_batch.
  destruct (l1 ++ l2) as [|o0 l0] eqn:Hl.
  { apply app_eq_nil in Hl as [-> _]. discriminate. }
  rewrite <- Hl. clear Hl o0 l0.
  pose proof (partition_batch_tuples db (l1 ++ l2)) as Hp.
  destruct (partition_batch db (l1 ++ l2)) as [[ti tu] hi].
  cbv beta iota delta [fst] in Hp. injection Hp as -> ->.
  assert (Hti : batch_inserts
                  (existing_map (services db)
                     (map (fun o => ip (obs o)) (l1 ++ l2))) (l1 ++ l2)
                = batch_inserts
                    (existing_map (services db) (map (fun o => ip (obs o)) l1)) l1
                  ++ batch_inserts
                       (existing_map (services db)
                          (map (fun o => ip (obs o)) (l1 ++ l2))) l2).
  { unfold batch_inserts at 1. rewrite flat_map_app. f_equal.
    apply batch_inserts_ext. intros o Ho.
    rewrite !existing_member; [done|done|]. apply in_or_app. by left. }
  rewrite Hti, (insert_services_prefix_fails _ _ _ Hins). done.
Qed.

(** Once the buffer holds a batch the store refuses, it is never
    cleared: every later flush is refused as well, nothing more of the
    chunk reaches the database, and [scan_chunk] ends with the exception
    instead of completing the chunk. *)
Theorem refused_batch_poisons_the_buffer (rest buffer : list ObsDict) db e :
  save_observation_batch buffer db = inr e ->
  fold_left buffer_result rest (buffer, db) = (buffer ++ rest, db) /\
  scan_chunk_from (buffer, db) rest = inr e.
Proof.
  intros Hfail.
  assert (Hfold : fold_left buffer_result rest (buffer, db) = (buffer ++ rest, db)).
  { revert buffer Hfail. induction rest as [|o rest IH]; intros buffer Hfail.
    - by rewrite app_nil_r.
    - cbn [fold_left]. unfold buffer_result at 2. cbn [fst snd].
      pose proof (save_raises_longer buffer [o] db e Hfail) as Hfail'.
      rewrite Hfail'.
      replace (buffer ++ o :: rest) with ((buffer ++ [o]) ++ rest)
        by (by rewrite <- app_assoc).
      destruct (batch_size <=? length (buffer ++ [o]))%nat; by apply IH. }
  split; [exact Hfold|].
  unfold scan_chunk_from. rewrite Hfold, flush_remaining_save. cbn [fst snd].
  by apply save_raises_longer.
Qed.

Lemma refused_batch_poisons_the_buffer_witness :
  let twice := [ssh_observation "open" (Some "SSH-2.0-A") 100;
                ssh_observation "open" (Some "SSH-2.0-A") 101] in
  let rest := [{| obs := Probes.observation "1.2.3.5" 80 "http" "open" 102
                           None (Some "HTTP/1.1 200 OK");
                  analysis := None |}] in
  fold_left buffer_result rest (twice, init_db) = (twice ++ rest, init_db) /\
  scan_chunk_from (twice, init_db) rest
  = inr (IntegrityError "services.ip, services.port, services.protocol").
Proof.
  intros twice rest.
  apply (refused_batch_poisons_the_buffer rest twice init_db). reflexivity.
Defined.

End ScannerExtras.

(** ** A worker on a failed probe *)

Section WorkerExtras.

Import DbManager Scanner.

Variable re_search : string -> string -> option Fingerprint.groups.
Variable py_lower : string -> string.

Lemma analysed_nothing_to_match rules o :
  Fingerprint.nothing_to_match o ->
  analysed re_search py_lower rules o
  = ({| obs := o; analysis := Some Fingerprint.unknown_result |}, rules).
Proof.
  intros Hnone. unfold analysed. rewrite no_match_analysis; [done|].
  intros r e _ _. by apply nothing_to_match_entry.
Qed.

(** When a worker observes a stored service again and the probe has
    nothing to show (a closed port, a timeout), the update overwrites
    what was known of the service with the "unknown" analysis: type,
    vendor and product become "unknown", the confidence 0 and the tags
    empty, while the version is kept, since it is the only column the
    analysis leaves [None]. *)
Theorem failed_probe_forgets_identity rules o db r :
  Fingerprint.nothing_to_match o ->
  rows_with_key (ip o, port o, protocol o) (services db) = [r] ->
  exists db' r',
    save_observation_batch [(analysed re_search py_lower rules o).1] db = inl db' /\
    rows_with_key (ip o, port o, protocol o) (services db') = [r'] /\
    svc_id r' = svc_id r /\ svc_first_seen r' = svc_first_seen r /\
    svc_last_seen r' = timestamp o /\ svc_state r' = status o /\
    svc_service_type r' = Some "unknown" /\ svc_vendor r' = Some "unknown" /\
    svc_product r' = Some "unknown" /\ svc_confidence r' = Some 0 /\
    svc_tags r' = [] /\ svc_version r' = svc_version r.
Proof.
  intros Hnone Hone. rewrite analysed_nothing_to_match by done. cbn [fst].
  set (od := {| obs := o; analysis := Some Fingerprint.unknown_result |}).
  change (ip o, port o, protocol o) with (obs_key od) in *.
  assert (Hex : existing_map (services db) [ip od] !! obs_key od
                = Some (svc_id r, svc_banner r, svc_state r)).
  { by rewrite existing_single, Hone. }
  unfold save_observation_batch, partition_batch.
  cbn [map fold_left]. unfold partition_step. rewrite Hex.
  cbn [insert_services update_services fold_left].
  destruct (fold_left insert_history _ _) as [hist hseq].
  eexists _, _. split; [reflexivity|]. cbn [services app].
  unfold update_services. cbn [fold_left].
  rewrite rows_with_key_map_update, Hone. cbn [map].
  split; [reflexivity|].
  unfold update_service. cbn [u_svc_id]. rewrite Z.eqb_refl.
  by repeat split.
Qed.

End WorkerExtras.

Lemma failed_probe_forgets_identity_witness :
  let seen :=
    DbManager.mkObsDict
      (Probes.observation "1.2.3.4" 22 "ssh" "open" 100 None
         (Some "SSH-2.0-OpenSSH_8.2p1"))
      (Some (Fingerprint.mkAnalysis "ssh" "OpenBSD" "OpenSSH" (Some "8.2p1") []
               100 ["Matched banner"])) in
  let db := DbManager.db_after
              (DbManager.save_observation_batch [seen] DbManager.init_db)
              DbManager.init_db in
  let o := Probes.closed_on_exception "1.2.3.4" 22 "ssh" 200
             (Probes.TimeoutError "timed out") in
  exists db' r',
    DbManager.save_observation_batch
      [(Scanner.analysed (fun _ _ => None) PyStr.lower_ascii_string
          Fingerprint.RULES o).1] db = inl db' /\
    DbManager.rows_with_key ("1.2.3.4", 22, "tcp") (DbManager.services db') = [r'] /\
    DbManager.svc_state r' = "closed" /\
    DbManager.svc_vendor r' = Some "unknown" /\
    DbManager.svc_version r' = Some "8.2p1".
Proof.
  intros seen db o.
  edestruct (failed_probe_forgets_identity (fun _ _ => None)
               PyStr.lower_ascii_string Fingerprint.RULES o db)
    as (db' & r' & Hsave & Hrows & _ & _ & _ & Hst & _ & Hv & _ & _ & _ & Hver).
  - split; [reflexivity|]. split; [reflexivity|].
    intros k v H. change ((∅ : gmap string string) !! k = Some v) in H.
    by rewrite lookup_empty in H.
  - reflexivity.
  - exists db', r'. split; [exact Hsave|]. split; [exact Hrows|].
    split; [exact Hst|]. split; [exact Hv|]. exact Hver.
Defined.

(** ** From the network to the targets *)

Section CoverageExtras.

Import DbManager Scheduler Scanner.

(** *** Dotted quads, written and read back *)

Lemma str_app_cons x (a b : string) : String x a +:+ b = String x (a +:+ b).
Proof. reflexivity. Qed.

Lemma str_app_nil_r (a : string) : a +:+ "" = a.
Proof. induction a as [|x a IH]; [done|]. by rewrite str_app_cons, IH. Qed.

Lemma rev_app_rev_app (t : string) : forall cur acc,
  String.rev_app (String.rev_app t cur) acc = String.rev_app cur (t +:+ acc).
Proof.
  induction t as [|c t IH]; intros cur acc; [done|].
  cbn [String.rev_app]. by rewrite IH, str_app_cons.
Qed.

Lemma rev_rev_app (t : string) : String.rev (String.rev_app t "") = t.
Proof.
  unfold String.rev. rewrite rev_app_rev_app. cbn [String.rev_app].
  apply str_app_nil_r.
Qed.

(** [split] cuts at the first separator after a part without one. *)
Lemma split_aux_part sep (t : string) : forall cur rest,
  PyStr.free_of sep t = true ->
  PyStr.split_aux sep cur (t +:+ String sep rest)
  = String.rev (String.rev_app t cur) :: PyStr.split_aux sep "" rest.
Proof.
  induction t as [|c t IH]; intros cur rest Hfree.
  - change ("" +:+ String sep rest) with (String sep rest).
    cbn [PyStr.split_aux String.rev_app]. by rewrite Ascii.eqb_refl.
  - cbn [PyStr.free_of] in Hfree. apply andb_prop in Hfree as [Hc Hfree].
    apply negb_true_iff in Hc. rewrite str_app_cons. cbn [PyStr.split_aux].
    by rewrite Hc, IH.
Qed.

Lemma split_aux_last sep (t : string) : forall cur,
  PyStr.free_of sep t = true ->
  PyStr.split_aux sep cur t = [String.rev (String.rev_app t cur)].
Proof.
  induction t as [|c t IH]; intros cur Hfree; [done|].
  cbn [PyStr.free_of] in Hfree. apply andb_prop in Hfree as [Hc Hfree].
  apply negb_true_iff in Hc. cbn [PyStr.split_aux].
  by rewrite Hc, IH.
Qed.

Lemma split_four (a b c d : string) :
  PyStr.free_of "." a = true -> PyStr.free_of "." b = true ->
  PyStr.free_of "." c = true -> PyStr.free_of "." d = true ->
  PyStr.split "." (a +:+ "." +:+ b +:+ "." +:+ c +:+ "." +:+ d) = [a; b; c; d].
Proof.
  intros Ha Hb Hc Hd. unfold PyStr.split.
  change ("." +:+ b +:+ "." +:+ c +:+ "." +:+ d)
    with (String "." (b +:+ String "." (c +:+ String "." d))).
  rewrite !split_aux_part, split_aux_last by done.
  by rewrite !rev_rev_app.
Qed.

(** The decimal of an octet has no dot and reads back as the octet. *)
Lemma octet_round_trip n :
  0 <= n < 256 ->
  PyStr.free_of "." (dec n) = true /\ parse_octet (dec n) = Some n.
Proof.
  intros Hn.
  assert (Hall : forallb
            (fun i => PyStr.free_of "." (dec (Z.of_nat i))
                      && bool_decide (parse_octet (dec (Z.of_nat i))
                                      = Some (Z.of_nat i)))
            (seq 0 256) = true) by (vm_compute; reflexivity).
  rewrite forallb_forall in Hall.
  specialize (Hall (Z.to_nat n)). rewrite Z2Nat.id in Hall by lia.
  destruct (andb_prop _ _ (Hall ltac:(apply in_seq; lia))) as [Hfree Hparse].
  split; [exact Hfree|]. by apply bool_decide_eq_true_1 in Hparse.
Qed.

Lemma parse_ipv4_ip_str a :
  0 <= a < 2 ^ 32 -> parse_ipv4 (ip_str a) = Some a.
Proof.
  intros Ha. unfold parse_ipv4, ip_str.
  destruct (octet_round_trip (a / 16777216 mod 256)) as [F1 P1];
    [by apply Z.mod_pos_bound|].
  destruct (octet_round_trip (a / 65536 mod 256)) as [F2 P2];
    [by apply Z.mod_pos_bound|].
  destruct (octet_round_trip (a / 256 mod 256)) as [F3 P3];
    [by apply Z.mod_pos_bound|].
  destruct (octet_round_trip (a mod 256)) as [F4 P4];
    [by apply Z.mod_pos_bound|].
  rewrite split_four by done. rewrite P1, P2, P3, P4. f_equal.
  change (2 ^ 32) with 4294967296 in Ha. clear F1 F2 F3 F4 P1 P2 P3 P4.
  Z.div_mod_to_equations. lia.
Qed.

(** [ip2long(long2ip(l)) == l] on the 32-bit numbers. *)
Lemma ip2long_long2ip l :
  0 <= l < 2 ^ 32 -> ip2long (long2ip l) = Some l.
Proof.
  intros Hl. unfold ip2long, long2ip.
  by rewrite parse_ipv4_ip_str, String.eqb_refl.
Qed.

(** *** The chunks of a network *)

Lemma targets_app s m e (ports : list Z) :
  s <= m + 1 -> m <= e ->
  targets s m ports ++ targets (m + 1) e ports = targets s e ports.
Proof.
  intros Hs He. unfold targets. rewrite <- flat_map_app. f_equal.
  replace (e + 1 - s) with ((m + 1 - s) + (e + 1 - (m + 1))) by lia.
  rewrite seqZ_app by lia. do 2 f_equal. lia.
Qed.

(** Consecutive blocks of 256 addresses enumerate the whole range. *)
Lemma blocks_targets (net : Z) (ports : list Z) (n : nat) :
  flat_map (fun se : Z * Z => targets se.1 se.2 ports)
    (map (fun i => (net + 256 * Z.of_nat i, net + 256 * Z.of_nat i + 255))
       (seq 0 n))
  = targets net (net + 256 * Z.of_nat n - 1) ports.
Proof.
  induction n as [|n IH].
  - cbn. unfold targets. by rewrite seqZ_nil by lia.
  - rewrite seq_S, map_app, flat_map_app, IH. cbn [map flat_map plus fst snd].
    rewrite app_nil_r.
    rewrite <- (targets_app net (net + 256 * Z.of_nat n - 1)
                  (net + 256 * Z.of_nat (S n) - 1)) by lia.
    f_equal. f_equal; lia.
Qed.

Lemma span_of_range (a b : Z) (ports : list Z) c :
  chunk_start c = ip_str a -> chunk_end c = ip_str b ->
  0 <= a -> a <= b -> b < 2 ^ 32 -> b - a < 256 ->
  spans ports c (a, b).
Proof.
  intros Hs He Ha Hab Hb Hlen. unfold spans, chunk_targets. cbn [fst snd].
  rewrite Hs, He.
  change (ip_str a) with (long2ip a). change (ip_str b) with (long2ip b).
  rewrite !ip2long_long2ip by lia. split; [done|lia].
Qed.

Lemma create_scan_chunk_range cidr0 s e p now d :
  exists c, scan_state (create_scan_chunk cidr0 s e p now d) = scan_state d ++ [c]
            /\ chunk_start c = s /\ chunk_end c = e.
Proof. eexists. split; [reflexivity|]. by split. Qed.

Lemma create_fold_ranges (cidr0 : string) (p now : Z) (l : list IPv4Network) :
  forall d,
  exists added,
    scan_state
      (fold_left
         (fun d subnet =>
            create_scan_chunk cidr0 (ip_str (first_address subnet))
              (ip_str (last_address subnet)) p now d) l d)
    = scan_state d ++ added /\
    Forall2 (fun c subnet =>
               chunk_start c = ip_str (first_address subnet) /\
               chunk_end c = ip_str (last_address subnet)) added l.
Proof.
  induction l as [|n l IH]; intros d.
  - exists []. cbn. rewrite app_nil_r. by split.
  - cbn [fold_left].
    destruct (IH (create_scan_chunk cidr0 (ip_str (first_address n))
                    (ip_str (last_address n)) p now d)) as (added & Heq & Hall).
    destruct (create_scan_chunk_range cidr0 (ip_str (first_address n))
                (ip_str (last_address n)) p now d) as (c & Hc & Hs & He).
    exists (c :: added). rewrite Heq, Hc, <- app_assoc. cbn.
    split; [done|]. by constructor.
Qed.

Lemma Forall2_with {A B} (P R : A -> B -> Prop) (Q : B -> Prop)
  (l : list A) (k : list B) :
  Forall2 P l k -> Forall Q k -> (forall x y, P x y -> Q y -> R x y) ->
  Forall2 R l k.
Proof.
  intros H. induction H as [|x y l k Hxy _ IH]; intros HQ HR; [constructor|].
  apply Forall_cons in HQ as [Hy HQ]. constructor; [by apply HR|by apply IH].
Qed.

(** The chunks [initialize_scan] enqueues for a network cover it: each
    chunk stands for at most 256 consecutive addresses, and the targets
    the chunks enumerate, one chunk after the other, are the targets of
    the whole network, every address with every port, once and in
    order. *)
Theorem chunks_cover_the_network ip_network target priority0 now st network ports :
  ip_network target = Some network ->
  0 <= prefixlen network <= 32 ->
  0 <= network_address network -> last_address network < 2 ^ 32 ->
  exists added ranges,
    scan_state (db (initialize_scan ip_network target priority0 now st))
    = scan_state (db st) ++ added /\
    Forall2 (spans ports) added ranges /\
    flat_map (fun se : Z * Z => targets se.1 se.2 ports) ranges
    = targets (first_address network) (last_address network) ports.
Proof.
  intros Hnet Hp Hlo Hhi. unfold initialize_scan. rewrite Hnet.
  unfold last_address, first_address, num_addresses, CHUNK_SIZE in *.
  set (net := network_address network) in *. set (p := prefixlen network) in *.
  assert (Hpos : 0 < 2 ^ (32 - p)) by (apply Z.pow_pos_nonneg; lia).
  assert (Hone : forall cidr0,
            2 ^ (32 - p) <= 256 ->
            exists added ranges,
              scan_state
                (create_scan_chunk cidr0 (ip_str net)
                   (ip_str (net + 2 ^ (32 - p) - 1)) priority0 now (db st))
              = scan_state (db st) ++ added /\
              Forall2 (spans ports) added ranges /\
              flat_map (fun se : Z * Z => targets se.1 se.2 ports) ranges
              = targets net (net + 2 ^ (32 - p) - 1) ports).
  { intros cidr0 Hsmall.
    destruct (create_scan_chunk_range cidr0 (ip_str net)
                (ip_str (net + 2 ^ (32 - p) - 1)) priority0 now (db st))
      as (c & Hc & Hs & He).
    exists [c], [(net, net + 2 ^ (32 - p) - 1)]. split; [exact Hc|]. split.
    - constructor; [|constructor]. apply span_of_range; [done|done|lia..].
    - cbn. by rewrite app_nil_r. }
  destruct (Z.leb_spec (2 ^ (32 - p)) 256) as [Hsmall|Hlarge].
  { cbn [db set_db]. by apply Hone. }
  destruct (Z.ltb_spec p 24) as [Hlt|Hge].
  2:{ exfalso. assert (2 ^ (32 - p) <= 2 ^ 8) by (apply Z.pow_le_mono_r; lia).
      change (2 ^ 8) with 256 in *. lia. }
  cbn [db set_db].
  destruct (create_fold_ranges target priority0 now (subnets24 network) (db st))
    as (added & Heq & Hall).
  assert (Hn : 2 ^ (32 - p) = 256 * 2 ^ (24 - p)).
  { replace (32 - p) with (8 + (24 - p)) by lia.
    rewrite Z.pow_add_r by lia. done. }
  assert (Hn0 : 0 < 2 ^ (24 - p)) by (apply Z.pow_pos_nonneg; lia).
  exists added,
    (map (fun i => (net + 256 * Z.of_nat i, net + 256 * Z.of_nat i + 255))
       (seq 0 (Z.to_nat (2 ^ (24 - p))))).
  split; [exact Heq|]. split.
  - unfold subnets24 in Hall. fold net p in Hall.
    apply Forall2_fmap_r in Hall. apply Forall2_fmap_r.
    assert (Hbound : Forall (fun i => (i < Z.to_nat (2 ^ (24 - p)))%nat)
                       (seq 0 (Z.to_nat (2 ^ (24 - p))))).
    { apply List.Forall_forall. intros i Hi%in_seq. lia. }
    apply (Forall2_with _ _ _ _ _ Hall Hbound). intros c i [Hs He] Hi.
    unfold last_address, first_address, num_addresses in Hs, He.
    cbn [network_address prefixlen] in Hs, He.
    change (2 ^ (32 - 24)) with 256 in He.
    apply span_of_range; [done| |lia..].
    rewrite He. f_equal. lia.
  - rewrite blocks_targets. f_equal. rewrite Z2Nat.id by lia. lia.
Qed.

Lemma chunks_cover_the_network_witness :
  let st := initialize_scan plain_ip_network "10.1.2.3/22" 1 50 initial in
  exists added ranges,
    scan_state (db st) = [] ++ added /\
    Forall2 (spans [80; 443]) added ranges /\
    flat_map (fun se : Z * Z => targets se.1 se.2 [80; 443]) ranges
    = targets 167837696 167838719 [80; 443].
Proof.
  intros st.
  apply (chunks_cover_the_network plain_ip_network "10.1.2.3/22" 1 50 initial
           {| network_address := 167837696; prefixlen := 22 |} [80; 443]).
  - vm_compute. reflexivity.
  - cbn. lia.
  - cbn. lia.
  - vm_compute. reflexivity.
Defined.

(** *** The targets of a chunk are pairwise distinct *)

Lemma long2ip_inj a b :
  0 <= a < 2 ^ 32 -> 0 <= b < 2 ^ 32 -> long2ip a = long2ip b -> a = b.
Proof.
  intros Ha Hb Heq. apply (f_equal ip2long) in Heq.
  rewrite !ip2long_long2ip in Heq by done. by injection Heq.
Qed.

Lemma targets_In s e (ports : list Z) t :
  In t (targets s e ports) <->
  exists l, s <= l <= e /\ t.1 = long2ip l /\ In t.2 ports.
Proof.
  unfold targets. rewrite in_flat_map. split.
  - intros (l & Hl & Ht). apply list_elem_of_In, elem_of_seqZ in Hl.
    apply in_map_iff in Ht as (port0 & <- & Hport). exists l. cbn. split; [lia|done].
  - intros (l & Hl & Hip & Hport). exists l. split.
    + apply list_elem_of_In, elem_of_seqZ. lia.
    + apply in_map_iff. exists t.2. split; [|done]. rewrite <- Hip. by destruct t.
Qed.

Lemma targets_NoDup s e (ports : list Z) :
  NoDup ports -> 0 <= s -> e < 2 ^ 32 -> NoDup (targets s e ports).
Proof.
  intros Hports Hs He. unfold targets.
  assert (Hrange : Forall (fun l => s <= l <= e) (seqZ s (e + 1 - s))).
  { apply Forall_seqZ. intros l Hl. lia. }
  pose proof (NoDup_seqZ s (e + 1 - s)) as Hnd.
  induction Hnd as [|l ls Hl Hnd IH]; [constructor|].
  apply Forall_cons in Hrange as [Hlr Hrange]. cbn [flat_map].
  apply NoDup_app. split; [|split; [|by apply IH]].
  - apply NoDup_fmap_2; [|done]. by intros x y [= ->].
  - intros t Ht Ht'. apply list_elem_of_In in Ht, Ht'.
    apply in_map_iff in Ht as (port0 & <- & _).
    apply in_flat_map in Ht' as (l' & Hl' & Ht').
    apply in_map_iff in Ht' as (port1 & [= Hip _] & _).
    rewrite List.Forall_forall in Hrange. specialize (Hrange l' Hl').
    apply long2ip_inj in Hip; [|lia..]. subst l'.
    by apply Hl, list_elem_of_In.
Qed.

Lemma submseteq_keeps_NoDup {A} (l k : list A) : l ⊆+ k -> NoDup k -> NoDup l.
Proof.
  intros (k' & Hk')%submseteq_Permutation Hnd. rewrite Hk' in Hnd.
  by apply NoDup_app in Hnd as [? _].
Qed.

(** With pairwise distinct ports, the scan of a chunk is never refused
    by the store: results made for different targets of the chunk, in
    any order and for any part of the targets, have pairwise distinct
    keys, so every flush commits and every result has its row. *)
Theorem chunk_scan_never_refused (results : list ObsDict) s e ports db :
  store_ok db -> NoDup ports -> 0 <= s -> e < 2 ^ 32 ->
  map target_of results ⊆+ targets s e ports ->
  Forall (fun o : ObsDict => protocol o = "tcp") results ->
  exists db',
    scan_chunk results db = inl db' /\ store_ok db' /\
    forall o, In o results -> stored o db'.
Proof.
  intros Hok Hports Hs He Hsub Htcp.
  assert (Hnd : NoDup (map obs_key results)).
  { assert (Hkeys : map obs_key results
                    = map (fun t : string * Z => (t.1, t.2, "tcp"))
                          (map target_of results)).
    { rewrite map_map. apply map_ext_in. intros o Ho.
      rewrite List.Forall_forall in Htcp. unfold obs_key, target_of. cbn.
      by rewrite (Htcp o Ho). }
    rewrite Hkeys. apply NoDup_fmap_2; [by intros [a b] [c d] [= -> ->]|].
    eapply submseteq_keeps_NoDup; [exact Hsub|]. by apply targets_NoDup. }
  destruct (scan_chunk_from_distinct results [] [] db Hok Hnd)
    as (db' & Hscan & Hok' & Hall); [by intros o []|].
  exists db'. split; [exact Hscan|]. by split.
Qed.

Lemma chunk_scan_never_refused_witness :
  let at_port p0 st0 :=
    {| obs := Probes.observation "10.0.0.1" p0 "tcp" st0 100 None None;
       analysis := None |} in
  let results := [at_port 443 "closed"; at_port 80 "open"] in
  exists db',
    scan_chunk results init_db = inl db' /\ store_ok db' /\
    forall o, In o results -> stored o db'.
Proof.
  intros at_port results.
  apply (chunk_scan_never_refused results 167772160 167772161 [80; 443] init_db).
  - repeat split; constructor.
  - apply (bool_decide_unpack _). reflexivity.
  - lia.
  - cbn. lia.
  - apply NoDup_submseteq; [apply (bool_decide_unpack _); reflexivity|].
    intros x Hx. apply (bool_decide_unpack _).
    apply list_elem_of_In in Hx. destruct Hx as [<-|[<-|[]]]; reflexivity.
  - repeat constructor.
Defined.

End CoverageExtras.

(** ** History on change, against the pre-update row *)

Section HistoryFacts.

Import DbManager.

Lemma update_service_id u s : svc_id (update_service u s) = svc_id s.
Proof. unfold update_service. by destruct (Z.eqb _ _). Qed.

Lemma last_map {A B} (f : A -> B) (l : list A) :
  last (map f l) = f <$> last l.
Proof.
  induction l as [|a [|b l] IH]; [done..|].
  change (last (map f (a :: b :: l))) with (last (map f (b :: l))).
  by rewrite IH.
Qed.

Lemma flat_map_ext_In {A B} (f g : A -> list B) (l : list A) :
  (forall a, In a l -> f a = g a) -> flat_map f l = flat_map g l.
Proof.
  induction l as [|a l IH]; intros H; [done|]. cbn [flat_map].
  rewrite (H a) by (by left). rewrite IH; [done|].
  intros b Hb. apply H. by right.
Qed.

(** The events of a batch are those of its observations against the
    rows as they were before the batch. *)
Lemma history_due_rows db (l : list ObsDict) :
  history_due db l = flat_map (event_against (services db)) l.
Proof.
  unfold history_due. apply flat_map_ext_In. intros o Ho.
  rewrite (existing_member l o (services db) Ho). unfold event_against.
  by destruct (last _).
Qed.

(** An update of the row of another key leaves the event of an
    observation as it was. *)
Lemma event_against_update (svcs : list Service) (o o' : ObsDict) r :
  NoDup (map svc_id svcs) ->
  In r (rows_with_key (obs_key o) svcs) ->
  obs_key o' <> obs_key o ->
  event_against (map (update_service (update_tuple (svc_id r) o)) svcs) o'
  = event_against svcs o'.
Proof.
  intros Hids Hr Hne. unfold event_against.
  rewrite rows_with_key_map_update, last_map.
  destruct (last (rows_with_key (obs_key o') svcs)) as [r'|] eqn:Hlast; [|done].
  cbn [fmap option_fmap option_map].
  assert (Hr' : In r' (rows_with_key (obs_key o') svcs)).
  { apply last_Some in Hlast as [l' ->]. apply in_or_app. right. by left. }
  apply rows_with_key_In in Hr as [Hr Hk], Hr' as [Hr' Hk'].
  assert (Hid : (svc_id r' =? svc_id r) = false).
  { apply Z.eqb_neq. intros Heq.
    assert (r' = r) by (by apply (unique_by svc_id svcs)). congruence. }
  unfold update_service. cbn [u_svc_id update_tuple]. by rewrite Hid.
Qed.

(** With pairwise distinct keys in the batch, the row before the batch
    is the pre-update row of every update. *)
Lemma history_by_update_distinct (l : list ObsDict) : forall svcs,
  NoDup (map svc_id svcs) ->
  NoDup (map obs_key l) ->
  history_by_update svcs l = flat_map (event_against svcs) l.
Proof.
  induction l as [|o l IH]; intros svcs Hids Hnd; [done|].
  cbn [map] in Hnd. apply NoDup_cons_In in Hnd as [Hnotin Hnd].
  cbn [history_by_update flat_map]. unfold event_against at 1.
  destruct (last (rows_with_key (obs_key o) svcs)) as [r|] eqn:Hlast.
  - f_equal. rewrite IH; [|by rewrite map_map, (map_ext _ _ (update_service_id _))|done].
    apply flat_map_ext_In. intros o' Ho'. apply event_against_update; [done| |].
    + apply last_Some in Hlast as [l' ->]. apply in_or_app. right. by left.
    + intros Heq. apply Hnotin. rewrite <- Heq. by apply in_map.
  - by apply IH.
Qed.

(** C1 (the code against the claim): a committed batch appends to the
    history one event for each observation whose key had a Service row
    before the batch and whose state differs from that row's, or whose
    banner is non-empty and differs from it: every observation of the
    batch is compared with the row as it was read before the batch.
    For a batch with pairwise distinct keys that is the pre-update row
    of each update, the batch commits and writes exactly the events the
    specification asks for ([history_by_update]); and over a sequence of
    single-observation batches for one key the number of events is the
    number of adjacent pairs of observations that differ (one more when
    the key had a row and the first observation differs from it).  With a
    stored row (open, banner A), the batch of two observations of its
    key, both open with banner B, writes two events, although the second
    update changes nothing of the row the first one left; and the batch
    of an observation with banner B and one with banner A writes only
    the event for B and leaves the row with banner A.  Saved one at a
    time, the same observations write the events the specification asks
    for. *)
Theorem history_compares_with_row_before_batch :
  (forall observations db db',
     save_observation_batch observations db = inl db' ->
     map history_tuple (history db')
     = map history_tuple (history db) ++ history_due db observations) /\
  (forall observations db,
     store_ok db -> NoDup (map obs_key observations) ->
     exists db',
       save_observation_batch observations db = inl db' /\
       map history_tuple (history db')
       = map history_tuple (history db)
         ++ history_by_update (services db) observations) /\
  (forall (first : ObsDict) rest db,
     rows_with_key (obs_key first) (services db) = [] ->
     Forall (fun o => obs_key o = obs_key first) rest ->
     exists db',
       save_each (first :: rest) db = inl db' /\
       length (history db')
       = (length (history db) + count_adjacent_changes (first :: rest))%nat) /\
  (forall (first : ObsDict) rest db r,
     rows_with_key (obs_key first) (services db) = [r] ->
     Forall (fun o => obs_key o = obs_key first) rest ->
     exists db',
       save_each (first :: rest) db = inl db' /\
       length (history db')
       = (length (history db)
          + (if change_observed first (svc_banner r) (svc_state r) then 1 else 0)
          + count_adjacent_changes (first :: rest))%nat) /\
  (let oB := ssh_observation "open" (Some "SSH-2.0-B") 200 in
   let oB' := ssh_observation "open" (Some "SSH-2.0-B") 300 in
   let oA' := ssh_observation "open" (Some "SSH-2.0-A") 300 in
   let d1 := db_after (save_observation_batch
                         [ssh_observation "open" (Some "SSH-2.0-A") 100] init_db)
                      init_db in
   let written r :=
     (fun d => (map history_tuple (history d),
                map (fun s => (svc_state s, svc_banner s)) (services d)))
       <$> match r with inl d => Some d | inr _ => None end in
   map (fun s => (svc_id s, svc_state s, svc_banner s)) (services d1)
   = [(1, "open", Some "SSH-2.0-A")] /\
   written (save_observation_batch [oB; oB'] d1)
   = Some ([(1, 200, "SSH-2.0-B", "open"); (1, 300, "SSH-2.0-B", "open")],
           [("open", Some "SSH-2.0-B")]) /\
   history_by_update (services d1) [oB; oB'] = [(1, 200, "SSH-2.0-B", "open")] /\
   written (save_each [oB; oB'] d1)
   = Some ([(1, 200, "SSH-2.0-B", "open")], [("open", Some "SSH-2.0-B")]) /\
   written (save_observation_batch [oB; oA'] d1)
   = Some ([(1, 200, "SSH-2.0-B", "open")], [("open", Some "SSH-2.0-A")]) /\
   history_by_update (services d1) [oB; oA']
   = [(1, 200, "SSH-2.0-B", "open"); (1, 300, "SSH-2.0-A", "open")] /\
   written (save_each [oB; oA'] d1)
   = Some ([(1, 200, "SSH-2.0-B", "open"); (1, 300, "SSH-2.0-A", "open")],
           [("open", Some "SSH-2.0-A")])).
Proof.
  split; [exact save_batch_history|]. split; [|split; [|split]].
  - intros observations db Hok Hnd.
    destruct (batch_with_distinct_keys observations db Hok Hnd)
      as (db' & Hsave & _).
    exists db'. split; [exact Hsave|].
    rewrite (save_batch_history _ _ _ Hsave), history_due_rows.
    rewrite history_by_update_distinct; [done| |done]. apply Hok.
  - exact save_each_new_key_count.
  - exact save_each_stored_key_count.
  - cbv zeta. repeat split; vm_compute; reflexivity.
Qed.

End HistoryFacts.

(** ** The headers of an HTTP response *)

Section HeaderExtras.

Import Probes.

Variable py_lower : string -> string.

Lemma str_app_nil_l (a : string) : "" +:+ a = a.
Proof. reflexivity. Qed.

Lemma substring_whole (s : string) : String.substring 0 (String.length s) s = s.
Proof. induction s as [|c s IH]; [done|]. cbn. by rewrite IH. Qed.

Lemma substring_prefix (a b : string) :
  String.substring 0 (String.length a) (a +:+ b) = a.
Proof.
  induction a as [|c a IH].
  - rewrite str_app_nil_l. by destruct b.
  - rewrite str_app_cons. cbn. by rewrite IH.
Qed.

Lemma substring_suffix (a b : string) :
  String.substring (String.length a)
    (String.length (a +:+ b) - String.length a) (a +:+ b) = b.
Proof.
  induction a as [|c a IH].
  - rewrite str_app_nil_l. cbn [String.length]. rewrite Nat.sub_0_r.
    apply substring_whole.
  - rewrite str_app_cons. cbn [String.length String.substring Nat.sub]. exact IH.
Qed.

Lemma length_str_app (a b : string) :
  String.length (a +:+ b) = (String.length a + String.length b)%nat.
Proof.
  induction a as [|c a IH]; [done|]. rewrite str_app_cons. cbn. by rewrite IH.
Qed.

(** In a header line whose name holds no colon, the first [": "] is the
    one after the name. *)
Lemma index_header (name value : string) :
  PyStr.free_of ":"%char name = true ->
  String.index 0 ": " (name +:+ ": " +:+ value) = Some (String.length name).
Proof.
  induction name as [|c name IH]; intros Hfree.
  - rewrite str_app_nil_l, !str_app_cons, str_app_nil_l.
    cbn [String.index String.prefix String.length].
    destruct (ascii_dec ":"%char ":"%char); [|done].
    destruct (ascii_dec " "%char " "%char); [|done].
    by destruct value.
  - cbn [PyStr.free_of] in Hfree. apply andb_prop in Hfree as [Hc Hfree].
    rewrite str_app_cons. cbn [String.index].
    assert (Hp : String.prefix ": " (String c (name +:+ ": " +:+ value)) = false).
    { cbn [String.prefix]. destruct (ascii_dec ":"%char c) as [<-|Hne]; [|done].
      by rewrite Ascii.eqb_refl in Hc. }
    rewrite Hp, (IH Hfree). reflexivity.
Qed.

(** [split(": ", 1)] takes a header line apart at the name. *)
Lemma split_once_header (name value : string) :
  PyStr.free_of ":"%char name = true ->
  PyStr.split_once ": " (name +:+ ": " +:+ value) = (name, Some value).
Proof.
  intros Hfree. unfold PyStr.split_once. rewrite (index_header _ _ Hfree).
  rewrite substring_prefix. f_equal. f_equal.
  pose proof (substring_suffix (name +:+ ": ") value) as H.
  assert (Hassoc : (name +:+ ": ") +:+ value = name +:+ ": " +:+ value).
  { clear. induction name as [|c name IH]; [done|].
    by rewrite !str_app_cons, IH. }
  rewrite Hassoc in H. rewrite (length_str_app name ": ") in H. exact H.
Qed.

Lemma split_once_other (text : string) :
  PyStr.contains text ": " = false ->
  PyStr.split_once ": " text = (text, None).
Proof.
  unfold PyStr.contains, PyStr.split_once.
  by destruct (String.index 0 ": " text).
Qed.

Lemma parse_headers_fold (ls : list HeaderLine) (k : string) :
  Forall (fun l => plain_line l = true) ls ->
  forall m : gmap string string,
  fold_left
    (fun (hs : gmap string string) line =>
       match PyStr.split_once ": " line with
       | (k, Some v) => <[py_lower k := v]> hs
       | (_, None) => hs
       end) (map render_line ls) m !! k
  = match last (omap (value_for py_lower k) ls) with
    | Some v => Some v
    | None => m !! k
    end.
Proof.
  induction 1 as [|l ls Hl Hls IH]; intros m; [done|].
  cbn [map fold_left]. rewrite IH.
  change (omap (value_for py_lower k) (l :: ls))
    with (match value_for py_lower k l with
          | Some v => v :: omap (value_for py_lower k) ls
          | None => omap (value_for py_lower k) ls
          end).
  destruct l as [name value|text]; cbn [render_line plain_line value_for] in *.
  - rewrite (split_once_header _ _ Hl).
    destruct (decide (py_lower name = k)) as [<-|Hne].
    + rewrite last_cons. destruct (last _); [done|]. apply lookup_insert_eq.
    + destruct (last _); [done|]. by apply lookup_insert_ne.
  - apply negb_true_iff in Hl. by rewrite (split_once_other _ Hl).
Qed.

(** The header dictionary of the HTTP probe, against the lines as the
    peer wrote them: when the lines after the status line are headers
    [name: value] whose names hold no colon, and texts without [": "],
    the dictionary holds, under a key, the value of the last header
    whose name is that key in lower case, and nothing when there is no
    such header; a value is kept whole, also when [": "] occurs in it,
    and the other texts are ignored. *)
Theorem parse_headers_last_line_wins (ls : list HeaderLine) (k : string) :
  Forall (fun l => plain_line l = true) ls ->
  parse_headers py_lower (map render_line ls) !! k
  = last (omap (value_for py_lower k) ls).
Proof.
  intros Hls. unfold parse_headers. rewrite (parse_headers_fold ls k Hls).
  destruct (last _); [done|]. apply lookup_empty.
Qed.

End HeaderExtras.

Lemma parse_headers_last_line_wins_witness :
  let ls := [Probes.Header "Server" "Apache";
             Probes.Other "X-Broken";
             Probes.Header "Content-Type" "text/html: charset=utf-8";
             Probes.Header "SERVER" "nginx: edge"] in
  map Probes.render_line ls
  = ["Server: Apache"; "X-Broken"; "Content-Type: text/html: charset=utf-8";
     "SERVER: nginx: edge"] /\
  Probes.parse_headers PyStr.lower_ascii_string (map Probes.render_line ls)
    !! "server" = Some "nginx: edge".
Proof.
  intros ls. split; [reflexivity|].
  rewrite (parse_headers_last_line_wins PyStr.lower_ascii_string ls "server").
  - vm_compute. reflexivity.
  - repeat constructor.
Defined.
